(** * beam_slam: IMU preintegration, keyframe policy, global map and
      transactions, embedded from the C++ sources.

    Conventions of the embedding.
    - A [double] is a rational ([Q]); equality of computed values is [Qeq],
      which is what "equal up to rounding" means in exact arithmetic.
    - A [ros::Time] or [ros::Duration] is an integer count of nanoseconds.
    - A [std::queue] is a list whose head is [front()]; [push] appends at the
      back and [pop] drops the head.
    - A [std::vector] is a list; [at(i)] throws [std::out_of_range] outside it.
    - An orientation is carried as its rotation matrix, so the conversions
      between quaternion and matrix are the identity. *)

From Stdlib Require Import ZArith QArith List Bool Lia String.
Import ListNotations.

Open Scope Z_scope.

(* ------------------------------------------------------------------ *)
(** ** Eigen: the small dense vectors and matrices the sources use *)

Module Eigen.

Local Open Scope Q_scope.

Record Vector3d : Type := mkVector3d { vx : Q; vy : Q; vz : Q }.

(** Rows of a 3 x 3 matrix. *)
Record Matrix3d : Type := mkMatrix3d { r0 : Vector3d; r1 : Vector3d; r2 : Vector3d }.

(** A rigid transform [Eigen::Matrix4d]: rotation block, translation column
    ([block(0, 3, 3, 1)]); the last row is 0 0 0 1. *)
Record Matrix4d : Type := mkMatrix4d { rotation : Matrix3d; translation : Vector3d }.

Definition Zero3 : Vector3d := mkVector3d 0 0 0.

Definition Identity3 : Matrix3d :=
  mkMatrix3d (mkVector3d 1 0 0) (mkVector3d 0 1 0) (mkVector3d 0 0 1).

Definition Identity4 : Matrix4d := mkMatrix4d Identity3 Zero3.

Definition vadd (a b : Vector3d) : Vector3d :=
  mkVector3d (vx a + vx b) (vy a + vy b) (vz a + vz b).

Definition vsub (a b : Vector3d) : Vector3d :=
  mkVector3d (vx a - vx b) (vy a - vy b) (vz a - vz b).

(** [v * s] *)
Definition vscale (v : Vector3d) (s : Q) : Vector3d :=
  mkVector3d (vx v * s) (vy v * s) (vz v * s).

(** [v / s] *)
Definition vdiv (v : Vector3d) (s : Q) : Vector3d :=
  mkVector3d (vx v / s) (vy v / s) (vz v / s).

Definition dot (a b : Vector3d) : Q := vx a * vx b + vy a * vy b + vz a * vz b.

Definition squaredNorm (v : Vector3d) : Q := dot v v.

(** [v.norm() < s].  The norm is a square root, which the rationals lack; for
    reals, [sqrt x < s] holds exactly when [0 < s] and [x < s * s]. *)
Definition norm_lt (v : Vector3d) (s : Q) : bool :=
  match 0 ?= s with
  | Lt => match squaredNorm v ?= s * s with Lt => true | _ => false end
  | _ => false
  end.

(** [M * v] *)
Definition mvec (m : Matrix3d) (v : Vector3d) : Vector3d :=
  mkVector3d (dot (r0 m) v) (dot (r1 m) v) (dot (r2 m) v).

Definition col0 (m : Matrix3d) : Vector3d := mkVector3d (vx (r0 m)) (vx (r1 m)) (vx (r2 m)).
Definition col1 (m : Matrix3d) : Vector3d := mkVector3d (vy (r0 m)) (vy (r1 m)) (vy (r2 m)).
Definition col2 (m : Matrix3d) : Vector3d := mkVector3d (vz (r0 m)) (vz (r1 m)) (vz (r2 m)).

Definition row_times (r : Vector3d) (b : Matrix3d) : Vector3d :=
  mkVector3d (dot r (col0 b)) (dot r (col1 b)) (dot r (col2 b)).

(** [A * B] *)
Definition mmul (a b : Matrix3d) : Matrix3d :=
  mkMatrix3d (row_times (r0 a) b) (row_times (r1 a) b) (row_times (r2 a) b).

Definition transpose (m : Matrix3d) : Matrix3d := mkMatrix3d (col0 m) (col1 m) (col2 m).

(** The product of two rigid transforms. *)
Definition Tmul (x y : Matrix4d) : Matrix4d :=
  mkMatrix4d (mmul (rotation x) (rotation y))
             (vadd (mvec (rotation x) (translation y)) (translation x)).

(** [beam::InvertTransform] *)
Definition InvertTransform (x : Matrix4d) : Matrix4d :=
  mkMatrix4d (transpose (rotation x))
             (vsub Zero3 (mvec (transpose (rotation x)) (translation x))).

(** Entrywise equality of values. *)
Definition veq (a b : Vector3d) : Prop :=
  vx a == vx b /\ vy a == vy b /\ vz a == vz b.

Definition meq (a b : Matrix3d) : Prop :=
  veq (r0 a) (r0 b) /\ veq (r1 a) (r1 b) /\ veq (r2 a) (r2 b).

Definition Teq (a b : Matrix4d) : Prop :=
  meq (rotation a) (rotation b) /\ veq (translation a) (translation b).

End Eigen.

(* ------------------------------------------------------------------ *)
(** ** ros::Time *)

Module Ros.

Definition RosTime : Type := Z.
Definition RosDuration : Type := Z.

(** [toSec()]: nanoseconds to seconds. *)
Definition toSec (t : Z) : Q := (inject_Z t / inject_Z 1000000000)%Q.

End Ros.

(* ------------------------------------------------------------------ *)
(** ** Outcomes of operations that can leave the defined behaviour *)

(** [FrontOfEmptyQueue]: the code called [front()] on an empty [std::queue],
    which C++ leaves undefined.  [OutOfRange]: [std::vector::at] threw
    [std::out_of_range].  [NullDereference]: a null shared pointer was
    dereferenced. *)
Inductive Outcome (A : Type) : Type :=
  | Done (x : A)
  | FrontOfEmptyQueue
  | OutOfRange
  | NullDereference.

Arguments Done {A} x.
Arguments FrontOfEmptyQueue {A}.
Arguments OutOfRange {A}.
Arguments NullDereference {A}.

Definition bind {A B : Type} (c : Outcome A) (k : A -> Outcome B) : Outcome B :=
  match c with
  | Done x => k x
  | FrontOfEmptyQueue => FrontOfEmptyQueue
  | OutOfRange => OutOfRange
  | NullDereference => NullDereference
  end.

Notation "x <- c ;; k" := (bind c (fun x => k))
  (at level 61, c at next level, right associativity).
Notation "' p <- c ;; k" := (bind c (fun x => match x with p => k end))
  (at level 61, p pattern, c at next level, right associativity).

(** [std::queue::front()] *)
Definition front {A : Type} (q : list A) : Outcome A :=
  match q with
  | [] => FrontOfEmptyQueue
  | x :: _ => Done x
  end.

(** [std::vector::at(i)], for an [int] or [size_t] index held as an integer. *)
Definition at_ {A : Type} (v : list A) (i : Z) : Outcome A :=
  if i <? 0 then OutOfRange
  else match nth_error v (Z.to_nat i) with
       | Some x => Done x
       | None => OutOfRange
       end.

(** [size()] *)
Definition size {A : Type} (v : list A) : Z := Z.of_nat (List.length v).

(* ------------------------------------------------------------------ *)
(** ** bs_models::ImuPreintegration (imu_preintegration.cpp) *)

Module Imu.

Import Eigen Ros.

(** [bs_common::IMUData]: stamp, angular velocity, linear acceleration. *)
Record IMUData : Type := mkIMUData { t : RosTime; w : Vector3d; a : Vector3d }.

(** [bs_common::ImuState] *)
Record ImuState : Type := mkImuState {
  Stamp : RosTime;
  OrientationMat : Matrix3d;
  PositionVec : Vector3d;
  VelocityVec : Vector3d;
  GyroBiasVec : Vector3d;
  AccelBiasVec : Vector3d
}.

(** [ImuState(stamp)]: the state at rest at the origin. *)
Definition ImuState_at (stamp : RosTime) : ImuState :=
  mkImuState stamp Identity3 Zero3 Zero3 Zero3 Zero3.

Definition SetOrientation (s : ImuState) (q : Matrix3d) : ImuState :=
  mkImuState (Stamp s) q (PositionVec s) (VelocityVec s) (GyroBiasVec s) (AccelBiasVec s).

Definition SetPosition (s : ImuState) (p : Vector3d) : ImuState :=
  mkImuState (Stamp s) (OrientationMat s) p (VelocityVec s) (GyroBiasVec s) (AccelBiasVec s).

Definition SetVelocity (s : ImuState) (v : Vector3d) : ImuState :=
  mkImuState (Stamp s) (OrientationMat s) (PositionVec s) v (GyroBiasVec s) (AccelBiasVec s).

Definition SetGyroBias (s : ImuState) (bg : Vector3d) : ImuState :=
  mkImuState (Stamp s) (OrientationMat s) (PositionVec s) (VelocityVec s) bg (AccelBiasVec s).

Definition SetAccelBias (s : ImuState) (ba : Vector3d) : ImuState :=
  mkImuState (Stamp s) (OrientationMat s) (PositionVec s) (VelocityVec s) (GyroBiasVec s) ba.

(** The preintegrated increment [pre_integrator.delta]. *)
Record Delta : Type := mkDelta {
  delta_t : RosDuration;
  delta_q : Matrix3d;
  delta_v : Vector3d;
  delta_p : Vector3d
}.

Definition Delta_rest : Delta := mkDelta 0 Identity3 Zero3 Zero3.

(** [bs_common::PreIntegrator]: the samples of the interval, the increment and
    the noise densities. *)
Record PreIntegrator : Type := mkPreIntegrator {
  data : list IMUData;
  delta : Delta;
  cov_w : Q;
  cov_a : Q;
  cov_bg : Q;
  cov_ba : Q
}.

(** A default-constructed [PreIntegrator]. *)
Definition PreIntegrator_new : PreIntegrator := mkPreIntegrator [] Delta_rest 0%Q 0%Q 0%Q 0%Q.

(** [PreIntegrator::Reset()]: the increment back to rest. *)
Definition Reset (p : PreIntegrator) : PreIntegrator :=
  mkPreIntegrator (data p) Delta_rest (cov_w p) (cov_a p) (cov_bg p) (cov_ba p).

Definition set_data (p : PreIntegrator) (d : list IMUData) : PreIntegrator :=
  mkPreIntegrator d (delta p) (cov_w p) (cov_a p) (cov_bg p) (cov_ba p).

(** [PreIntegrator::Integrate(t, bg, ba, compute_jacobian, compute_covariance)]
    lives in bs_common, outside these sources: an interface here. *)
Class PreIntegratorImpl : Type := {
  Integrate : RosTime -> Vector3d -> Vector3d -> bool -> bool -> PreIntegrator -> PreIntegrator
}.

(** Modelled from the spec: the constant [GRAVITY_WORLD], whose header is not
    among the sources; the spec gives g = (0, 0, -9.81). *)
Definition GRAVITY_WORLD : Vector3d := mkVector3d 0 0 (-(981 # 100))%Q.

Record Params : Type := mkParams {
  cov_prior_noise : Q;
  cov_gyro_noise : Q;
  cov_accel_noise : Q;
  cov_gyro_bias : Q;
  cov_accel_bias : Q
}.

(** The members of [ImuPreintegration]. *)
Record ImuPreintegration : Type := mkImuPreintegration {
  params_ : Params;
  bg_ : Vector3d;
  ba_ : Vector3d;
  first_window_ : bool;
  imu_state_i_ : ImuState;
  imu_state_k_ : ImuState;
  pre_integrator_ij : PreIntegrator;
  current_imu_data_buffer_ : list IMUData;
  total_imu_data_buffer_ : list IMUData
}.

Definition set_first_window (s : ImuPreintegration) (b : bool) : ImuPreintegration :=
  mkImuPreintegration (params_ s) (bg_ s) (ba_ s) b (imu_state_i_ s) (imu_state_k_ s)
    (pre_integrator_ij s) (current_imu_data_buffer_ s) (total_imu_data_buffer_ s).

Definition set_imu_state_i (s : ImuPreintegration) (x : ImuState) : ImuPreintegration :=
  mkImuPreintegration (params_ s) (bg_ s) (ba_ s) (first_window_ s) x (imu_state_k_ s)
    (pre_integrator_ij s) (current_imu_data_buffer_ s) (total_imu_data_buffer_ s).

Definition set_imu_state_k (s : ImuPreintegration) (x : ImuState) : ImuPreintegration :=
  mkImuPreintegration (params_ s) (bg_ s) (ba_ s) (first_window_ s) (imu_state_i_ s) x
    (pre_integrator_ij s) (current_imu_data_buffer_ s) (total_imu_data_buffer_ s).

Definition set_pre_integrator_ij (s : ImuPreintegration) (p : PreIntegrator) : ImuPreintegration :=
  mkImuPreintegration (params_ s) (bg_ s) (ba_ s) (first_window_ s) (imu_state_i_ s)
    (imu_state_k_ s) p (current_imu_data_buffer_ s) (total_imu_data_buffer_ s).

Definition set_current_buffer (s : ImuPreintegration) (b : list IMUData) : ImuPreintegration :=
  mkImuPreintegration (params_ s) (bg_ s) (ba_ s) (first_window_ s) (imu_state_i_ s)
    (imu_state_k_ s) (pre_integrator_ij s) b (total_imu_data_buffer_ s).

Definition set_total_buffer (s : ImuPreintegration) (b : list IMUData) : ImuPreintegration :=
  mkImuPreintegration (params_ s) (bg_ s) (ba_ s) (first_window_ s) (imu_state_i_ s)
    (imu_state_k_ s) (pre_integrator_ij s) (current_imu_data_buffer_ s) b.

(** [CheckParameters]: [true] when it throws [std::invalid_argument]. *)
Definition CheckParameters_throws (p : Params) : bool :=
  match (cov_prior_noise p ?= 0)%Q with Gt => false | _ => true end.

Definition SetPreintegrator (s : ImuPreintegration) : ImuPreintegration :=
  let p := pre_integrator_ij s in
  set_pre_integrator_ij s
    (mkPreIntegrator (data p) (delta p) (cov_gyro_noise (params_ s))
       (cov_accel_noise (params_ s)) (cov_gyro_bias (params_ s)) (cov_accel_bias (params_ s))).

(** The constructor with initial biases ([None] when [CheckParameters]
    throws); the one without them is [ImuPreintegration_new params Zero3 Zero3].
    The first window is pending and both buffers are empty. *)
Definition ImuPreintegration_new (params : Params) (init_bg init_ba : Vector3d)
  : option ImuPreintegration :=
  if CheckParameters_throws params then None
  else Some (SetPreintegrator
               (mkImuPreintegration params init_bg init_ba true (ImuState_at 0) (ImuState_at 0)
                  PreIntegrator_new [] [])).

(** [ClearBuffer]: both members are swapped with the same local queue.  The
    first swap empties the current queue and leaves its samples in the local;
    the second hands them to the total queue. *)
Definition ClearBuffer (s : ImuPreintegration) : ImuPreintegration :=
  let empty : list IMUData := [] in
  let '(s, empty) := (set_current_buffer s empty, current_imu_data_buffer_ s) in
  let '(s, empty) := (set_total_buffer s empty, total_imu_data_buffer_ s) in
  s.

(** [AddToBuffer]: both overloads push the sample on both queues. *)
Definition AddToBuffer (s : ImuPreintegration) (imu_data : IMUData) : ImuPreintegration :=
  let s1 := set_current_buffer s (current_imu_data_buffer_ s ++ [imu_data]) in
  set_total_buffer s1 (total_imu_data_buffer_ s1 ++ [imu_data]).

Definition ResetPreintegrator (s : ImuPreintegration) : ImuPreintegration :=
  set_pre_integrator_ij s (set_data (Reset (pre_integrator_ij s)) []).

(** [while (t_start > buffer.front().t) buffer.pop();] *)
Fixpoint pop_before (t_start : RosTime) (buffer : list IMUData) : Outcome (list IMUData) :=
  match buffer with
  | [] => FrontOfEmptyQueue
  | d :: rest => if t_start >? t d then pop_before t_start rest else Done buffer
  end.

Definition SetStart (s : ImuPreintegration) (t_start : RosTime)
    (R_WORLD_IMU : option Matrix3d) (t_WORLD_IMU velocity : option Vector3d)
  : Outcome ImuPreintegration :=
  (* adjust IMU buffer *)
  cur <- pop_before t_start (current_imu_data_buffer_ s) ;;
  tot <- pop_before t_start (total_imu_data_buffer_ s) ;;
  let s := set_total_buffer (set_current_buffer s cur) tot in
  (* set IMU state *)
  let imu_state_i := ImuState_at t_start in
  let imu_state_i :=
    match R_WORLD_IMU with Some q => SetOrientation imu_state_i q | None => imu_state_i end in
  let imu_state_i :=
    match t_WORLD_IMU with Some p => SetPosition imu_state_i p | None => imu_state_i end in
  let imu_state_i :=
    match velocity with Some v => SetVelocity imu_state_i v | None => imu_state_i end in
  let imu_state_i := SetAccelBias (SetGyroBias imu_state_i (bg_ s)) (ba_ s) in
  let s := set_imu_state_i s imu_state_i in
  (* copy start IMU state to initialize kth frame between keyframes *)
  Done (set_imu_state_k s (imu_state_i_ s)).

Definition PredictState (pre_integrator : PreIntegrator) (imu_state_curr : ImuState)
    (t_now : RosTime) : ImuState :=
  let dt := toSec (delta_t (delta pre_integrator)) in
  let q_curr := OrientationMat imu_state_curr in
  (* predict new states *)
  let q_new := mmul q_curr (delta_q (delta pre_integrator)) in
  let v_new :=
    vadd (vadd (VelocityVec imu_state_curr) (vscale GRAVITY_WORLD dt))
         (mvec q_curr (delta_v (delta pre_integrator))) in
  let p_new :=
    vadd (vadd (vadd (PositionVec imu_state_curr) (vscale (VelocityVec imu_state_curr) dt))
               (vscale (vscale (vscale GRAVITY_WORLD (1 # 2)%Q) dt) dt))
         (mvec q_curr (delta_p (delta pre_integrator))) in
  (* set time *)
  let t_new := Stamp imu_state_curr + delta_t (delta pre_integrator) in
  let t_new := if negb (t_now =? 0) then t_now else t_new in
  mkImuState t_new q_new p_new v_new (GyroBiasVec imu_state_curr) (AccelBiasVec imu_state_curr).

(** [while (t_now > buffer.front().t) { moved.emplace_back(buffer.front());
    buffer.pop(); }]: the samples moved, in order, and the remaining queue. *)
Fixpoint drain (t_now : RosTime) (buffer : list IMUData)
  : Outcome (list IMUData * list IMUData) :=
  match buffer with
  | [] => FrontOfEmptyQueue
  | d :: rest =>
      if t_now >? t d
      then '(moved, remaining) <- drain t_now rest ;; Done (d :: moved, remaining)
      else Done ([], buffer)
  end.

(** [beam::QuaternionAndTranslationToTransformMatrix] *)
Definition QuaternionAndTranslationToTransformMatrix (q : Matrix3d) (p : Vector3d) : Matrix4d :=
  mkMatrix4d q p.

(** [GetPose]: [Some T_WORLD_IMU] stands for [true] with the matrix written,
    [None] for [false]. *)
Definition GetPose {impl : PreIntegratorImpl} (s : ImuPreintegration) (t_now : RosTime)
  : Outcome (option Matrix4d * ImuPreintegration) :=
  (* encapsulate IMU measurements between frames *)
  let pre_integrator_interval := PreIntegrator_new in
  (* check requested time *)
  d <- front (current_imu_data_buffer_ s) ;;
  if t_now <? t d then Done (None, s)
  else
    (* Populate integrators *)
    '(moved, remaining) <- drain t_now (current_imu_data_buffer_ s) ;;
    let pre_integrator_interval :=
      set_data pre_integrator_interval (data pre_integrator_interval ++ moved) in
    let s := set_pre_integrator_ij s
               (set_data (pre_integrator_ij s) (data (pre_integrator_ij s) ++ moved)) in
    let s := set_current_buffer s remaining in
    (* integrate between frames *)
    let pre_integrator_interval :=
      Integrate t_now (GyroBiasVec (imu_state_i_ s)) (AccelBiasVec (imu_state_i_ s))
        false false pre_integrator_interval in
    (* predict state at end of window using integrated IMU measurements *)
    let imu_state_k := PredictState pre_integrator_interval (imu_state_k_ s) t_now in
    let s := set_imu_state_k s imu_state_k in
    (* populate transformation matrix *)
    Done (Some (QuaternionAndTranslationToTransformMatrix
                  (OrientationMat (imu_state_k_ s)) (PositionVec (imu_state_k_ s))), s).

(** What [ImuState3DStampedTransaction] collects. *)
Inductive ImuTransactionItem : Type :=
  | PriorImuStateConstraint (state : ImuState) (prior_covariance_diagonal : Q) (source : string)
  | ImuStateVariables (state : ImuState)
  | RelativeImuStateConstraint (state1 state2 : ImuState) (pre_integrator : PreIntegrator).

Record ImuState3DStampedTransaction : Type := mkImuTransaction {
  transaction_stamp : RosTime;
  items : list ImuTransactionItem
}.

Definition add_item (tr : ImuState3DStampedTransaction) (i : ImuTransactionItem)
  : ImuState3DStampedTransaction :=
  mkImuTransaction (transaction_stamp tr) (items tr ++ [i]).

(** [GetTransaction]: null when nothing was added. *)
Definition GetTransaction (tr : ImuState3DStampedTransaction)
  : option ImuState3DStampedTransaction :=
  match items tr with
  | [] => None
  | _ :: _ => Some tr
  end.

(** [while (t_now > buffer.front().t && !buffer.empty())]: [front()] is read
    before [empty()] is tested. *)
Fixpoint populate (t_now : RosTime) (buffer : list IMUData)
  : Outcome (list IMUData * list IMUData) :=
  match buffer with
  | [] => FrontOfEmptyQueue
  | d :: rest =>
      if (t_now >? t d) && negb (match buffer with [] => true | _ => false end)
      then '(moved, remaining) <- populate t_now rest ;; Done (d :: moved, remaining)
      else Done ([], buffer)
  end.

Definition RegisterNewImuPreintegratedFactor {impl : PreIntegratorImpl} (s : ImuPreintegration)
    (t_now : RosTime) (R_WORLD_IMU : option Matrix3d) (t_WORLD_IMU : option Vector3d)
  : Outcome (option ImuState3DStampedTransaction * ImuPreintegration) :=
  let transaction := mkImuTransaction t_now [] in
  (* check requested time *)
  d <- front (current_imu_data_buffer_ s) ;;
  if t_now <? t d then Done (None, s)
  else
    (* generate prior constraint at start *)
    let '(transaction, s) :=
      if first_window_ s
      then
        let transaction :=
          add_item transaction
            (PriorImuStateConstraint (imu_state_i_ s) (cov_prior_noise (params_ s))
               "FIRST_IMU_STATE_PRIOR") in
        let transaction := add_item transaction (ImuStateVariables (imu_state_i_ s)) in
        (transaction, set_first_window s false)
      else (transaction, s) in
    (* populate integrator *)
    '(moved, remaining) <- populate t_now (current_imu_data_buffer_ s) ;;
    let s := set_pre_integrator_ij s
               (set_data (pre_integrator_ij s) (data (pre_integrator_ij s) ++ moved)) in
    let s := set_current_buffer s remaining in
    (* integrate between key frames *)
    let s := set_pre_integrator_ij s
               (Integrate t_now (GyroBiasVec (imu_state_i_ s)) (AccelBiasVec (imu_state_i_ s))
                  true true (pre_integrator_ij s)) in
    (* predict state at end of window using integrated imu measurements *)
    let imu_state_j := PredictState (pre_integrator_ij s) (imu_state_i_ s) t_now in
    (* Add relative constraints and variables between key frames *)
    let transaction :=
      add_item transaction
        (RelativeImuStateConstraint (imu_state_i_ s) imu_state_j (pre_integrator_ij s)) in
    let transaction := add_item transaction (ImuStateVariables imu_state_j) in
    (* update orientation and position of predicted imu state with arguments; the
       quotient is taken in Q: at t_now equal to the stamp of the anchor the code
       divides by 0.0 and stores a velocity that is not a number, which Q does not
       carry, so what is proved of the velocity leaves that input out *)
    let imu_state_j :=
      match R_WORLD_IMU, t_WORLD_IMU with
      | Some R, Some p =>
          let imu_state_j := SetOrientation imu_state_j R in
          let imu_state_j := SetPosition imu_state_j p in
          let new_velocity :=
            vdiv (vsub (PositionVec imu_state_j) (PositionVec (imu_state_i_ s)))
                 (toSec t_now - toSec (Stamp (imu_state_i_ s)))%Q in
          SetVelocity imu_state_j new_velocity
      | _, _ => imu_state_j
      end in
    (* move predicted state to previous state *)
    let s := set_imu_state_i s imu_state_j in
    (* clear total imu data buffer for data before new state i *)
    tot <- pop_before (Stamp (imu_state_i_ s)) (total_imu_data_buffer_ s) ;;
    let s := set_total_buffer s tot in
    (* copy state to kth frame *)
    let s := set_imu_state_k s (imu_state_i_ s) in
    let s := ResetPreintegrator s in
    Done (GetTransaction transaction, s).

(** [back()]: the sample pushed last, if any. *)
Definition newest (buffer : list IMUData) : option IMUData :=
  last (map Some buffer) None.

(** Strictly increasing stamps, front to back. *)
Fixpoint strictly_increasing (buffer : list IMUData) : bool :=
  match buffer with
  | [] => true
  | d :: rest =>
      match rest with
      | [] => true
      | d' :: _ => (t d <? t d') && strictly_increasing rest
      end
  end.

(** The pose of a state, as [GetPose] writes it. *)
Definition pose_of (x : ImuState) : Matrix4d :=
  QuaternionAndTranslationToTransformMatrix (OrientationMat x) (PositionVec x).

(** *** A concrete integrator and a concrete preintegrator, to run the
    operations on examples *)

Definition skew (v : Vector3d) : Matrix3d :=
  mkMatrix3d (mkVector3d 0 (- vz v) (vy v))
             (mkVector3d (vz v) 0 (- vx v))
             (mkVector3d (- vy v) (vx v) 0).

Definition madd (x y : Matrix3d) : Matrix3d :=
  mkMatrix3d (vadd (r0 x) (r0 y)) (vadd (r1 x) (r1 y)) (vadd (r2 x) (r2 y)).

(** One Euler step over [dt] with the sample [d] held constant, under zero
    gravity; the rotation update is the exponential map cut at first order,
    as the rationals have no sine. *)
Definition Increment (dt : RosDuration) (d : IMUData) (bg ba : Vector3d) (x : Delta) : Delta :=
  let h := toSec dt in
  let acc := mvec (delta_q x) (vsub (a d) ba) in
  mkDelta (delta_t x + dt)
          (mmul (delta_q x) (madd Identity3 (skew (vscale (vsub (w d) bg) h))))
          (vadd (delta_v x) (vscale acc h))
          (vadd (vadd (delta_p x) (vscale (delta_v x) h))
                (vscale (vscale (vscale acc (1 # 2)%Q) h) h)).

(** Each sample is held until the next one, the last one until [t_end]. *)
Fixpoint integrate_samples (t_end : RosTime) (bg ba : Vector3d) (samples : list IMUData)
    (x : Delta) : Delta :=
  match samples with
  | [] => x
  | d :: rest =>
      match rest with
      | [] => Increment (t_end - t d) d bg ba x
      | d' :: _ => integrate_samples t_end bg ba rest (Increment (t d' - t d) d bg ba x)
      end
  end.

(** An integrator with no samples leaves the increment as it is. *)
Definition Integrate_euler (t_end : RosTime) (bg ba : Vector3d)
    (compute_jacobian compute_covariance : bool) (p : PreIntegrator) : PreIntegrator :=
  match data p with
  | [] => p
  | _ :: _ =>
      mkPreIntegrator (data p) (integrate_samples t_end bg ba (data p) Delta_rest)
        (cov_w p) (cov_a p) (cov_bg p) (cov_ba p)
  end.

#[export] Instance EulerIntegrator : PreIntegratorImpl := {| Integrate := Integrate_euler |}.

Definition example_params : Params := mkParams 1 1 1 1 1.

Definition example_start : ImuPreintegration :=
  SetPreintegrator
    (mkImuPreintegration example_params Zero3 Zero3 true (ImuState_at 0) (ImuState_at 0)
       PreIntegrator_new [] []).

(** A sample at rest (only gravity is felt) stamped [stamp]. *)
Definition sample_at (stamp : RosTime) : IMUData :=
  mkIMUData stamp Zero3 (mkVector3d 0 0 (981 # 100)%Q).

(** A preintegrator holding the samples stamped [stamps], pushed in that order. *)
Definition with_samples (stamps : list RosTime) : ImuPreintegration :=
  fold_left AddToBuffer (map sample_at stamps) example_start.

End Imu.

(* ------------------------------------------------------------------ *)
(** ** fuse_core::Transaction and the transaction builders of bs_constraints
    (pose_3d_stamped_transaction.cpp, relative_pose_transaction_base.h) *)

Module Fuse.

Import Eigen Ros.

(** [fuse_core::Variable], stamped; its UUID is made of its type and stamp (the device id
    is [NIL] throughout). *)
Inductive StampedVariable : Type :=
  | Position3DStamped (stamp : RosTime) (p : Vector3d)
  | Orientation3DStamped (stamp : RosTime) (q : Matrix3d).

Definition same_uuid (x y : StampedVariable) : bool :=
  match x, y with
  | Position3DStamped s1 _, Position3DStamped s2 _ => s1 =? s2
  | Orientation3DStamped s1 _, Orientation3DStamped s2 _ => s1 =? s2
  | _, _ => false
  end.

Definition Matrix6d : Type := list (list Q).

(** The 6 x 6 identity with [x] written on its diagonal. *)
Definition diagonal6 (x : Q) : Matrix6d :=
  map (fun i => map (fun j => if Nat.eqb i j then x else 0%Q) (seq 0 6)) (seq 0 6).

(** The constraints these sources build, on the poses stamped as given: the
    mean is the 7-vector of translation and orientation. *)
Inductive Constraint : Type :=
  | RelativePose3DStampedConstraint (source : string) (stamp1 stamp2 : RosTime)
      (pose_relative_mean : Matrix4d) (covariance : Matrix6d)
  | AbsolutePose3DStampedConstraint (source : string) (stamp : RosTime)
      (mean : Matrix4d) (covariance : Matrix6d).

(** [fuse_core::Transaction].  Nothing in these sources removes a variable
    or a constraint, so the two removal lists, always empty, are left out. *)
Record Transaction : Type := mkTransaction {
  stamp : RosTime;
  involved_stamps : list RosTime;
  added_constraints : list Constraint;
  added_variables : list StampedVariable
}.

(** [fuse_core::Transaction::make_shared()] *)
Definition Transaction_new : Transaction := mkTransaction 0 [] [] [].

Definition set_stamp (tr : Transaction) (s : RosTime) : Transaction :=
  mkTransaction s (involved_stamps tr) (added_constraints tr) (added_variables tr).

(** [empty()]: nothing added and no stamp involved. *)
Definition empty (tr : Transaction) : bool :=
  match added_variables tr, added_constraints tr, involved_stamps tr with
  | [], [], [] => true
  | _, _, _ => false
  end.

(** [addInvolvedStamp]: insertion in a set. *)
Definition addInvolvedStamp (tr : Transaction) (s : RosTime) : Transaction :=
  mkTransaction (stamp tr)
    (if existsb (Z.eqb s) (involved_stamps tr) then involved_stamps tr
     else involved_stamps tr ++ [s])
    (added_constraints tr) (added_variables tr).

(** [addConstraint]: every constraint is built with a UUID of its own, so it is
    never found among those already added. *)
Definition addConstraint (tr : Transaction) (c : Constraint) (overwrite : bool) : Transaction :=
  mkTransaction (stamp tr) (involved_stamps tr) (added_constraints tr ++ [c])
    (added_variables tr).

(** [addVariable]: with [overwrite], a variable of the same UUID is replaced;
    without, it is kept and the new one dropped. *)
Definition addVariable (tr : Transaction) (v : StampedVariable) (overwrite : bool) : Transaction :=
  let kept :=
    if overwrite then filter (fun x => negb (same_uuid x v)) (added_variables tr)
    else added_variables tr in
  mkTransaction (stamp tr) (involved_stamps tr) (added_constraints tr)
    (if existsb (fun x => same_uuid x v) kept then kept else kept ++ [v]).

(** [merge(other)], without overwriting. *)
Definition merge (tr other : Transaction) : Transaction :=
  let tr := set_stamp tr (Z.max (stamp tr) (stamp other)) in
  let tr := fold_left addInvolvedStamp (involved_stamps other) tr in
  let tr := fold_left (fun x c => addConstraint x c false) (added_constraints other) tr in
  fold_left (fun x v => addVariable x v false) (added_variables other) tr.

(** [bs_common::GetNumberOfConstraints] *)
Definition GetNumberOfConstraints (tr : Transaction) : Z :=
  Z.of_nat (List.length (added_constraints tr)).

(** The members shared by [Pose3DStampedTransaction] and
    [RelativePoseTransactionBase]. *)
Record PoseTransaction : Type := mkPoseTransaction {
  transaction_ : Transaction;
  override_constraints_ : bool;
  override_variables_ : bool
}.

(** The constructor: a fresh transaction carrying the stamp. *)
Definition PoseTransaction_new (transaction_stamp : RosTime)
    (override_constraints override_variables : bool) : PoseTransaction :=
  mkPoseTransaction (set_stamp Transaction_new transaction_stamp)
    override_constraints override_variables.

Definition with_transaction (b : PoseTransaction) (tr : Transaction) : PoseTransaction :=
  mkPoseTransaction tr (override_constraints_ b) (override_variables_ b).

(** [GetTransaction]: null for an empty transaction. *)
Definition GetTransaction (b : PoseTransaction) : option Transaction :=
  if empty (transaction_ b) then None else Some (transaction_ b).

(** [AddConstraint] and [AddPrior] of the base class. *)
Definition AddConstraint (b : PoseTransaction) (c : Constraint) : PoseTransaction :=
  with_transaction b (addConstraint (transaction_ b) c (override_constraints_ b)).

(** [AddPoseConstraint], both overloads: the constraint links the poses
    stamped [stamp1] and [stamp2]. *)
Definition AddPoseConstraint (b : PoseTransaction) (stamp1 stamp2 : RosTime)
    (T_FRAME1_FRAME2 : Matrix4d) (covariance : Matrix6d) (source : string)
  : PoseTransaction :=
  AddConstraint b
    (RelativePose3DStampedConstraint source stamp1 stamp2 T_FRAME1_FRAME2 covariance).

(** [AddPosePrior] with a covariance matrix. *)
Definition AddPosePrior (b : PoseTransaction) (position : Vector3d) (orientation : Matrix3d)
    (stamp : RosTime) (prior_covariance : Matrix6d) (prior_source : string)
  : PoseTransaction :=
  AddConstraint b
    (AbsolutePose3DStampedConstraint prior_source stamp (mkMatrix4d orientation position)
       prior_covariance).

(** [AddPosePrior] with a noise value for the diagonal. *)
Definition AddPosePrior_noise (b : PoseTransaction) (position : Vector3d)
    (orientation : Matrix3d) (stamp : RosTime) (prior_covariance_noise : Q)
    (prior_source : string) : PoseTransaction :=
  AddPosePrior b position orientation stamp (diagonal6 prior_covariance_noise) prior_source.

(** [AddPoseVariables]: the stamp becomes involved, then position and
    orientation are added.  The two variables are taken as stamped with the
    stamp given, as the callers among these sources hand them; the code copies
    the variables it is handed, whose own stamp it does not compare with the
    argument. *)
Definition AddPoseVariables (b : PoseTransaction) (position : Vector3d)
    (orientation : Matrix3d) (stamp : RosTime) : PoseTransaction :=
  let tr := addInvolvedStamp (transaction_ b) stamp in
  let tr := addVariable tr (Position3DStamped stamp position) (override_variables_ b) in
  let tr := addVariable tr (Orientation3DStamped stamp orientation) (override_variables_ b) in
  with_transaction b tr.

(** A call on a builder, to speak of every sequence of calls. *)
Inductive Call : Type :=
  | CallAddConstraint (c : Constraint)
  | CallAddPoseConstraint (stamp1 stamp2 : RosTime) (T_FRAME1_FRAME2 : Matrix4d)
      (covariance : Matrix6d) (source : string)
  | CallAddPosePrior (position : Vector3d) (orientation : Matrix3d) (stamp : RosTime)
      (prior_covariance : Matrix6d) (prior_source : string)
  | CallAddPosePrior_noise (position : Vector3d) (orientation : Matrix3d) (stamp : RosTime)
      (prior_covariance_noise : Q) (prior_source : string)
  | CallAddPoseVariables (position : Vector3d) (orientation : Matrix3d) (stamp : RosTime).

Definition call (b : PoseTransaction) (c : Call) : PoseTransaction :=
  match c with
  | CallAddConstraint k => AddConstraint b k
  | CallAddPoseConstraint s1 s2 T cov src => AddPoseConstraint b s1 s2 T cov src
  | CallAddPosePrior p o s cov src => AddPosePrior b p o s cov src
  | CallAddPosePrior_noise p o s n src => AddPosePrior_noise b p o s n src
  | CallAddPoseVariables p o s => AddPoseVariables b p o s
  end.

(** The builder after the calls [calls], made in that order on a new one. *)
Definition built (transaction_stamp : RosTime) (override_constraints override_variables : bool)
    (calls : list Call) : PoseTransaction :=
  fold_left call calls (PoseTransaction_new transaction_stamp override_constraints
                          override_variables).

End Fuse.

(* ------------------------------------------------------------------ *)
(** ** bs_models::global_mapping::GlobalMap (global_map.cpp) *)

Module GlobalMap.

Import Eigen Ros Fuse.

Record CameraMeasurementMsg : Type := mkCameraMeasurementMsg { landmarks : list Z }.

Record LidarMeasurementMsg : Type := mkLidarMeasurementMsg {
  frame_id : string;
  lidar_points : list Vector3d;
  lidar_edges_strong : list Vector3d;
  lidar_edges_weak : list Vector3d;
  lidar_surfaces_strong : list Vector3d;
  lidar_surfaces_weak : list Vector3d
}.

(** [beam_matching::LoamPointCloud]: strong and weak edges and surfaces. *)
Record LoamPointCloud : Type := mkLoamPointCloud {
  edges_strong : list Vector3d;
  edges_weak : list Vector3d;
  surfaces_strong : list Vector3d;
  surfaces_weak : list Vector3d
}.

(** What a submap was handed, with the baselink pose it came with. *)
Inductive Measurement : Type :=
  | CameraMeasurement (msg : CameraMeasurementMsg) (T_WORLD_BASELINK : Matrix4d)
  | LidarMeasurement (cloud : list Vector3d) (T_WORLD_BASELINK : Matrix4d) (stamp : RosTime)
  | LoamMeasurement (cloud : LoamPointCloud) (T_WORLD_BASELINK : Matrix4d) (stamp : RosTime).

(** [Submap]: the anchor as first set and as last optimized, and what the
    submap holds. *)
Record Submap : Type := mkSubmap {
  Stamp : RosTime;
  T_WORLD_SUBMAP_INIT : Matrix4d;
  T_WORLD_SUBMAP : Matrix4d;
  measurements : list Measurement
}.

(** Modelled from the spec: the constructor [Submap(stamp, T_WORLD_SUBMAP, ...)],
    whose class is not among the sources; the anchor, initial and current, is
    the pose the submap is created at, and the submap starts empty. *)
Definition Submap_new (stamp : RosTime) (T_WORLD_SUBMAP : Matrix4d) : Submap :=
  mkSubmap stamp T_WORLD_SUBMAP T_WORLD_SUBMAP [].

Definition add_measurement (sm : Submap) (m : Measurement) : Submap :=
  mkSubmap (Stamp sm) (T_WORLD_SUBMAP_INIT sm) (T_WORLD_SUBMAP sm) (measurements sm ++ [m]).

(** [Position()] and [Orientation()] of the current anchor. *)
Definition Position (sm : Submap) : Vector3d := translation (T_WORLD_SUBMAP sm).
Definition Orientation (sm : Submap) : Matrix3d := rotation (T_WORLD_SUBMAP sm).

Record Params : Type := mkParams {
  submap_size : Q;
  local_mapper_covariance : Matrix6d;
  reloc_covariance : Matrix6d
}.

Inductive SubmapType : Type := NONE | ONLINE | OFFLINE.

Definition SubmapType_eqb (x y : SubmapType) : bool :=
  match x, y with
  | NONE, NONE | ONLINE, ONLINE | OFFLINE, OFFLINE => true
  | _, _ => false
  end.

(** The members of [GlobalMap] these operations use. *)
Record GlobalMap : Type := mkGlobalMap {
  params_ : Params;
  pose_prior_noise_ : Q;
  online_submaps_ : list Submap;
  offline_submaps_ : list Submap;
  active_submap_id_ : Z;
  active_submap_type_ : SubmapType;
  T_WORLDLM_WORLDOFF_ : Matrix4d;
  T_WORLDLM_WORLDOFF_found_ : bool
}.

Definition set_online_submaps (g : GlobalMap) (v : list Submap) : GlobalMap :=
  mkGlobalMap (params_ g) (pose_prior_noise_ g) v (offline_submaps_ g) (active_submap_id_ g)
    (active_submap_type_ g) (T_WORLDLM_WORLDOFF_ g) (T_WORLDLM_WORLDOFF_found_ g).

Definition set_active_submap_id (g : GlobalMap) (i : Z) : GlobalMap :=
  mkGlobalMap (params_ g) (pose_prior_noise_ g) (online_submaps_ g) (offline_submaps_ g) i
    (active_submap_type_ g) (T_WORLDLM_WORLDOFF_ g) (T_WORLDLM_WORLDOFF_found_ g).

Definition set_active_submap_type (g : GlobalMap) (ty : SubmapType) : GlobalMap :=
  mkGlobalMap (params_ g) (pose_prior_noise_ g) (online_submaps_ g) (offline_submaps_ g)
    (active_submap_id_ g) ty (T_WORLDLM_WORLDOFF_ g) (T_WORLDLM_WORLDOFF_found_ g).

Definition set_T_WORLDLM_WORLDOFF (g : GlobalMap) (T : Matrix4d) : GlobalMap :=
  mkGlobalMap (params_ g) (pose_prior_noise_ g) (online_submaps_ g) (offline_submaps_ g)
    (active_submap_id_ g) (active_submap_type_ g) T true.

(** The candidate search ([RelocCandidateSearchBase]): the candidates, most
    likely first, each a submap index with the estimate of the query pose in
    it; the last argument holds the two trailing arguments when they are
    given. *)
Class RelocCandidateSearch : Type := {
  FindRelocCandidates :
    list Submap -> Matrix4d -> option (Z * bool) -> list (Z * Matrix4d)
}.

(** The refinement ([RelocRefinementBase]): the refined pose of the query in
    the matched submap, or a failure, between two submaps and between a submap
    and the clouds of a request. *)
Class RelocRefinement : Type := {
  RefineSubmaps : Submap -> Submap -> Matrix4d -> option Matrix4d;
  GetRefinedPose : Matrix4d -> Submap -> list Vector3d -> LoamPointCloud -> option Matrix4d
}.

(** Modelled from the spec: [GenerateTransaction] of the refinement, whose
    classes are not among the sources; on success one relative-pose constraint
    between the anchors of the match and of the query, with the reloc
    covariance, and none on failure. *)
Definition GenerateTransaction {refinement : RelocRefinement} (reloc_covariance : Matrix6d)
    (matched_submap query_submap : Submap) (T_MATCH_QUERY_EST : Matrix4d)
  : option Transaction :=
  match RefineSubmaps matched_submap query_submap T_MATCH_QUERY_EST with
  | None => None
  | Some T_MATCH_QUERY_OPT =>
      GetTransaction
        (AddPoseConstraint (PoseTransaction_new (Stamp query_submap) true true)
           (Stamp matched_submap) (Stamp query_submap) T_MATCH_QUERY_OPT reloc_covariance
           "RELOC")
  end.

(** [|v| < submap_size] for the offset between two poses. *)
Definition within (size : Q) (t_WORLD_FRAME t_WORLD_SUBMAP : Vector3d) : bool :=
  norm_lt (vsub t_WORLD_FRAME t_WORLD_SUBMAP) size.

Definition GetSubmapId (g : GlobalMap) (T_WORLD_BASELINK : Matrix4d) : Outcome Z :=
  (* first check if submaps is empty *)
  match online_submaps_ g with
  | [] => Done 0
  | _ :: _ =>
      let t_WORLD_FRAME := translation T_WORLD_BASELINK in
      cur <- at_ (online_submaps_ g) (size (online_submaps_ g) - 1) ;;
      let t_WORLD_SUBMAPCUR := translation (T_WORLD_SUBMAP_INIT cur) in
      (* if only one submap exists, we only check the pose is within this first submap *)
      if size (online_submaps_ g) =? 1
      then
        if within (submap_size (params_ g)) t_WORLD_FRAME t_WORLD_SUBMAPCUR
        then Done 0 else Done 1
      else
        (* otherwise, also check the prev submap and prioritize that one *)
        prev <- at_ (online_submaps_ g) (size (online_submaps_ g) - 2) ;;
        let t_WORLD_SUBMAPPREV := translation (T_WORLD_SUBMAP_INIT prev) in
        if within (submap_size (params_ g)) t_WORLD_FRAME t_WORLD_SUBMAPPREV
        then Done (size (online_submaps_ g) - 2)
        else if within (submap_size (params_ g)) t_WORLD_FRAME t_WORLD_SUBMAPCUR
        then Done (size (online_submaps_ g) - 1)
        else Done (size (online_submaps_ g))
  end.

Definition InitiateNewSubmapPose (g : GlobalMap) : Outcome (option Transaction) :=
  current_submap <- at_ (online_submaps_ g) (size (online_submaps_ g) - 1) ;;
  let new_transaction := PoseTransaction_new (Stamp current_submap) true true in
  let new_transaction :=
    AddPoseVariables new_transaction (Position current_submap) (Orientation current_submap)
      (Stamp current_submap) in
  (* if first submap, add prior then return *)
  if size (online_submaps_ g) =? 1
  then
    Done (GetTransaction
            (AddPosePrior_noise new_transaction (Position current_submap)
               (Orientation current_submap) (Stamp current_submap) (pose_prior_noise_ g)
               "GlobalMap"))
  else
    (* If not first submap add constraint to previous *)
    previous_submap <- at_ (online_submaps_ g) (size (online_submaps_ g) - 2) ;;
    let T_PREVIOUS_CURRENT :=
      Tmul (InvertTransform (T_WORLD_SUBMAP previous_submap)) (T_WORLD_SUBMAP current_submap) in
    Done (GetTransaction
            (AddPoseConstraint new_transaction (Stamp previous_submap) (Stamp current_submap)
               T_PREVIOUS_CURRENT (local_mapper_covariance (params_ g)) "GlobalMap")).

(** The first filter of [RunLoopClosure]: the query and the one before it
    are dropped. *)
Definition matched_indices_filtered (query_index : Z) (matched_indices : list Z) : list Z :=
  filter (fun i => negb ((i =? query_index) || (i =? query_index - 1))) matched_indices.

(** The second loop of [RunLoopClosure] passes over ([continue]) the entries
    next to the query; entry [i] of the filtered indices goes with entry [i]
    of the estimates.  These are the entries the loop body runs on. *)
Definition refined_entries (query_index : Z) (filtered : list Z) (Ts_MATCH_QUERY : list Matrix4d)
  : list (Z * Matrix4d) :=
  filter (fun e => negb ((fst e =? query_index + 1) || (fst e =? query_index - 1)))
         (combine filtered Ts_MATCH_QUERY).

(** The body of that loop, entry after entry. *)
Fixpoint refine_entries {refinement : RelocRefinement} (g : GlobalMap) (query_index : Z)
    (entries : list (Z * Matrix4d)) (transaction : Transaction) : Outcome Transaction :=
  match entries with
  | [] => Done transaction
  | (matched_index, T_MATCH_QUERY) :: more =>
      matched_submap <- at_ (online_submaps_ g) matched_index ;;
      query_submap <- at_ (online_submaps_ g) query_index ;;
      let new_transaction :=
        GenerateTransaction (reloc_covariance (params_ g)) matched_submap query_submap
          T_MATCH_QUERY in
      let transaction :=
        match new_transaction with
        | Some nt => merge transaction nt
        | None => transaction
        end in
      refine_entries g query_index more transaction
  end.

Definition RunLoopClosure {search : RelocCandidateSearch} {refinement : RelocRefinement}
    (g : GlobalMap) (query_index : Z) : Outcome (option Transaction * GlobalMap) :=
  (* if first submap, don't look for relocs *)
  if size (online_submaps_ g) =? 1 then Done (None, g)
  else
    query <- at_ (online_submaps_ g) query_index ;;
    let T_WORLD_QUERY := T_WORLD_SUBMAP query in
    let candidates := FindRelocCandidates (online_submaps_ g) T_WORLD_QUERY None in
    let matched_indices := map fst candidates in
    let Ts_MATCH_QUERY := map snd candidates in
    (* remove candidate if it is equal to the query submap, or one before *)
    let filtered := matched_indices_filtered query_index matched_indices in
    if size filtered =? 0 then Done (None, g)
    else
      transaction <-
        refine_entries g query_index (refined_entries query_index filtered Ts_MATCH_QUERY)
          Transaction_new ;;
      let num_constraints := GetNumberOfConstraints transaction in
      let g := if num_constraints >? 0 then set_active_submap_type g NONE else g in
      Done (Some transaction, g).

(** Where a constraint of a loop-closure transaction comes from: a refined
    match [m] of the query [q], not [q] and not next to it. *)
Definition from_far_match (g : GlobalMap) (q : Z) (c : Constraint) : Prop :=
  exists m sm sq T,
    m <> q /\ m <> q - 1 /\ m <> q + 1 /\
    at_ (online_submaps_ g) m = Done sm /\
    at_ (online_submaps_ g) q = Done sq /\
    c = RelativePose3DStampedConstraint "RELOC" (Stamp sm) (Stamp sq) T
          (reloc_covariance (params_ g)).

Definition TriggerLoopClosure {search : RelocCandidateSearch} {refinement : RelocRefinement} (g : GlobalMap)
  : Outcome (option Transaction * GlobalMap) :=
  if size (online_submaps_ g) <? 2 then Done (None, g)
  else RunLoopClosure g (size (online_submaps_ g) - 1).

(** [online_submaps_.at(submap_id)->Add...Measurement(...)] *)
Definition add_to_submap (g : GlobalMap) (submap_id : Z) (m : Measurement) : Outcome GlobalMap :=
  sm <- at_ (online_submaps_ g) submap_id ;;
  Done (set_online_submaps g
          (firstn (Z.to_nat submap_id) (online_submaps_ g) ++ [add_measurement sm m]
             ++ skipn (S (Z.to_nat submap_id)) (online_submaps_ g))).

(** [AddMeasurement], first part: a new submap when the id is the number of
    submaps.  The messages queued for publishing are left out. *)
Definition open_submap {search : RelocCandidateSearch} {refinement : RelocRefinement} (g : GlobalMap)
    (submap_id : Z) (T_WORLD_BASELINK : Matrix4d) (stamp : RosTime)
  : Outcome (option Transaction * GlobalMap) :=
  if submap_id =? size (online_submaps_ g)
  then
    let new_submap := Submap_new stamp T_WORLD_BASELINK in
    let g := set_online_submaps g (online_submaps_ g ++ [new_submap]) in
    new_transaction <- InitiateNewSubmapPose g ;;
    '(reloc_transaction, g) <- RunLoopClosure g (size (online_submaps_ g) - 2) ;;
    match reloc_transaction, new_transaction with
    | None, _ => Done (new_transaction, g)
    | Some rt, Some nt => Done (Some (merge nt rt), g)
    | Some _, None => NullDereference
    end
  else Done (None, g).

(** [AddMeasurement], second part: the measurements go to the submap of the
    id.  The trajectory measurement is read and dropped. *)
Definition store_measurements (g : GlobalMap) (submap_id : Z)
    (cam_measurement : CameraMeasurementMsg) (lid_measurement : LidarMeasurementMsg)
    (T_WORLD_BASELINK : Matrix4d) (stamp : RosTime) : Outcome GlobalMap :=
  (* add camera measurement if not empty *)
  g <- (match landmarks cam_measurement with
        | [] => Done g
        | _ :: _ => add_to_submap g submap_id (CameraMeasurement cam_measurement T_WORLD_BASELINK)
        end) ;;
  (* add lidar measurement if not empty *)
  g <- (match lidar_points lid_measurement with
        | [] => Done g
        | _ :: _ =>
            add_to_submap g submap_id
              (LidarMeasurement (lidar_points lid_measurement) T_WORLD_BASELINK stamp)
        end) ;;
  if size (lidar_edges_strong lid_measurement) + size (lidar_edges_strong lid_measurement)
     + size (lidar_surfaces_strong lid_measurement) + size (lidar_surfaces_weak lid_measurement)
     >? 0
  then
    add_to_submap g submap_id
      (LoamMeasurement
         (mkLoamPointCloud (lidar_edges_strong lid_measurement) (lidar_edges_weak lid_measurement)
            (lidar_surfaces_strong lid_measurement) (lidar_surfaces_weak lid_measurement))
         T_WORLD_BASELINK stamp)
  else Done g.

Definition AddMeasurement {search : RelocCandidateSearch} {refinement : RelocRefinement} (g : GlobalMap)
    (cam_measurement : CameraMeasurementMsg) (lid_measurement : LidarMeasurementMsg)
    (T_WORLD_BASELINK : Matrix4d) (stamp : RosTime)
  : Outcome (option Transaction * GlobalMap) :=
  submap_id <- GetSubmapId g T_WORLD_BASELINK ;;
  (* if id is equal to submap size then we need to create a new submap *)
  '(new_transaction, g) <- open_submap g submap_id T_WORLD_BASELINK stamp ;;
  g <- store_measurements g submap_id cam_measurement lid_measurement T_WORLD_BASELINK stamp ;;
  Done (new_transaction, g).

(** [bs_common::RelocRequestMsg]: the pose of the query in the local mapper's
    world frame and the lidar measurement. *)
Record RelocRequestMsg : Type := mkRelocRequestMsg {
  T_WORLD_BASELINK : Matrix4d;
  lidar_measurement : LidarMeasurementMsg
}.

(** What [FillSubmapMsg] is given: the submap the clouds are read from, whether
    they are read with the current anchor ([true]) or the initial one, and the
    transform sent along. *)
Record SubmapMsg : Type := mkSubmapMsg {
  msg_submap : Submap;
  msg_use_current_anchor : bool;
  msg_T_WORLDLM_WORLDOFF : Matrix4d
}.

(** How a pass over the candidates ends: the function returns, or the loop
    runs out and the function goes on. *)
Inductive LoopEnd : Type :=
  | Returned (submap_msg : option SubmapMsg) (g : GlobalMap)
  | RanOut.

(** The loop of [ProcessRelocRequest] over the offline candidates, for the
    lists of at most 65535 candidates that its [uint16_t] counter can walk to
    the end. *)
Fixpoint search_offline {refinement : RelocRefinement} (g : GlobalMap) (T_WORLDLM_QUERY : Matrix4d)
    (lidar_cloud_in_query_frame : list Vector3d) (loam_cloud_in_query_frame : LoamPointCloud)
    (candidates : list (Z * Matrix4d)) : Outcome LoopEnd :=
  match candidates with
  | [] => Done RanOut
  | (submap_index, T_SUBMAP_QUERY_initial) :: more =>
      if (active_submap_id_ g =? submap_index)
         && SubmapType_eqb (active_submap_type_ g) OFFLINE
      then Done (Returned None g)
      else
        submap <- at_ (offline_submaps_ g) submap_index ;;
        match GetRefinedPose T_SUBMAP_QUERY_initial submap lidar_cloud_in_query_frame
                loam_cloud_in_query_frame with
        | Some T_SUBMAP_QUERY_refined =>
            let g :=
              if negb (T_WORLDLM_WORLDOFF_found_ g)
              then
                set_T_WORLDLM_WORLDOFF g
                  (Tmul (Tmul T_WORLDLM_QUERY (InvertTransform T_SUBMAP_QUERY_refined))
                        (InvertTransform (T_WORLD_SUBMAP submap)))
              else g in
            let submap_msg := mkSubmapMsg submap false (T_WORLDLM_WORLDOFF_ g) in
            (* set current submap *)
            let g := set_active_submap_id g submap_index in
            let g := set_active_submap_type g OFFLINE in
            Done (Returned (Some submap_msg) g)
        | None => search_offline g T_WORLDLM_QUERY lidar_cloud_in_query_frame
                    loam_cloud_in_query_frame more
        end
  end.

(** The loop of [ProcessRelocRequest] over the online candidates, for the
    lists of at most 65535 candidates that its [uint16_t] counter can walk to
    the end. *)
Fixpoint search_online {refinement : RelocRefinement} (g : GlobalMap)
    (lidar_cloud_in_query_frame : list Vector3d) (loam_cloud_in_query_frame : LoamPointCloud)
    (candidates : list (Z * Matrix4d)) : Outcome LoopEnd :=
  match candidates with
  | [] => Done RanOut
  | (submap_index, T_SUBMAP_QUERY_initial) :: more =>
      if (active_submap_id_ g =? submap_index)
         && SubmapType_eqb (active_submap_type_ g) ONLINE
      then Done (Returned None g)
      else
        submap <- at_ (online_submaps_ g) submap_index ;;
        match GetRefinedPose T_SUBMAP_QUERY_initial submap lidar_cloud_in_query_frame
                loam_cloud_in_query_frame with
        | Some T_SUBMAP_QUERY_refined =>
            let submap_msg := mkSubmapMsg submap true Identity4 in
            (* set current submap *)
            let g := set_active_submap_id g submap_index in
            let g := set_active_submap_type g OFFLINE in
            Done (Returned (Some submap_msg) g)
        | None => search_online g lidar_cloud_in_query_frame loam_cloud_in_query_frame more
        end
  end.

(** [ProcessRelocRequest]: [Some submap_msg] stands for [true] with the
    message filled, [None] for [false]. *)
Definition ProcessRelocRequest {search : RelocCandidateSearch} {refinement : RelocRefinement} (g : GlobalMap)
    (reloc_request_msg : RelocRequestMsg) : Outcome (option SubmapMsg * GlobalMap) :=
  let T_WORLDLM_QUERY := T_WORLD_BASELINK reloc_request_msg in
  let lidar_cloud_in_query_frame := lidar_points (lidar_measurement reloc_request_msg) in
  let loam_cloud_in_query_frame :=
    mkLoamPointCloud (lidar_edges_strong (lidar_measurement reloc_request_msg))
      (lidar_edges_weak (lidar_measurement reloc_request_msg))
      (lidar_surfaces_strong (lidar_measurement reloc_request_msg))
      (lidar_surfaces_weak (lidar_measurement reloc_request_msg)) in
  (* first, search through offline maps *)
  offline_end <-
    (match offline_submaps_ g with
     | [] => Done RanOut
     | _ :: _ =>
         let T_WORLDOFF_QUERY :=
           Tmul (InvertTransform (T_WORLDLM_WORLDOFF_ g)) T_WORLDLM_QUERY in
         search_offline g T_WORLDLM_QUERY lidar_cloud_in_query_frame loam_cloud_in_query_frame
           (FindRelocCandidates (offline_submaps_ g) T_WORLDOFF_QUERY None)
     end) ;;
  match offline_end with
  | Returned submap_msg g => Done (submap_msg, g)
  | RanOut =>
      (* next, search through online maps *)
      online_end <-
        (match online_submaps_ g with
         | [] => Done RanOut
         | _ :: _ =>
             search_online g lidar_cloud_in_query_frame loam_cloud_in_query_frame
               (FindRelocCandidates (online_submaps_ g) T_WORLDLM_QUERY (Some (2, true)))
         end) ;;
      match online_end with
      | Returned submap_msg g => Done (submap_msg, g)
      | RanOut => Done (None, g)   (* if we get to here, we were not successful *)
      end
  end.

(** *** Concrete collaborators and maps, to run the operations on examples *)

(** A candidate search that answers the same list whatever the query. *)
Definition search_answering (candidates : list (Z * Matrix4d)) : RelocCandidateSearch :=
  {| FindRelocCandidates := fun _ _ _ => candidates |}.

(** A refinement that accepts every estimate as it is. *)
Definition accepting_refinement : RelocRefinement :=
  {| RefineSubmaps := fun _ _ T => Some T;
     GetRefinedPose := fun T _ _ _ => Some T |}.

Definition example_params : Params :=
  mkParams 10 (diagonal6 (1 # 1000)) (diagonal6 (1 # 100000)).

(** A pose without rotation at [(x, y, z)]. *)
Definition pose_at (x y z : Q) : Matrix4d := mkMatrix4d Identity3 (mkVector3d x y z).

(** A map with the given online submaps, no offline submap and no active
    submap. *)
Definition map_of (online : list Submap) : GlobalMap :=
  mkGlobalMap example_params (1 # 1000000000) online [] 0 NONE Identity4 false.

(** Submaps created at times 0, 1, 2, ... along the x axis, [spacing] apart. *)
Definition submaps_along_x (n : nat) (spacing : Q) : list Submap :=
  map (fun k => Submap_new (Z.of_nat k) (pose_at (inject_Z (Z.of_nat k) * spacing) 0 0))
      (seq 0 n).

Definition empty_lidar : LidarMeasurementMsg := mkLidarMeasurementMsg EmptyString [] [] [] [] [].

Definition request_at (x y z : Q) : RelocRequestMsg :=
  mkRelocRequestMsg (pose_at x y z) empty_lidar.

End GlobalMap.

(* ------------------------------------------------------------------ *)
(** ** beam_models::camera_to_camera::VisualInertialOdom
    (visual_inertial_odom.cpp): the keyframe policy *)

Module Vio.

Import Ros.

Record Vector2d : Type := mkVector2d { u : Q; v : Q }.

(** A [double] that may be NaN: [None] is NaN. *)
Definition double : Type := option Q.

(** [x > y] on doubles: false when [x] is NaN. *)
Definition double_gt (x : double) (y : Q) : bool :=
  match x with
  | Some q => negb (Qle_bool q y)
  | None => false
  end.

(** The feature tracker ([beam_cv::Tracker]) and [beam::distance] live in
    libbeam.  [Get stamp id] is the pixel of a landmark in an image, [None]
    when the tracker throws [std::out_of_range]; [distance] is the distance
    between two pixels. *)
Class Tracker : Type := {
  Get : RosTime -> Z -> option Vector2d;
  distance : Vector2d -> Vector2d -> Q
}.

(** The camera parameters the policy reads; their header is not among the
    sources, the counts are taken as [int], signed. *)
Record CameraParams : Type := mkCameraParams {
  keyframe_min_time_in_seconds : Q;
  keyframe_parallax : Q;
  keyframe_tracks_drop : Z;
  window_size : Z
}.

(** The members of [VisualInertialOdom] the policy reads; [added_since_kf_]
    is a [uint32_t]. *)
Record VisualInertialOdom : Type := mkVisualInertialOdom {
  camera_params_ : CameraParams;
  cur_kf_time_ : RosTime;
  added_since_kf_ : Z
}.

(** An [int] compared with a [size_t] is converted to [size_t], 64 bits wide;
    compared with a [uint32_t], to [unsigned int], 32 bits wide. *)
Definition to_size_t (x : Z) : Z := x mod 18446744073709551616.

Definition to_uint32 (x : Z) : Z := x mod 4294967296.

(** The body of the loop of [ComputeAvgParallax] on one landmark: a landmark
    the tracker does not hold at both times is passed over. *)
Definition add_parallax {tracker : Tracker} (t1 t2 : RosTime) (acc : Q * Z) (id : Z) : Q * Z :=
  match Get t1 id with
  | None => acc
  | Some p1 =>
      match Get t2 id with
      | None => acc
      | Some p2 => ((fst acc + distance p1 p2)%Q, snd acc + 1)
      end
  end.

(** [total_parallax / (double)num_matches]: 0 / 0 is NaN. *)
Definition ComputeAvgParallax {tracker : Tracker} (t1 t2 : RosTime) (t2_landmarks : list Z) : double :=
  let '(total_parallax, num_matches) := fold_left (add_parallax t1 t2) t2_landmarks (0%Q, 0) in
  if num_matches =? 0 then None else Some (total_parallax / inject_Z num_matches)%Q.

Definition IsKeyframe {tracker : Tracker} (s : VisualInertialOdom) (img_time : RosTime)
    (triangulated_ids untriangulated_ids : list Z) : bool :=
  if Qle_bool (keyframe_min_time_in_seconds (camera_params_ s))
              (toSec (img_time - cur_kf_time_ s))
  then
    let all_ids := triangulated_ids ++ untriangulated_ids in
    let avg_parallax := ComputeAvgParallax (cur_kf_time_ s) img_time all_ids in
    if double_gt avg_parallax (keyframe_parallax (camera_params_ s))
       || (size triangulated_ids <? to_size_t (keyframe_tracks_drop (camera_params_ s)))
    then true
    else if added_since_kf_ s =? to_uint32 (window_size (camera_params_ s) - 1)
    then true
    else false
  else false.

(** *** The mean parallax as the specification words it *)

(** The pairs of pixels of the landmarks seen at both times. *)
Fixpoint correspondences {tracker : Tracker} (t1 t2 : RosTime) (ids : list Z)
  : list (Vector2d * Vector2d) :=
  match ids with
  | [] => []
  | id :: rest =>
      match Get t1 id, Get t2 id with
      | Some p1, Some p2 => (p1, p2) :: correspondences t1 t2 rest
      | _, _ => correspondences t1 t2 rest
      end
  end.

Definition sum (xs : list Q) : Q := fold_right Qplus 0%Q xs.

(** The mean distance between corresponding pixels; there is none without a
    correspondence. *)
Definition mean_parallax {tracker : Tracker} (t1 t2 : RosTime) (ids : list Z) : option Q :=
  match correspondences t1 t2 ids with
  | [] => None
  | pairs =>
      Some (sum (map (fun p => distance (fst p) (snd p)) pairs)
            / inject_Z (Z.of_nat (List.length pairs)))%Q
  end.

(** The landmark ids of a list as a set, each id once; the union of two
    sets of ids. *)
Definition ids_of (ids : list Z) : list Z := nodup Z.eq_dec ids.

Definition union (ids1 ids2 : list Z) : list Z := ids_of (ids1 ++ ids2).

(** What the specification asks of a keyframe: the mean is over the union of
    the two sets of ids, the count is the number of triangulated ids, and the
    comparisons are those of the integers. *)
Definition keyframe_wanted {tracker : Tracker} (s : VisualInertialOdom) (img_time : RosTime)
    (triangulated_ids untriangulated_ids : list Z) : Prop :=
  (keyframe_min_time_in_seconds (camera_params_ s) <= toSec (img_time - cur_kf_time_ s))%Q /\
  ((exists mean,
      mean_parallax (cur_kf_time_ s) img_time (union triangulated_ids untriangulated_ids)
        = Some mean /\
      (keyframe_parallax (camera_params_ s) < mean)%Q) \/
   size (ids_of triangulated_ids) < keyframe_tracks_drop (camera_params_ s) \/
   added_since_kf_ s = window_size (camera_params_ s) - 1).

(** *** A concrete tracker, to run the policy on examples *)

(** Pixels on one image row, where the distance between two pixels is the
    difference of their columns. *)
Definition row_distance (p1 p2 : Vector2d) : Q :=
  if Qle_bool (u p2) (u p1) then (u p1 - u p2)%Q else (u p2 - u p1)%Q.

(** A tracker that holds every landmark with a positive id in every image; at
    time 0 all are in column 0, and later landmark 1 is in column 10 and the
    others have not moved. *)
Definition tracker_on_row : Tracker :=
  {| Get := fun stamp id =>
              if id <=? 0 then None
              else if (stamp =? 0) || negb (id =? 1) then Some (mkVector2d 0 0)
              else Some (mkVector2d 10 0);
     distance := row_distance |}.

(** The odometry right after a keyframe at time 0. *)
Definition after_keyframe (camera_params : CameraParams) : VisualInertialOdom :=
  mkVisualInertialOdom camera_params 0 0.

End Vio.

(* ------------------------------------------------------------------ *)
(** ** bs_models::ImuPreintegration, continued: [UpdateGraph] and sequences
    of requests *)

Module ImuSession.

Import Eigen Ros Imu.

(** [fuse_core::Graph] as [UpdateGraph] reads it: the value of the variable of
    each type at a stamp (the UUID is made of type and stamp); [None] where
    [getVariable] throws [std::out_of_range]. *)
Record Graph : Type := mkGraph {
  position : RosTime -> option Vector3d;
  orientation : RosTime -> option Matrix3d;
  velocity : RosTime -> option Vector3d;
  gyrobias : RosTime -> option Vector3d;
  accelbias : RosTime -> option Vector3d
}.

(** [UpdateGraph]: the members are written one after the other inside the
    [try] block; the first variable the graph does not hold ends the block,
    and the [catch] does nothing. *)
Definition UpdateGraph (s : ImuPreintegration) (graph_msg : Graph) : ImuPreintegration :=
  (* get timestamp for state i *)
  let stamp_i := Stamp (imu_state_i_ s) in
  match position graph_msg stamp_i with
  | None => s
  | Some p =>
      let s := set_imu_state_i s (SetPosition (imu_state_i_ s) p) in
      match orientation graph_msg stamp_i with
      | None => s
      | Some q =>
          let s := set_imu_state_i s (SetOrientation (imu_state_i_ s) q) in
          match velocity graph_msg stamp_i with
          | None => s
          | Some vel =>
              let s := set_imu_state_i s (SetVelocity (imu_state_i_ s) vel) in
              match gyrobias graph_msg stamp_i with
              | None => s
              | Some bg =>
                  let s := set_imu_state_i s (SetGyroBias (imu_state_i_ s) bg) in
                  match accelbias graph_msg stamp_i with
                  | None => s
                  | Some ba =>
                      let s := set_imu_state_i s (SetAccelBias (imu_state_i_ s) ba) in
                      (* reset current data buffer to be the total buffer starting at state i *)
                      let s := set_current_buffer s (total_imu_data_buffer_ s) in
                      (* copy state i to kth frame *)
                      set_imu_state_k s (imu_state_i_ s)
                  end
              end
          end
      end
  end.

(** The graph holds all five variables of the stamp. *)
Definition holds_state (graph_msg : Graph) (stamp : RosTime) : bool :=
  match position graph_msg stamp, orientation graph_msg stamp, velocity graph_msg stamp,
        gyrobias graph_msg stamp, accelbias graph_msg stamp with
  | Some _, Some _, Some _, Some _, Some _ => true
  | _, _, _, _, _ => false
  end.

(** Two increments one after the other, as one increment. *)
Definition compose (d1 d2 : Delta) : Delta :=
  mkDelta (delta_t d1 + delta_t d2)
          (mmul (delta_q d1) (delta_q d2))
          (vadd (delta_v d1) (mvec (delta_q d1) (delta_v d2)))
          (vadd (vadd (delta_p d1) (vscale (delta_v d1) (toSec (delta_t d2))))
                (mvec (delta_q d1) (delta_p d2))).

Definition with_delta (p : PreIntegrator) (d : Delta) : PreIntegrator :=
  mkPreIntegrator (data p) d (cov_w p) (cov_a p) (cov_bg p) (cov_ba p).

(** Equality of the values of two states. *)
Definition state_eq (x y : ImuState) : Prop :=
  meq (OrientationMat x) (OrientationMat y) /\
  veq (PositionVec x) (PositionVec y) /\
  veq (VelocityVec x) (VelocityVec y) /\
  GyroBiasVec x = GyroBiasVec y /\
  AccelBiasVec x = AccelBiasVec y.

(** A request made to a preintegrator, to speak of every sequence of
    requests. *)
Inductive Request : Type :=
  | ReqClearBuffer
  | ReqAddToBuffer (imu_data : IMUData)
  | ReqSetStart (t_start : RosTime) (R_WORLD_IMU : option Matrix3d)
      (t_WORLD_IMU velocity : option Vector3d)
  | ReqGetPose (t_now : RosTime)
  | ReqRegister (t_now : RosTime) (R_WORLD_IMU : option Matrix3d)
      (t_WORLD_IMU : option Vector3d)
  | ReqUpdateGraph (graph_msg : Graph).

(** One request: the transaction it returns, if any, and the preintegrator
    after it. *)
Definition serve {impl : PreIntegratorImpl} (s : ImuPreintegration) (r : Request)
  : Outcome (option ImuState3DStampedTransaction * ImuPreintegration) :=
  match r with
  | ReqClearBuffer => Done (None, ClearBuffer s)
  | ReqAddToBuffer d => Done (None, AddToBuffer s d)
  | ReqSetStart t_start R p vel => s' <- SetStart s t_start R p vel ;; Done (None, s')
  | ReqGetPose t_now => '(_, s') <- GetPose s t_now ;; Done (None, s')
  | ReqRegister t_now R p => RegisterNewImuPreintegratedFactor s t_now R p
  | ReqUpdateGraph g => Done (None, UpdateGraph s g)
  end.

(** The requests in order: the transactions returned, in order, and the
    preintegrator at the end. *)
Fixpoint run {impl : PreIntegratorImpl} (s : ImuPreintegration) (requests : list Request)
  : Outcome (list ImuState3DStampedTransaction * ImuPreintegration) :=
  match requests with
  | [] => Done ([], s)
  | r :: more =>
      '(tr, s1) <- serve s r ;;
      '(trs, s2) <- run s1 more ;;
      Done (match tr with Some x => x :: trs | None => trs end, s2)
  end.

Definition is_prior (i : ImuTransactionItem) : bool :=
  match i with
  | PriorImuStateConstraint _ _ _ => true
  | _ => false
  end.

(** The prior constraints among the items of some transactions. *)
Definition priors (trs : list ImuState3DStampedTransaction) : list ImuTransactionItem :=
  filter is_prior (flat_map items trs).

End ImuSession.

(* ------------------------------------------------------------------ *)
(** ** The transaction builders, continued: what the calls leave in the
    transaction *)

Module FuseBuilt.

Import Eigen Ros Fuse.

(** The constraint a call hands to [addConstraint], if it hands one. *)
Definition constraints_of (c : Call) : list Constraint :=
  match c with
  | CallAddConstraint k => [k]
  | CallAddPoseConstraint s1 s2 T cov src =>
      [RelativePose3DStampedConstraint src s1 s2 T cov]
  | CallAddPosePrior p o s cov src =>
      [AbsolutePose3DStampedConstraint src s (mkMatrix4d o p) cov]
  | CallAddPosePrior_noise p o s n src =>
      [AbsolutePose3DStampedConstraint src s (mkMatrix4d o p) (diagonal6 n)]
  | CallAddPoseVariables _ _ _ => []
  end.

(** The stamp a call hands to [addInvolvedStamp], if it hands one. *)
Definition stamps_of (c : Call) : list RosTime :=
  match c with
  | CallAddPoseVariables _ _ s => [s]
  | _ => []
  end.

End FuseBuilt.

(* ------------------------------------------------------------------ *)
(** ** The global map, continued: what its operations leave behind *)

Module GlobalMapSession.

Import Eigen Ros Fuse GlobalMap.

(** The measurements a message makes [AddMeasurement] hand to the submap, in
    the order they are handed: the camera measurement when it has landmarks,
    the lidar cloud when it has points, the LOAM cloud when the count the
    code adds up is positive. *)
Definition handed (cam_measurement : CameraMeasurementMsg)
    (lid_measurement : LidarMeasurementMsg) (T_WORLD_BASELINK : Matrix4d) (stamp : RosTime)
  : list Measurement :=
  (match landmarks cam_measurement with
   | [] => []
   | _ :: _ => [CameraMeasurement cam_measurement T_WORLD_BASELINK]
   end)
  ++ (match lidar_points lid_measurement with
      | [] => []
      | _ :: _ => [LidarMeasurement (lidar_points lid_measurement) T_WORLD_BASELINK stamp]
      end)
  ++ (match lidar_edges_strong lid_measurement, lidar_surfaces_strong lid_measurement,
            lidar_surfaces_weak lid_measurement with
      | [], [], [] => []
      | _, _, _ =>
          [LoamMeasurement
             (mkLoamPointCloud (lidar_edges_strong lid_measurement)
                (lidar_edges_weak lid_measurement)
                (lidar_surfaces_strong lid_measurement)
                (lidar_surfaces_weak lid_measurement))
             T_WORLD_BASELINK stamp]
      end).

(** A submap with more measurements, nothing else changed. *)
Definition with_measurements (sm : Submap) (more : list Measurement) : Submap :=
  mkSubmap (Stamp sm) (T_WORLD_SUBMAP_INIT sm) (T_WORLD_SUBMAP sm) (measurements sm ++ more).

(** The table with entry [n] replaced. *)
Definition replace_at {A : Type} (l : list A) (n : nat) (x : A) : list A :=
  firstn n l ++ [x] ++ skipn (S n) l.

(** The table [AddMeasurement] stores in: with a new submap at the pose when
    the id is the number of submaps. *)
Definition table_for (g : GlobalMap) (submap_id : Z) (T_WORLD_BASELINK : Matrix4d)
    (stamp : RosTime) : list Submap :=
  if submap_id =? size (online_submaps_ g)
  then online_submaps_ g ++ [Submap_new stamp T_WORLD_BASELINK]
  else online_submaps_ g.

(** A candidate search whose candidates are submaps of the table it was
    given. *)
Definition answers_in_table (search : RelocCandidateSearch) : Prop :=
  forall (submaps : list Submap) (T : Matrix4d) (o : option (Z * bool)),
    Forall (fun c => 0 <= fst c < size submaps) (FindRelocCandidates submaps T o).

(** A search that proposes every submap of the table, with the query pose
    as estimate. *)
Definition search_every_submap : RelocCandidateSearch :=
  {| FindRelocCandidates :=
       fun submaps T _ => map (fun k => (Z.of_nat k, T)) (seq 0 (List.length submaps)) |}.

(** A rigid transform: its rotation block is orthogonal. *)
Definition rigid (T : Matrix4d) : Prop :=
  meq (mmul (rotation T) (transpose (rotation T))) Identity3.

(** The calls that change a global map, to speak of every sequence of them. *)
Inductive Request : Type :=
  | ReqAddMeasurement (cam_measurement : CameraMeasurementMsg)
      (lid_measurement : LidarMeasurementMsg) (T_WORLD_BASELINK : Matrix4d) (stamp : RosTime)
  | ReqTriggerLoopClosure
  | ReqProcessRelocRequest (reloc_request_msg : RelocRequestMsg).

Definition serve {search : RelocCandidateSearch} {refinement : RelocRefinement}
    (g : GlobalMap) (r : Request) : Outcome GlobalMap :=
  match r with
  | ReqAddMeasurement cam lid T stamp =>
      ' (_, g) <- AddMeasurement g cam lid T stamp ;; Done g
  | ReqTriggerLoopClosure =>
      ' (_, g) <- TriggerLoopClosure g ;; Done g
  | ReqProcessRelocRequest msg =>
      ' (_, g) <- ProcessRelocRequest g msg ;; Done g
  end.

Fixpoint run {search : RelocCandidateSearch} {refinement : RelocRefinement}
    (g : GlobalMap) (requests : list Request) : Outcome GlobalMap :=
  match requests with
  | [] => Done g
  | r :: more => g <- serve g r ;; run g more
  end.

End GlobalMapSession.

(* ------------------------------------------------------------------ *)
(** ** The global map: updating the submap poses *)

Module GlobalMapUpdate.

Import Eigen Ros GlobalMap GlobalMapSession.

(** [i++] on a [uint16_t]. *)
Definition uint16_succ (i : Z) : Z := (i + 1) mod 65536.

(** The loop of [UpdateSubmapPoses], [for (uint16_t i = 0; i <
    online_submaps_.size(); i++)], from the counter [i] on.  [UpdatePose] is
    what [Submap::UpdatePose(graph_msg)], which is not among the sources, does
    to a submap for the graph of the call.  The loop is run for at most
    [fuel] tests of its condition; [None] says they did not suffice. *)
Fixpoint update_from (UpdatePose : Submap -> Submap) (fuel : nat) (submaps : list Submap)
    (i : Z) : option (Outcome (list Submap)) :=
  match fuel with
  | O => None
  | S fuel =>
      if i <? size submaps
      then
        match at_ submaps i with
        | Done sm =>
            update_from UpdatePose fuel (replace_at submaps (Z.to_nat i) (UpdatePose sm))
              (uint16_succ i)
        | FrontOfEmptyQueue => Some FrontOfEmptyQueue
        | OutOfRange => Some OutOfRange
        | NullDereference => Some NullDereference
        end
      else Some (Done submaps)
  end.

(** The members [UpdateSubmapPoses] writes; the global map stored for
    publishing ([AddRosGlobalMap]) is left out. *)
Record Updates : Type := mkUpdates {
  online_submaps_ : list Submap;
  last_update_time_ : RosTime;
  global_map_updates_ : Z
}.

Definition UpdateSubmapPoses (UpdatePose : Submap -> Submap) (fuel : nat) (s : Updates)
    (update_time : RosTime) : option (Outcome Updates) :=
  match update_from UpdatePose fuel (online_submaps_ s) 0 with
  | None => None
  | Some (Done submaps) => Some (Done (mkUpdates submaps update_time (global_map_updates_ s + 1)))
  | Some FrontOfEmptyQueue => Some FrontOfEmptyQueue
  | Some OutOfRange => Some OutOfRange
  | Some NullDereference => Some NullDereference
  end.

End GlobalMapUpdate.

(* ------------------------------------------------------------------ *)
(** ** The global map: the maps stored for publishing *)

Module RosMaps.

Import Eigen Ros.

Inductive RosMapType : Type :=
  | LIDARSUBMAP | VISUALSUBMAP | LIDARGLOBALMAP | VISUALGLOBALMAP | LIDARNEW.

(** [sensor_msgs::PointCloud2] as [beam::PCLToROS] fills it: the points, the
    stamp, the frame and the sequence number. *)
Record PointCloud2 : Type := mkPointCloud2 {
  points : list Vector3d;
  cloud_stamp : RosTime;
  cloud_frame_id : string;
  seq : Z
}.

Definition RosMap : Type := (RosMapType * PointCloud2)%type.

(** The members of [GlobalMap] behind [GetRosMaps].  [max_num_new_scans_] is
    the bound as the comparison with [size()] reads it, an unsigned value. *)
Record Stored : Type := mkStored {
  ros_new_scans_ : list RosMap;
  ros_submaps_ : list RosMap;
  ros_global_lidar_map_ : option RosMap;
  ros_global_keypoints_map_ : option RosMap;
  store_new_scans_ : bool;
  new_scans_counter_ : Z;
  max_num_new_scans_ : N
}.

(** [pcl::transformPointCloud] *)
Definition transformPointCloud (cloud : list Vector3d) (T : Matrix4d) : list Vector3d :=
  map (fun p => vadd (mvec (rotation T) p) (translation T)) cloud.

(** [while (q.size() > max) q.pop()] *)
Fixpoint pop_above (max : N) (q : list RosMap) : list RosMap :=
  match q with
  | [] => []
  | _ :: rest => if (max <? N.of_nat (List.length q))%N then pop_above max rest else q
  end.

(** [AddNewRosScan]; [T_BASELINK_LIDAR] is what the extrinsics answer, [None]
    when [GetT_BASELINK_LIDAR] fails, and [world_frame_id] their world
    frame. *)
Definition AddNewRosScan (T_BASELINK_LIDAR : option Matrix4d) (world_frame_id : string)
    (s : Stored) (cloud : list Vector3d) (T_WORLD_BASELINK : Matrix4d) (stamp : RosTime)
  : Stored :=
  match T_BASELINK_LIDAR with
  | None =>
      mkStored (ros_new_scans_ s) (ros_submaps_ s) (ros_global_lidar_map_ s)
        (ros_global_keypoints_map_ s) false (new_scans_counter_ s) (max_num_new_scans_ s)
  | Some T_BASELINK_LIDAR =>
      let T_WORLD_LIDAR := Tmul T_WORLD_BASELINK T_BASELINK_LIDAR in
      let cloud_in_world_frame := transformPointCloud cloud T_WORLD_LIDAR in
      let pointcloud2_msg :=
        mkPointCloud2 cloud_in_world_frame stamp world_frame_id (new_scans_counter_ s) in
      mkStored
        (pop_above (max_num_new_scans_ s)
           (ros_new_scans_ s ++ [(LIDARNEW, pointcloud2_msg)]))
        (ros_submaps_ s) (ros_global_lidar_map_ s) (ros_global_keypoints_map_ s)
        (store_new_scans_ s) (new_scans_counter_ s + 1) (max_num_new_scans_ s)
  end.

(** The call in [AddMeasurement]: [if (store_new_scans_) AddNewRosScan(...)]. *)
Definition store_scan (T_BASELINK_LIDAR : option Matrix4d) (world_frame_id : string)
    (s : Stored) (scan : list Vector3d * Matrix4d * RosTime) : Stored :=
  let '(cloud, T_WORLD_BASELINK, stamp) := scan in
  if store_new_scans_ s
  then AddNewRosScan T_BASELINK_LIDAR world_frame_id s cloud T_WORLD_BASELINK stamp
  else s.

(** [while (!q.empty()) { maps_vector.push_back(q.front()); q.pop(); }] *)
Fixpoint move_all (q : list RosMap) (maps_vector : list RosMap) : list RosMap :=
  match q with
  | [] => maps_vector
  | x :: rest => move_all rest (maps_vector ++ [x])
  end.

Definition GetRosMaps (s : Stored) : list RosMap * Stored :=
  let maps_vector := move_all (ros_new_scans_ s) [] in
  let maps_vector := move_all (ros_submaps_ s) maps_vector in
  let maps_vector :=
    match ros_global_lidar_map_ s with
    | Some m => maps_vector ++ [m]
    | None => maps_vector
    end in
  let maps_vector :=
    match ros_global_keypoints_map_ s with
    | Some m => maps_vector ++ [m]
    | None => maps_vector
    end in
  (maps_vector,
   mkStored [] [] None None (store_new_scans_ s) (new_scans_counter_ s)
     (max_num_new_scans_ s)).

(** The last [n] entries of a list. *)
Definition lastn {A : Type} (n : nat) (l : list A) : list A := skipn (List.length l - n) l.

(** The message of the scan stored [k]-th from a counter at [c]. *)
Definition scan_msg (T_BASELINK_LIDAR : Matrix4d) (world_frame_id : string) (c : Z)
    (k : nat) (scan : list Vector3d * Matrix4d * RosTime) : RosMap :=
  let '(cloud, T_WORLD_BASELINK, stamp) := scan in
  (LIDARNEW,
   mkPointCloud2 (transformPointCloud cloud (Tmul T_WORLD_BASELINK T_BASELINK_LIDAR)) stamp
     world_frame_id (c + Z.of_nat k)).

Fixpoint scan_msgs (T_BASELINK_LIDAR : Matrix4d) (world_frame_id : string) (c : Z)
    (scans : list (list Vector3d * Matrix4d * RosTime)) : list RosMap :=
  match scans with
  | [] => []
  | scan :: more =>
      scan_msg T_BASELINK_LIDAR world_frame_id c 0 scan
      :: scan_msgs T_BASELINK_LIDAR world_frame_id (c + 1) more
  end.

(** A stored global map as a list: empty for the null pointer. *)
Definition held (m : option RosMap) : list RosMap :=
  match m with
  | Some x => [x]
  | None => []
  end.

End RosMaps.

(* ------------------------------------------------------------------ *)
(** ** Visual-inertial odometry, continued: the buffers and the keyframe
    count *)

Module VioSession.

Import Ros Imu Vio.

(** The buffers of [VisualInertialOdom]: the IMU messages, with
    [header.stamp] as [t], and the images, by [header.stamp].  [Initialized]
    is what [initializer_->Initialized()] answers; [to_initializer] and
    [to_preintegrator] are the messages handed, in this order, to
    [initializer_->AddIMU] and to [imu_preint_->AddToBuffer]. *)
Record Buffers : Type := mkBuffers {
  imu_buffer_ : list IMUData;
  image_buffer_ : list RosTime;
  Initialized : bool;
  to_initializer : list IMUData;
  to_preintegrator : list IMUData
}.

(** The loop of [processIMU]: [front()] is read before the queue is tested
    for emptiness. *)
Fixpoint forward (img_time : RosTime) (imu_buffer : list IMUData) (sent : list IMUData)
  : Outcome (list IMUData * list IMUData) :=
  match imu_buffer with
  | [] => FrontOfEmptyQueue
  | x :: rest =>
      if t x <=? img_time then forward img_time rest (sent ++ [x])
      else Done (imu_buffer, sent)
  end.

Definition processIMU (s : Buffers) (msg : IMUData) : Outcome Buffers :=
  (* push imu message onto buffer *)
  let imu_buffer := imu_buffer_ s ++ [msg] in
  (* get current image timestamp *)
  img_time <- front (image_buffer_ s) ;;
  ' (imu_buffer, sent) <- forward img_time imu_buffer [] ;;
  Done (if Initialized s
        then mkBuffers imu_buffer (image_buffer_ s) true (to_initializer s)
               (to_preintegrator s ++ sent)
        else mkBuffers imu_buffer (image_buffer_ s) false (to_initializer s ++ sent)
               (to_preintegrator s)).

(** [added_since_kf_++] on the [uint32_t]. *)
Definition uint32_succ (x : Z) : Z := to_uint32 (x + 1).

(** The keyframe bookkeeping of [processImage], for a localized frame. *)
Definition note_frame {tracker : Tracker} (s : VisualInertialOdom) (keyframes_ : list RosTime)
    (img_time : RosTime) (triangulated_ids untriangulated_ids : list Z)
  : VisualInertialOdom * list RosTime :=
  if IsKeyframe s img_time triangulated_ids untriangulated_ids
  then (mkVisualInertialOdom (camera_params_ s) img_time 0, keyframes_ ++ [img_time])
  else (mkVisualInertialOdom (camera_params_ s) (cur_kf_time_ s)
          (uint32_succ (added_since_kf_ s)),
        keyframes_).

Fixpoint note_frames {tracker : Tracker} (s : VisualInertialOdom) (keyframes_ : list RosTime)
    (frames : list (RosTime * list Z * list Z)) : VisualInertialOdom * list RosTime :=
  match frames with
  | [] => (s, keyframes_)
  | (img_time, triangulated_ids, untriangulated_ids) :: more =>
      let '(s, keyframes_) :=
        note_frame s keyframes_ img_time triangulated_ids untriangulated_ids in
      note_frames s keyframes_ more
  end.

(** The first test of [IsKeyframe] after the time gate: the parallax since the
    keyframe at [cur_kf_time] is above the threshold, or the tracks have
    dropped. *)
Definition moved {tracker : Tracker} (camera_params : CameraParams) (cur_kf_time : RosTime)
    (frame : RosTime * list Z * list Z) : bool :=
  let '(img_time, triangulated_ids, untriangulated_ids) := frame in
  double_gt (ComputeAvgParallax cur_kf_time img_time (triangulated_ids ++ untriangulated_ids))
            (keyframe_parallax camera_params)
  || (size triangulated_ids <? to_size_t (keyframe_tracks_drop camera_params)).

End VioSession.

(* ================================================================== *)
(** * Properties *)

Module EigenFacts.

Import Eigen.

Local Open Scope Q_scope.

Lemma mmul_Identity3_r (m : Matrix3d) : meq (mmul m Identity3) m.
Proof.
  destruct m as [[a b c] [d e f] [g h i]].
  unfold meq, veq, mmul, row_times, dot; simpl.
  repeat split; ring.
Qed.

Lemma squaredNorm_vsub_diag (v : Vector3d) : squaredNorm (vsub v v) == 0.
Proof.
  destruct v as [a b c]. unfold squaredNorm, dot, vsub; simpl. ring.
Qed.

Lemma norm_lt_self (v : Vector3d) (s : Q) : 0 < s -> norm_lt (vsub v v) s = true.
Proof.
  intros Hs. unfold norm_lt.
  rewrite (proj1 (Qlt_alt 0 s) Hs).
  assert (H : squaredNorm (vsub v v) < s * s).
  { rewrite squaredNorm_vsub_diag. apply Qmult_lt_0_compat; assumption. }
  rewrite (proj1 (Qlt_alt _ _) H). reflexivity.
Qed.

End EigenFacts.

(* ------------------------------------------------------------------ *)
(** ** ImuPreintegration *)

Module ImuFacts.

Import Eigen Ros Imu.

(** *** The loops over the sample queue *)

Lemma populate_eq_drain (t_now : RosTime) (buffer : list IMUData) :
  populate t_now buffer = drain t_now buffer.
Proof.
  induction buffer as [|d rest IH]; simpl; [reflexivity|].
  rewrite andb_true_r, IH. reflexivity.
Qed.

Lemma drain_split (t_now : RosTime) (buffer moved remaining : list IMUData) :
  drain t_now buffer = Done (moved, remaining) ->
  buffer = moved ++ remaining /\
  Forall (fun d => t d < t_now) moved /\
  (forall d rest, remaining = d :: rest -> t_now <= t d).
Proof.
  revert moved remaining.
  induction buffer as [|d rest IH]; intros moved remaining H; simpl in H.
  - discriminate.
  - destruct (t_now >? t d) eqn:G.
    + destruct (drain t_now rest) as [[m r]| | |] eqn:E; simpl in H; try discriminate.
      inversion H; subst; clear H.
      destruct (IH m remaining eq_refl) as (Hb & Hm & Hr).
      repeat split.
      * simpl. now rewrite Hb.
      * constructor; [lia | assumption].
      * exact Hr.
    + inversion H; subst; clear H.
      repeat split.
      * constructor.
      * intros d0 rest0 E. inversion E; subst. lia.
Qed.

Lemma drain_returns (t_now : RosTime) (buffer : list IMUData) :
  existsb (fun d => t_now <=? t d) buffer = true ->
  exists moved remaining, drain t_now buffer = Done (moved, remaining).
Proof.
  induction buffer as [|d rest IH]; simpl; intros H; [discriminate|].
  destruct (t_now >? t d) eqn:G.
  - assert (Hd : (t_now <=? t d) = false) by lia.
    rewrite Hd in H. simpl in H.
    destruct (IH H) as (m & r & E). rewrite E. simpl. eauto.
  - eauto.
Qed.

Lemma pop_before_returns (t_start : RosTime) (buffer : list IMUData) :
  existsb (fun d => t_start <=? t d) buffer = true ->
  exists remaining, pop_before t_start buffer = Done remaining.
Proof.
  induction buffer as [|d rest IH]; simpl; intros H; [discriminate|].
  destruct (t_start >? t d) eqn:G.
  - assert (Hd : (t_start <=? t d) = false) by lia.
    rewrite Hd in H. simpl in H. exact (IH H).
  - eauto.
Qed.

Lemma drain_nothing (t_now : RosTime) (d : IMUData) (rest : list IMUData) :
  t_now <= t d -> drain t_now (d :: rest) = Done ([], d :: rest).
Proof.
  intros H. simpl. assert (G : (t_now >? t d) = false) by lia. now rewrite G.
Qed.

(** *** Pushing samples *)

Lemma example_start_constructed :
  ImuPreintegration_new example_params Zero3 Zero3 = Some example_start.
Proof. reflexivity. Qed.

Lemma strictly_increasing_snoc (buffer : list IMUData) (d : IMUData) :
  strictly_increasing (buffer ++ [d]) =
  strictly_increasing buffer &&
  match newest buffer with
  | Some l => t l <? t d
  | None => true
  end.
Proof.
  unfold newest.
  induction buffer as [|x rest IH]; [reflexivity|].
  destruct rest as [|y rest'].
  - simpl. now rewrite andb_true_r.
  - change (strictly_increasing ((x :: y :: rest') ++ [d]))
      with ((t x <? t y) && strictly_increasing ((y :: rest') ++ [d])).
    rewrite IH.
    change (strictly_increasing (x :: y :: rest'))
      with ((t x <? t y) && strictly_increasing (y :: rest')).
    change (last (map Some (x :: y :: rest')) None)
      with (last (map Some (y :: rest')) (@None IMUData)).
    now rewrite andb_assoc.
Qed.

Lemma AddToBuffer_sequence (samples : list IMUData) (s : ImuPreintegration) :
  current_imu_data_buffer_ (fold_left AddToBuffer samples s)
    = current_imu_data_buffer_ s ++ samples /\
  total_imu_data_buffer_ (fold_left AddToBuffer samples s)
    = total_imu_data_buffer_ s ++ samples.
Proof.
  revert s. induction samples as [|d rest IH]; intros s; simpl.
  - now rewrite !app_nil_r.
  - destruct (IH (AddToBuffer s d)) as [Hc Ht]. rewrite Hc, Ht.
    unfold AddToBuffer; simpl. now rewrite <- !app_assoc.
Qed.

(** C3, as the code has it: [AddToBuffer] appends the sample at the back of
    both queues whatever its stamp, so a sequence of pushes leaves every
    sample in both queues, in the order pushed; the current queue is strictly
    increasing after a push exactly when it was before and the new stamp is
    greater than the last stored one. *)
Theorem AddToBuffer_appends (s : ImuPreintegration) (d : IMUData) (samples : list IMUData) :
  current_imu_data_buffer_ (AddToBuffer s d) = current_imu_data_buffer_ s ++ [d] /\
  total_imu_data_buffer_ (AddToBuffer s d) = total_imu_data_buffer_ s ++ [d] /\
  current_imu_data_buffer_ (fold_left AddToBuffer samples s)
    = current_imu_data_buffer_ s ++ samples /\
  total_imu_data_buffer_ (fold_left AddToBuffer samples s)
    = total_imu_data_buffer_ s ++ samples /\
  strictly_increasing (current_imu_data_buffer_ (AddToBuffer s d)) =
    strictly_increasing (current_imu_data_buffer_ s) &&
    match newest (current_imu_data_buffer_ s) with
    | Some l => t l <? t d
    | None => true
    end.
Proof.
  split; [reflexivity|]. split; [reflexivity|].
  split; [apply AddToBuffer_sequence|]. split; [apply AddToBuffer_sequence|].
  unfold AddToBuffer; simpl. apply strictly_increasing_snoc.
Qed.

(** C3 fails as stated: a sample stamped 3 pushed after one stamped 5 is
    stored, behind it, in both queues. *)
Lemma AddToBuffer_keeps_stale_sample :
  current_imu_data_buffer_ (AddToBuffer (with_samples [5]) (sample_at 3))
    = [sample_at 5; sample_at 3] /\
  total_imu_data_buffer_ (AddToBuffer (with_samples [5]) (sample_at 3))
    = [sample_at 5; sample_at 3] /\
  strictly_increasing (current_imu_data_buffer_ (AddToBuffer (with_samples [5]) (sample_at 3)))
    = false.
Proof. repeat split; reflexivity. Qed.

(** *** Requests *)

(** C7: a request for a time before the front sample of the current queue is
    refused, [GetPose] with [false] and
    [RegisterNewImuPreintegratedFactor] with a null transaction, and no
    member of the preintegrator changes. *)
Theorem request_before_front_is_refused {impl : PreIntegratorImpl}
    (s : ImuPreintegration) (t_now : RosTime) (d : IMUData) (rest : list IMUData)
    (R_WORLD_IMU : option Matrix3d) (t_WORLD_IMU : option Vector3d) :
  current_imu_data_buffer_ s = d :: rest ->
  t_now < t d ->
  GetPose s t_now = Done (None, s) /\
  RegisterNewImuPreintegratedFactor s t_now R_WORLD_IMU t_WORLD_IMU = Done (None, s).
Proof.
  intros Hbuf Hlt.
  assert (G : (t_now <? t d) = true) by lia.
  unfold GetPose, RegisterNewImuPreintegratedFactor.
  rewrite Hbuf. simpl. rewrite G. split; reflexivity.
Qed.

Lemma request_before_front_is_refused_witness :
  GetPose (with_samples [10; 20]) 5 = Done (None, with_samples [10; 20]) /\
  RegisterNewImuPreintegratedFactor (with_samples [10; 20]) 5 None None
    = Done (None, with_samples [10; 20]).
Proof.
  apply (request_before_front_is_refused (with_samples [10; 20]) 5 (sample_at 10)
           [sample_at 20] None None).
  - reflexivity.
  - simpl. lia.
Defined.

(** A request later than every sample of the current queue runs the queue
    dry and reads the front of the empty queue. *)
Lemma drain_runs_dry (t_now : RosTime) (buffer : list IMUData) :
  forallb (fun d => t_now >? t d) buffer = true ->
  drain t_now buffer = FrontOfEmptyQueue.
Proof.
  induction buffer as [|d rest IH]; simpl; intros H; [reflexivity|].
  apply andb_true_iff in H. destruct H as [Hd Hr].
  rewrite Hd, (IH Hr). reflexivity.
Qed.

Lemma pop_before_runs_dry (t_start : RosTime) (buffer : list IMUData) :
  forallb (fun d => t_start >? t d) buffer = true ->
  pop_before t_start buffer = FrontOfEmptyQueue.
Proof.
  induction buffer as [|d rest IH]; simpl; intros H; [reflexivity|].
  apply andb_true_iff in H. destruct H as [Hd Hr].
  rewrite Hd. exact (IH Hr).
Qed.

Lemma GetPose_runs_dry {impl : PreIntegratorImpl} (s : ImuPreintegration) (t_now : RosTime) :
  forallb (fun d => t_now >? t d) (current_imu_data_buffer_ s) = true ->
  GetPose s t_now = FrontOfEmptyQueue.
Proof.
  intros H. unfold GetPose.
  destruct (current_imu_data_buffer_ s) as [|d rest] eqn:E; [reflexivity|].
  rewrite (drain_runs_dry _ _ H).
  simpl in H. apply andb_true_iff in H. destruct H as [Hd _].
  simpl. assert (G : (t_now <? t d) = false) by lia. rewrite G. reflexivity.
Qed.

Lemma Register_runs_dry {impl : PreIntegratorImpl} (s : ImuPreintegration) (t_now : RosTime)
    (R_WORLD_IMU : option Matrix3d) (t_WORLD_IMU : option Vector3d) :
  forallb (fun d => t_now >? t d) (current_imu_data_buffer_ s) = true ->
  RegisterNewImuPreintegratedFactor s t_now R_WORLD_IMU t_WORLD_IMU = FrontOfEmptyQueue.
Proof.
  intros H. unfold RegisterNewImuPreintegratedFactor.
  destruct (current_imu_data_buffer_ s) as [|d rest] eqn:E; [reflexivity|].
  assert (Hd : (t_now <? t d) = false).
  { simpl in H. apply andb_true_iff in H. lia. }
  simpl front. simpl bind. rewrite Hd.
  destruct (first_window_ s); simpl current_imu_data_buffer_; rewrite E;
    rewrite populate_eq_drain, (drain_runs_dry _ _ H); reflexivity.
Qed.

Lemma SetStart_runs_dry (s : ImuPreintegration) (t_start : RosTime)
    (R_WORLD_IMU : option Matrix3d) (t_WORLD_IMU velocity : option Vector3d) :
  forallb (fun d => t_start >? t d) (current_imu_data_buffer_ s) = true ->
  SetStart s t_start R_WORLD_IMU t_WORLD_IMU velocity = FrontOfEmptyQueue.
Proof.
  intros H. unfold SetStart. rewrite (pop_before_runs_dry _ _ H). reflexivity.
Qed.

(** C10 does not hold of the code: with one sample stamped 1 in the queues,
    a request for time 2 pops it and then reads [front()] of the empty queue,
    in each of the three operations; [GetPose] on a preintegrator that never
    received a sample reads it at once. *)
Theorem front_of_empty_queue_is_read {impl : PreIntegratorImpl} :
  RegisterNewImuPreintegratedFactor (with_samples [1]) 2 None None = FrontOfEmptyQueue /\
  GetPose (with_samples [1]) 2 = FrontOfEmptyQueue /\
  SetStart (with_samples [1]) 2 None None None = FrontOfEmptyQueue /\
  GetPose example_start 2 = FrontOfEmptyQueue.
Proof.
  split; [|split; [|split]].
  - apply Register_runs_dry. reflexivity.
  - apply GetPose_runs_dry. reflexivity.
  - apply SetStart_runs_dry. reflexivity.
  - apply GetPose_runs_dry. reflexivity.
Qed.

(** *** Registering a factor *)

Lemma PredictState_Stamp (pre : PreIntegrator) (x : ImuState) (t_now : RosTime) :
  t_now <> 0 -> Stamp (PredictState pre x t_now) = t_now.
Proof.
  intros Hnz. unfold PredictState. simpl.
  assert (G : (t_now =? 0) = false) by lia. now rewrite G.
Qed.

(** C8, as the code has it: a registration at a set time [t_j] (not
    [ros::Time(0)]), not before the front sample and with a sample at or after
    [t_j] in both queues, and, when both overrides are given, with [t_j] not
    the stamp of the anchor (the chord divides by the time between the two),
    returns a transaction holding the relative constraint from the anchor to
    the predicted state j and the variables of j.  With both overrides the new
    anchor has the given orientation and position, the chord velocity and the
    stamp [t_j]; with either one missing it is the predicted state j. *)
Theorem register_rolls_anchor_forward {impl : PreIntegratorImpl}
    (s : ImuPreintegration) (t_j : RosTime) (d : IMUData) (rest : list IMUData)
    (R_WORLD_IMU : option Matrix3d) (t_WORLD_IMU : option Vector3d) :
  t_j <> 0 ->
  (R_WORLD_IMU <> None -> t_WORLD_IMU <> None -> t_j <> Stamp (imu_state_i_ s)) ->
  current_imu_data_buffer_ s = d :: rest ->
  t d <= t_j ->
  existsb (fun x => t_j <=? t x) (current_imu_data_buffer_ s) = true ->
  existsb (fun x => t_j <=? t x) (total_imu_data_buffer_ s) = true ->
  exists tr s' moved remaining,
    RegisterNewImuPreintegratedFactor s t_j R_WORLD_IMU t_WORLD_IMU = Done (Some tr, s') /\
    populate t_j (current_imu_data_buffer_ s) = Done (moved, remaining) /\
    let pre :=
      Integrate t_j (GyroBiasVec (imu_state_i_ s)) (AccelBiasVec (imu_state_i_ s)) true true
        (set_data (pre_integrator_ij s) (data (pre_integrator_ij s) ++ moved)) in
    let imu_state_j := PredictState pre (imu_state_i_ s) t_j in
    In (RelativeImuStateConstraint (imu_state_i_ s) imu_state_j pre) (items tr) /\
    In (ImuStateVariables imu_state_j) (items tr) /\
    imu_state_i_ s' =
      match R_WORLD_IMU, t_WORLD_IMU with
      | Some R, Some p =>
          mkImuState t_j R p
            (vdiv (vsub p (PositionVec (imu_state_i_ s)))
                  (toSec t_j - toSec (Stamp (imu_state_i_ s)))%Q)
            (GyroBiasVec (imu_state_i_ s)) (AccelBiasVec (imu_state_i_ s))
      | _, _ => imu_state_j
      end.
Proof.
  intros Hnz _ Hbuf Hfront Hcur Htot.
  assert (G : (t_j <? t d) = false) by lia.
  destruct (drain_returns _ _ Hcur) as (moved & remaining & Hdrain).
  destruct (pop_before_returns _ _ Htot) as (tot & Hpop).
  unfold RegisterNewImuPreintegratedFactor.
  rewrite Hbuf. cbn [front bind]. rewrite G. rewrite <- Hbuf.
  assert (Hstamp : forall pre x (R : option Matrix3d) (p : option Vector3d),
            Stamp match R, p with
                  | Some R0, Some p0 =>
                      SetVelocity (SetPosition (SetOrientation (PredictState pre x t_j) R0) p0)
                        (vdiv (vsub (PositionVec
                                       (SetPosition (SetOrientation (PredictState pre x t_j) R0) p0))
                                    (PositionVec x))
                              (toSec t_j - toSec (Stamp x))%Q)
                  | _, _ => PredictState pre x t_j
                  end = t_j).
  { intros pre x [R|] [p|]; cbn [Stamp SetVelocity SetPosition SetOrientation];
      apply PredictState_Stamp; assumption. }
  destruct (first_window_ s) eqn:FW;
    cbn [current_imu_data_buffer_ set_first_window set_pre_integrator_ij set_current_buffer
         imu_state_i_ pre_integrator_ij set_imu_state_i total_imu_data_buffer_ params_];
    rewrite populate_eq_drain, Hdrain; cbn [bind];
    cbn [current_imu_data_buffer_ set_first_window set_pre_integrator_ij set_current_buffer
         imu_state_i_ pre_integrator_ij set_imu_state_i total_imu_data_buffer_ params_];
    rewrite Hstamp, Hpop; cbn [bind];
    eexists; eexists; exists moved, remaining;
    (split; [reflexivity|]); (split; [reflexivity|]);
    cbv zeta; (split; [|split]).
  all: try (cbn [items add_item]; rewrite !in_app_iff; simpl; tauto).
  all: cbn [imu_state_i_ ResetPreintegrator set_pre_integrator_ij set_imu_state_k
            set_total_buffer set_imu_state_i];
    destruct R_WORLD_IMU as [R|], t_WORLD_IMU as [p|]; try reflexivity;
    unfold SetVelocity, SetPosition, SetOrientation;
    cbn [Stamp OrientationMat PositionVec VelocityVec GyroBiasVec AccelBiasVec];
    rewrite PredictState_Stamp by assumption; reflexivity.
Qed.

Lemma register_rolls_anchor_forward_witness :
  exists tr s',
    RegisterNewImuPreintegratedFactor (with_samples [10; 20; 30]) 20
      (Some Identity3) (Some (mkVector3d 1 0 0)) = Done (Some tr, s') /\
    imu_state_i_ s' =
      mkImuState 20 Identity3 (mkVector3d 1 0 0)
        (vdiv (vsub (mkVector3d 1 0 0) Zero3) (toSec 20 - toSec 0)%Q) Zero3 Zero3.
Proof.
  destruct (register_rolls_anchor_forward (with_samples [10; 20; 30]) 20 (sample_at 10)
              [sample_at 20; sample_at 30] (Some Identity3) (Some (mkVector3d 1 0 0)))
    as (tr & s' & moved & remaining & Hreg & _ & _ & _ & Hanchor).
  - lia.
  - intros _ _. vm_compute. discriminate.
  - reflexivity.
  - simpl. lia.
  - reflexivity.
  - reflexivity.
  - exists tr, s'. split; [exact Hreg | exact Hanchor].
Defined.

(** C8 fails as stated, where the registration does not go through and at
    the unset time.  A registration at 5 with both overrides, before the front
    sample stamped 10, is refused and leaves the anchor as it was, stamped 0
    at the origin.  And after a start at 7, a clearing of the buffers and a
    sample stamped [ros::Time(0)], the registration at [ros::Time(0)] with both
    overrides returns a transaction and stamps the new anchor 7, the stamp of
    the old anchor plus the integrated time, not the time asked for. *)
Lemma register_keeps_anchor_stamp :
  (RegisterNewImuPreintegratedFactor (with_samples [10; 20; 30]) 5
     (Some Identity3) (Some (mkVector3d 1 0 0))
   = Done (None, with_samples [10; 20; 30]) /\
   Stamp (imu_state_i_ (with_samples [10; 20; 30])) = 0 /\
   PositionVec (imu_state_i_ (with_samples [10; 20; 30])) = Zero3) /\
  exists s1 tr s',
    SetStart (with_samples [7]) 7 None None None = Done s1 /\
    RegisterNewImuPreintegratedFactor (AddToBuffer (ClearBuffer s1) (sample_at 0)) 0
      (Some Identity3) (Some (mkVector3d 1 0 0))
    = Done (Some tr, s') /\
    Stamp (imu_state_i_ s') = 7.
Proof.
  split.
  - split; [vm_compute; reflexivity | split; reflexivity].
  - eexists. eexists. eexists.
    split; [vm_compute; reflexivity|].
    split; vm_compute; reflexivity.
Qed.

(** *** Asking for the pose right after a registration *)

(** A prediction over an increment at rest keeps the pose. *)
Lemma PredictState_at_rest (pre : PreIntegrator) (x : ImuState) (t_now : RosTime) :
  delta pre = Delta_rest ->
  Teq (pose_of (PredictState pre x t_now)) (pose_of x).
Proof.
  intros Hrest.
  unfold pose_of, QuaternionAndTranslationToTransformMatrix, PredictState, Teq.
  rewrite Hrest.
  cbn [rotation translation OrientationMat PositionVec delta_q delta_v delta_p delta_t
       Delta_rest].
  split.
  - apply EigenFacts.mmul_Identity3_r.
  - destruct x as [st [[a b c] [d e f] [g h i]] [px py pz] [ux uy uz] bg ba].
    unfold veq, vadd, vscale, mvec, dot, GRAVITY_WORLD, Zero3; simpl.
    unfold toSec. repeat split; field.
Qed.

Lemma Register_leaves_k_at_i {impl : PreIntegratorImpl}
    (s s' : ImuPreintegration) (t_j : RosTime)
    (R_WORLD_IMU : option Matrix3d) (t_WORLD_IMU : option Vector3d)
    (tr : ImuState3DStampedTransaction) :
  RegisterNewImuPreintegratedFactor s t_j R_WORLD_IMU t_WORLD_IMU = Done (Some tr, s') ->
  imu_state_k_ s' = imu_state_i_ s' /\
  exists moved, populate t_j (current_imu_data_buffer_ s)
                = Done (moved, current_imu_data_buffer_ s').
Proof.
  unfold RegisterNewImuPreintegratedFactor.
  destruct (current_imu_data_buffer_ s) as [|d rest] eqn:Hbuf; [discriminate|].
  cbn [front bind].
  destruct (t_j <? t d); [discriminate|].
  rewrite <- Hbuf.
  destruct (first_window_ s);
    cbn [current_imu_data_buffer_ set_first_window];
    (destruct (populate t_j (current_imu_data_buffer_ s)) as [[moved remaining]| | |];
       cbn [bind]; try discriminate);
    (match goal with
     | |- context [pop_before ?x ?y] => destruct (pop_before x y); cbn [bind]; try discriminate
     end);
    intros Heq; inversion Heq; subst; clear Heq;
    (split; [reflexivity | exists moved; reflexivity]).
Qed.

Lemma drain_leaves_sample (t_now : RosTime) (buffer moved remaining : list IMUData) :
  drain t_now buffer = Done (moved, remaining) -> exists d rest, remaining = d :: rest.
Proof.
  revert moved. induction buffer as [|d rest IH]; intros moved H; simpl in H; [discriminate|].
  destruct (t_now >? t d).
  - destruct (drain t_now rest) as [[m r]| | |]; cbn [bind] in H; try discriminate.
    inversion H; subst. exact (IH m eq_refl).
  - inversion H; subst. eauto.
Qed.

(** C1, as the code has it.  A registration at [t_j] that registers a factor
    leaves a sample at the front of the current queue, stamped [t_j] or
    later.  When it is stamped later, [GetPose(t_j)] returns [false] and
    changes nothing.  When it is stamped [t_j] exactly, and the integrator
    leaves an interval without samples at rest, [GetPose(t_j)] succeeds and
    writes the pose of the committed anchor.  A registration with both
    overrides is taken at a [t_j] that is not the stamp of the old anchor:
    at that stamp the chord velocity of the new anchor divides by zero and the
    pose predicted from it is not a number. *)
Theorem get_pose_after_register {impl : PreIntegratorImpl}
    (s s' : ImuPreintegration) (t_j : RosTime)
    (R_WORLD_IMU : option Matrix3d) (t_WORLD_IMU : option Vector3d)
    (tr : ImuState3DStampedTransaction) :
  (forall t0 bg ba, delta (Integrate t0 bg ba false false PreIntegrator_new) = Delta_rest) ->
  (R_WORLD_IMU <> None -> t_WORLD_IMU <> None -> t_j <> Stamp (imu_state_i_ s)) ->
  RegisterNewImuPreintegratedFactor s t_j R_WORLD_IMU t_WORLD_IMU = Done (Some tr, s') ->
  exists d rest,
    current_imu_data_buffer_ s' = d :: rest /\
    t_j <= t d /\
    (t_j < t d -> GetPose s' t_j = Done (None, s')) /\
    (t d = t_j ->
     exists T s'', GetPose s' t_j = Done (Some T, s'') /\ Teq T (pose_of (imu_state_i_ s'))).
Proof.
  intros Hrest _ Hreg.
  destruct (Register_leaves_k_at_i _ _ _ _ _ _ Hreg) as (Hk & moved & Hpop).
  rewrite populate_eq_drain in Hpop.
  destruct (drain_leaves_sample _ _ _ _ Hpop) as (d & rest & Hbuf).
  destruct (drain_split _ _ _ _ Hpop) as (_ & _ & Hge).
  specialize (Hge d rest Hbuf).
  exists d, rest. split; [exact Hbuf|]. split; [exact Hge|]. split.
  - intros Hlt. unfold GetPose. rewrite Hbuf. cbn [front bind].
    assert (G : (t_j <? t d) = true) by lia. now rewrite G.
  - intros Heq. unfold GetPose. rewrite Hbuf. cbn [front bind].
    assert (G : (t_j <? t d) = false) by lia. rewrite G.
    rewrite (drain_nothing t_j d rest Hge). cbn [bind].
    eexists. eexists. split; [reflexivity|].
    cbn [imu_state_k_ set_imu_state_k set_current_buffer set_pre_integrator_ij imu_state_i_].
    rewrite Hk.
    apply (PredictState_at_rest _ (imu_state_i_ s') t_j).
    apply Hrest.
Qed.

Lemma get_pose_after_register_witness :
  exists tr s' T s'',
    RegisterNewImuPreintegratedFactor (with_samples [10; 20; 30]) 20
      (Some Identity3) (Some (mkVector3d 1 0 0))
      = Done (Some tr, s') /\
    GetPose s' 20 = Done (Some T, s'') /\
    Teq T (pose_of (imu_state_i_ s')).
Proof.
  assert (H : exists tr s',
             RegisterNewImuPreintegratedFactor (with_samples [10; 20; 30]) 20
               (Some Identity3) (Some (mkVector3d 1 0 0))
             = Done (Some tr, s') /\
             current_imu_data_buffer_ s' = [sample_at 20; sample_at 30])
    by (eexists; eexists; split; vm_compute; reflexivity).
  destruct H as (tr & s' & Hreg & Hbuf).
  destruct (get_pose_after_register (with_samples [10; 20; 30]) s' 20
              (Some Identity3) (Some (mkVector3d 1 0 0)) tr)
    as (d & rest & Hbuf' & _ & _ & Hpose).
  - intros t0 bg ba. reflexivity.
  - intros _ _. vm_compute. discriminate.
  - exact Hreg.
  - rewrite Hbuf in Hbuf'. inversion Hbuf'; subst d rest.
    destruct (Hpose eq_refl) as (T & s'' & Hget & Hteq).
    exists tr, s', T, s''. split; [exact Hreg|]. split; assumption.
Defined.

(** C1 fails as stated: with samples stamped 10, 20 and 30, the registration
    at 25 succeeds and leaves the sample stamped 30 at the front, so the
    [GetPose(25)] that follows returns [false]. *)
Lemma get_pose_after_register_fails :
  exists tr s',
    RegisterNewImuPreintegratedFactor (with_samples [10; 20; 30]) 25 None None
      = Done (Some tr, s') /\
    Stamp (imu_state_i_ s') = 25 /\
    GetPose s' 25 = Done (None, s').
Proof.
  eexists. eexists. split; [vm_compute; reflexivity|].
  split; vm_compute; reflexivity.
Qed.

End ImuFacts.

(* ------------------------------------------------------------------ *)
(** ** Transactions *)

Module FuseFacts.

Import Eigen Ros Fuse.

Lemma built_snoc (transaction_stamp : RosTime) (oc ov : bool) (calls : list Call) (c : Call) :
  built transaction_stamp oc ov (calls ++ [c]) = call (built transaction_stamp oc ov calls) c.
Proof. unfold built. now rewrite fold_left_app. Qed.

Lemma addVariable_adds (tr : Transaction) (x : StampedVariable) (overwrite : bool) :
  added_variables (addVariable tr x overwrite) <> [].
Proof.
  unfold addVariable; cbn [added_variables].
  set (kept := if overwrite then _ else _).
  destruct (existsb (fun y => same_uuid y x) kept) eqn:E.
  - destruct kept; [discriminate | discriminate].
  - destruct kept; discriminate.
Qed.

(** A call leaves a variable or a constraint in the transaction. *)
Lemma call_adds (b : PoseTransaction) (c : Call) :
  added_constraints (transaction_ (call b c)) <> [] \/
  added_variables (transaction_ (call b c)) <> [].
Proof.
  destruct c; cbn [call].
  1-4: left; unfold AddPosePrior_noise, AddPosePrior, AddPoseConstraint, AddConstraint,
         with_transaction, addConstraint; cbn [transaction_ added_constraints];
       destruct (added_constraints (transaction_ b)); discriminate.
  right. unfold AddPoseVariables, with_transaction. cbn [transaction_].
  apply addVariable_adds.
Qed.

Lemma built_adds (transaction_stamp : RosTime) (oc ov : bool) (calls : list Call) :
  calls <> [] ->
  added_constraints (transaction_ (built transaction_stamp oc ov calls)) <> [] \/
  added_variables (transaction_ (built transaction_stamp oc ov calls)) <> [].
Proof.
  destruct calls as [|c0 rest] using rev_ind; [congruence|].
  intros _. rewrite built_snoc. apply call_adds.
Qed.

Lemma empty_false_of_added (tr : Transaction) :
  added_constraints tr <> [] \/ added_variables tr <> [] -> empty tr = false.
Proof.
  unfold empty. destruct (added_variables tr), (added_constraints tr); intros [H|H];
    try congruence; try reflexivity.
Qed.

(** C9: whatever calls were made on a builder, of either class,
    [GetTransaction] is null exactly when none was made; it is null when the
    transaction holds no variable and no constraint; and it is the built
    transaction whenever that one is not empty. *)
Theorem GetTransaction_null_iff_nothing_added
    (transaction_stamp : RosTime) (override_constraints override_variables : bool)
    (calls : list Call) :
  (GetTransaction (built transaction_stamp override_constraints override_variables calls) = None
   <-> calls = []) /\
  (added_variables
     (transaction_ (built transaction_stamp override_constraints override_variables calls)) = [] /\
   added_constraints
     (transaction_ (built transaction_stamp override_constraints override_variables calls)) = [] ->
   GetTransaction (built transaction_stamp override_constraints override_variables calls) = None) /\
  (empty (transaction_ (built transaction_stamp override_constraints override_variables calls))
     = false ->
   GetTransaction (built transaction_stamp override_constraints override_variables calls)
     = Some (transaction_ (built transaction_stamp override_constraints override_variables calls))).
Proof.
  assert (Hiff : GetTransaction (built transaction_stamp override_constraints
                                   override_variables calls) = None <-> calls = []).
  { split.
    - intros Hnull. destruct calls as [|c rest]; [reflexivity|].
      assert (Hne : c :: rest <> []) by discriminate.
      pose proof (empty_false_of_added _
                    (built_adds transaction_stamp override_constraints override_variables
                       _ Hne)) as He.
      unfold GetTransaction in Hnull. rewrite He in Hnull. discriminate.
    - intros ->. reflexivity. }
  split; [exact Hiff|]. split.
  - intros [Hv Hc]. apply Hiff.
    destruct calls as [|c rest]; [reflexivity|].
    assert (Hne : c :: rest <> []) by discriminate.
    destruct (built_adds transaction_stamp override_constraints override_variables _ Hne);
      congruence.
  - intros He. unfold GetTransaction. now rewrite He.
Qed.

End FuseFacts.

(* ------------------------------------------------------------------ *)
(** ** The keyframe policy *)

Module VioFacts.

Import Ros Vio.

Local Open Scope Q_scope.

Lemma fold_add_parallax {tracker : Tracker} (t1 t2 : RosTime) (ids : list Z) (acc : Q * Z) :
  fst (fold_left (add_parallax t1 t2) ids acc)
    == fst acc + sum (map (fun p => distance (fst p) (snd p)) (correspondences t1 t2 ids)) /\
  snd (fold_left (add_parallax t1 t2) ids acc)
    = (snd acc + Z.of_nat (List.length (correspondences t1 t2 ids)))%Z.
Proof.
  revert acc. induction ids as [|id rest IH]; intros acc; simpl.
  - split; [ring | lia].
  - unfold add_parallax at 2 4.
    destruct (Get t1 id) as [p1|]; [destruct (Get t2 id) as [p2|]|]; try apply IH.
    destruct (IH ((fst acc + distance p1 p2)%Q, (snd acc + 1)%Z)) as [Hs Hn].
    split.
    + rewrite Hs. simpl. ring.
    + rewrite Hn. simpl List.length. cbn [snd]. lia.
Qed.

(** The loop computes the mean of the specification. *)
Lemma ComputeAvgParallax_mean {tracker : Tracker} (t1 t2 : RosTime) (ids : list Z) :
  match ComputeAvgParallax t1 t2 ids, mean_parallax t1 t2 ids with
  | Some x, Some y => x == y
  | None, None => True
  | _, _ => False
  end.
Proof.
  unfold ComputeAvgParallax, mean_parallax.
  destruct (fold_add_parallax t1 t2 ids (0, 0%Z)) as [Hs Hn].
  destruct (fold_left (add_parallax t1 t2) ids (0, 0%Z)) as [total n].
  cbn [fst snd] in Hs, Hn.
  destruct (correspondences t1 t2 ids) as [|p rest] eqn:E.
  - simpl in Hn. subst n. exact I.
  - assert (Hz : (n =? 0)%Z = false) by (simpl List.length in Hn; lia).
    rewrite Hz. rewrite Hs, Hn. simpl (0 + _)%Z.
    rewrite Qplus_0_l. reflexivity.
Qed.

Lemma double_gt_mean {tracker : Tracker} (t1 t2 : RosTime) (ids : list Z) (threshold : Q) :
  double_gt (ComputeAvgParallax t1 t2 ids) threshold = true <->
  exists mean, mean_parallax t1 t2 ids = Some mean /\ threshold < mean.
Proof.
  pose proof (ComputeAvgParallax_mean t1 t2 ids) as H.
  destruct (ComputeAvgParallax t1 t2 ids) as [x|], (mean_parallax t1 t2 ids) as [y|];
    try contradiction; unfold double_gt.
  - rewrite negb_true_iff. split.
    + intros Hle. exists y. split; [reflexivity|].
      rewrite <- H. apply Qnot_le_lt. intros Hc.
      apply Qle_bool_iff in Hc. congruence.
    + intros (m & Hm & Hlt). inversion Hm; subst m.
      destruct (Qle_bool x threshold) eqn:Hb; [|reflexivity].
      apply Qle_bool_iff in Hb. rewrite H in Hb.
      exfalso. exact (Qlt_not_le _ _ Hlt Hb).
  - split; [discriminate | intros (m & Hm & _); discriminate].
Qed.

(** C2, as the code has it: for lists that hold no landmark id twice between
    them, a [keyframe_tracks_drop] that is not negative and a [window_size] of
    at least one, [IsKeyframe] answers [true] exactly when enough time has
    passed since the last keyframe and the mean parallax over the triangulated
    and untriangulated landmarks exceeds [keyframe_parallax], or fewer
    landmarks than [keyframe_tracks_drop] are triangulated, or the frames added
    since the last keyframe number [window_size - 1]; it answers [false]
    otherwise. *)
Theorem IsKeyframe_iff {tracker : Tracker} (s : VisualInertialOdom) (img_time : RosTime)
    (triangulated_ids untriangulated_ids : list Z) :
  NoDup (triangulated_ids ++ untriangulated_ids) ->
  (0 <= keyframe_tracks_drop (camera_params_ s) <= 2147483647)%Z ->
  (1 <= window_size (camera_params_ s) <= 2147483647)%Z ->
  (IsKeyframe s img_time triangulated_ids untriangulated_ids = true <->
   keyframe_wanted s img_time triangulated_ids untriangulated_ids) /\
  (IsKeyframe s img_time triangulated_ids untriangulated_ids = false <->
   ~ keyframe_wanted s img_time triangulated_ids untriangulated_ids).
Proof.
  intros Hnodup Hdrop_range Hwindow_range.
  assert (Hunion : union triangulated_ids untriangulated_ids
                   = triangulated_ids ++ untriangulated_ids).
  { unfold union, ids_of. now apply nodup_fixed_point. }
  assert (Hcount : ids_of triangulated_ids = triangulated_ids).
  { unfold ids_of. apply nodup_fixed_point. exact (NoDup_app_remove_r _ _ Hnodup). }
  assert (Hsize_t : to_size_t (keyframe_tracks_drop (camera_params_ s))
                    = keyframe_tracks_drop (camera_params_ s)).
  { unfold to_size_t. apply Z.mod_small. lia. }
  assert (Huint32 : to_uint32 (window_size (camera_params_ s) - 1)
                    = (window_size (camera_params_ s) - 1)%Z).
  { unfold to_uint32. apply Z.mod_small. lia. }
  assert (Hiff : IsKeyframe s img_time triangulated_ids untriangulated_ids = true <->
                 keyframe_wanted s img_time triangulated_ids untriangulated_ids).
  { unfold IsKeyframe, keyframe_wanted. rewrite Hunion, Hcount, Hsize_t, Huint32.
    destruct (Qle_bool (keyframe_min_time_in_seconds (camera_params_ s))
                (toSec (img_time - cur_kf_time_ s))) eqn:Htime.
    - apply Qle_bool_iff in Htime.
      pose proof (double_gt_mean (cur_kf_time_ s) img_time
                    (triangulated_ids ++ untriangulated_ids)
                    (keyframe_parallax (camera_params_ s))) as Hpar.
      cbv zeta.
      destruct (double_gt _ _) eqn:Hgt; cbn [orb].
      + split; [intros _ | reflexivity].
        split; [exact Htime | left; apply Hpar; reflexivity].
      + destruct (size triangulated_ids <? keyframe_tracks_drop (camera_params_ s))%Z eqn:Hdrop.
        * split; [intros _ | reflexivity].
          split; [exact Htime | right; left; lia].
        * destruct (added_since_kf_ s =? window_size (camera_params_ s) - 1)%Z eqn:Hwin.
          -- split; [intros _ | reflexivity].
             split; [exact Htime | right; right; lia].
          -- split; [discriminate|].
             intros (_ & [Hm | [Hd | Hw]]).
             ++ apply Hpar in Hm. discriminate.
             ++ lia.
             ++ lia.
    - split; [discriminate|].
      intros (Hle & _). apply Qle_bool_iff in Hle. congruence. }
  split; [exact Hiff|].
  rewrite <- Hiff.
  destruct (IsKeyframe s img_time triangulated_ids untriangulated_ids);
    split; congruence.
Qed.

Lemma IsKeyframe_iff_witness :
  keyframe_wanted (tracker := tracker_on_row)
    (after_keyframe (mkCameraParams 1 3 1%Z 10%Z)) 2000000000%Z [1; 2]%Z [3]%Z.
Proof.
  destruct (IsKeyframe_iff (tracker := tracker_on_row)
              (after_keyframe (mkCameraParams 1 3 1%Z 10%Z)) 2000000000%Z [1; 2]%Z [3]%Z)
    as [[Hwanted _] _].
  - repeat (constructor; [simpl; intuition lia|]). constructor.
  - simpl. lia.
  - simpl. lia.
  - apply Hwanted. vm_compute. reflexivity.
Defined.

(** C2 fails as stated, in three ways.  With [keyframe_tracks_drop = -1] the
    comparison with [size()] is made on unsigned values, so three triangulated
    landmarks count as fewer than the threshold and the frame is a keyframe,
    where no count is below -1.  With landmark 1 in both lists the loop counts
    its parallax twice: the mean over the lists is 20/3, above the threshold
    6, where the mean over the union of the ids is 5.  And with
    [window_size = 0] the count 4294967295 equals [window_size - 1] as an
    unsigned value, where no count is -1. *)
Lemma IsKeyframe_not_as_claimed :
  (IsKeyframe (tracker := tracker_on_row)
     (after_keyframe (mkCameraParams 1 100 (-1)%Z 10%Z)) 2000000000%Z [1; 2; 3]%Z [] = true /\
   ~ keyframe_wanted (tracker := tracker_on_row)
       (after_keyframe (mkCameraParams 1 100 (-1)%Z 10%Z)) 2000000000%Z [1; 2; 3]%Z []) /\
  (IsKeyframe (tracker := tracker_on_row)
     (after_keyframe (mkCameraParams 1 6 0%Z 10%Z)) 2000000000%Z [1]%Z [1; 2]%Z = true /\
   ~ keyframe_wanted (tracker := tracker_on_row)
       (after_keyframe (mkCameraParams 1 6 0%Z 10%Z)) 2000000000%Z [1]%Z [1; 2]%Z) /\
  (IsKeyframe (tracker := tracker_on_row)
     (mkVisualInertialOdom (mkCameraParams 1 100 0%Z 0%Z) 0%Z 4294967295%Z)
     2000000000%Z [1; 2; 3]%Z [] = true /\
   ~ keyframe_wanted (tracker := tracker_on_row)
       (mkVisualInertialOdom (mkCameraParams 1 100 0%Z 0%Z) 0%Z 4294967295%Z)
       2000000000%Z [1; 2; 3]%Z []).
Proof.
  split; [|split]; (split; [vm_compute; reflexivity|]).
  - intros (_ & [(mean & Hmean & Hlt) | [Hcount | Hwindow]]).
    + vm_compute in Hmean. inversion Hmean; subst mean.
      vm_compute in Hlt. discriminate.
    + vm_compute in Hcount. discriminate.
    + vm_compute in Hwindow. discriminate.
  - intros (_ & [(mean & Hmean & Hlt) | [Hcount | Hwindow]]).
    + vm_compute in Hmean. inversion Hmean; subst mean.
      vm_compute in Hlt. discriminate.
    + vm_compute in Hcount. discriminate.
    + vm_compute in Hwindow. discriminate.
  - intros (_ & [(mean & Hmean & Hlt) | [Hcount | Hwindow]]).
    + vm_compute in Hmean. inversion Hmean; subst mean.
      vm_compute in Hlt. discriminate.
    + vm_compute in Hcount. discriminate.
    + vm_compute in Hwindow. discriminate.
Qed.

End VioFacts.

(* ------------------------------------------------------------------ *)
(** ** The global map *)

Module GlobalMapFacts.

Import Eigen Ros Fuse GlobalMap.

(** *** Vectors *)

Lemma at_Done {A : Type} (l : list A) (i : Z) (x : A) :
  at_ l i = Done x <-> 0 <= i /\ nth_error l (Z.to_nat i) = Some x.
Proof.
  unfold at_. destruct (i <? 0) eqn:E.
  - split; [discriminate | intros [H _]; lia].
  - destruct (nth_error l (Z.to_nat i)) as [y|].
    + split.
      * intros H. inversion H. split; [lia | reflexivity].
      * intros [_ H]. now inversion H.
    + split; [discriminate | intros [_ H]; discriminate].
Qed.

Lemma at_in_range {A : Type} (l : list A) (i : Z) :
  0 <= i < size l -> exists x, at_ l i = Done x.
Proof.
  intros [H0 H1]. unfold size in H1.
  destruct (nth_error l (Z.to_nat i)) as [x|] eqn:E.
  - exists x. apply at_Done. split; assumption.
  - apply nth_error_None in E. lia.
Qed.

Lemma at_range {A : Type} (l : list A) (i : Z) (x : A) :
  at_ l i = Done x -> 0 <= i < size l.
Proof.
  intros H. apply at_Done in H. destruct H as [H0 H].
  assert (Hlt : (Z.to_nat i < List.length l)%nat).
  { apply nth_error_Some. congruence. }
  unfold size. lia.
Qed.

Lemma at_snoc {A : Type} (l : list A) (x : A) : at_ (l ++ [x]) (size l) = Done x.
Proof.
  apply at_Done. unfold size. split; [lia|].
  rewrite Nat2Z.id, nth_error_app2 by lia.
  now rewrite Nat.sub_diag.
Qed.

(** *** C4: the submap of a measurement *)

(** [GetSubmapId] always answers, with an index of the table or its size. *)
Lemma GetSubmapId_returns (g : GlobalMap) (T : Matrix4d) :
  exists id, GetSubmapId g T = Done id /\ 0 <= id <= size (online_submaps_ g).
Proof.
  unfold GetSubmapId.
  destruct (online_submaps_ g) as [|sm0 rest] eqn:E.
  - exists 0. split; [reflexivity | unfold size; simpl; lia].
  - rewrite <- E.
    assert (Hsz : 1 <= size (online_submaps_ g)) by (rewrite E; unfold size; simpl; lia).
    destruct (at_in_range (online_submaps_ g) (size (online_submaps_ g) - 1)) as [cur Hcur];
      [lia|].
    rewrite Hcur. cbn [bind].
    destruct (size (online_submaps_ g) =? 1) eqn:H1.
    + destruct (within _ _ _); eexists; (split; [reflexivity | lia]).
    + destruct (at_in_range (online_submaps_ g) (size (online_submaps_ g) - 2)) as [prev Hprev];
        [lia|].
      rewrite Hprev. cbn [bind].
      destruct (within _ _ (translation (T_WORLD_SUBMAP_INIT prev)));
        [|destruct (within _ _ (translation (T_WORLD_SUBMAP_INIT cur)))];
        eexists; (split; [reflexivity | lia]).
Qed.

(** What the branches of [GetSubmapId] say of the answer. *)
Lemma GetSubmapId_cases (g : GlobalMap) (T : Matrix4d) (id : Z) :
  GetSubmapId g T = Done id ->
  (online_submaps_ g = [] /\ id = 0) \/
  (exists cur,
     at_ (online_submaps_ g) (size (online_submaps_ g) - 1) = Done cur /\
     size (online_submaps_ g) = 1 /\
     if within (submap_size (params_ g)) (translation T) (translation (T_WORLD_SUBMAP_INIT cur))
     then id = 0 else id = 1) \/
  (exists prev cur,
     at_ (online_submaps_ g) (size (online_submaps_ g) - 2) = Done prev /\
     at_ (online_submaps_ g) (size (online_submaps_ g) - 1) = Done cur /\
     if within (submap_size (params_ g)) (translation T) (translation (T_WORLD_SUBMAP_INIT prev))
     then id = size (online_submaps_ g) - 2
     else if within (submap_size (params_ g)) (translation T)
               (translation (T_WORLD_SUBMAP_INIT cur))
          then id = size (online_submaps_ g) - 1
          else id = size (online_submaps_ g)).
Proof.
  unfold GetSubmapId.
  destruct (online_submaps_ g) as [|sm0 rest] eqn:E.
  - intros H. inversion H. left. split; reflexivity.
  - rewrite <- E. intros H. right.
    destruct (at_ (online_submaps_ g) (size (online_submaps_ g) - 1)) as [cur| | |] eqn:Hcur;
      cbn [bind] in H; try discriminate.
    destruct (size (online_submaps_ g) =? 1) eqn:H1.
    + left. exists cur. split; [reflexivity|]. split; [lia|].
      destruct (within _ _ _); inversion H; reflexivity.
    + destruct (at_ (online_submaps_ g) (size (online_submaps_ g) - 2)) as [prev| | |] eqn:Hprev;
        cbn [bind] in H; try discriminate.
      right. exists prev, cur. split; [reflexivity|]. split; [reflexivity|].
      destruct (within _ _ (translation (T_WORLD_SUBMAP_INIT prev)));
        [|destruct (within _ _ (translation (T_WORLD_SUBMAP_INIT cur)))];
        inversion H; reflexivity.
Qed.

Lemma within_self (s : Q) (p : Vector3d) : (0 < s)%Q -> within s p p = true.
Proof. intros H. unfold within. now apply EigenFacts.norm_lt_self. Qed.

(** The loop closure leaves the table of online submaps as it is. *)
Lemma RunLoopClosure_online {search : RelocCandidateSearch} {refinement : RelocRefinement}
    (g g' : GlobalMap) (query_index : Z) (tr : option Transaction) :
  RunLoopClosure g query_index = Done (tr, g') -> online_submaps_ g' = online_submaps_ g.
Proof.
  unfold RunLoopClosure.
  destruct (size (online_submaps_ g) =? 1); [intros H; now inversion H|].
  destruct (at_ (online_submaps_ g) query_index) as [query| | |]; cbn [bind]; try discriminate.
  destruct (size _ =? 0); [intros H; now inversion H|].
  destruct (refine_entries _ _ _ _) as [transaction| | |]; cbn [bind]; try discriminate.
  destruct (GetNumberOfConstraints transaction >? 0); intros H; now inversion H.
Qed.

Lemma open_submap_online {search : RelocCandidateSearch} {refinement : RelocRefinement}
    (g g' : GlobalMap) (submap_id : Z) (T : Matrix4d) (stamp : RosTime)
    (tr : option Transaction) :
  open_submap g submap_id T stamp = Done (tr, g') ->
  online_submaps_ g' =
    if submap_id =? size (online_submaps_ g)
    then online_submaps_ g ++ [Submap_new stamp T]
    else online_submaps_ g.
Proof.
  unfold open_submap.
  destruct (submap_id =? size (online_submaps_ g)); [|intros H; now inversion H].
  destruct (InitiateNewSubmapPose _) as [new_transaction| | |]; cbn [bind]; try discriminate.
  destruct (RunLoopClosure _ _) as [[reloc g1]| | |] eqn:Hloop; cbn [bind]; try discriminate.
  apply RunLoopClosure_online in Hloop. cbn [online_submaps_ set_online_submaps] in Hloop.
  destruct reloc as [rt|]; [destruct new_transaction as [nt|]|]; try discriminate;
    intros H; inversion H; subst; exact Hloop.
Qed.

Lemma nth_error_split_at {A : Type} (l : list A) (n : nat) (x : A) :
  nth_error l n = Some x -> l = firstn n l ++ [x] ++ skipn (S n) l.
Proof.
  revert n. induction l as [|y l IH]; intros [|n] H; simpl in *; try discriminate.
  - now inversion H.
  - f_equal. now apply IH.
Qed.

(** Handing a measurement to a submap moves no anchor. *)
Lemma add_to_submap_anchors (g g' : GlobalMap) (submap_id : Z) (m : Measurement) :
  add_to_submap g submap_id m = Done g' ->
  map T_WORLD_SUBMAP_INIT (online_submaps_ g') = map T_WORLD_SUBMAP_INIT (online_submaps_ g).
Proof.
  unfold add_to_submap.
  destruct (at_ (online_submaps_ g) submap_id) as [sm| | |] eqn:Hat; cbn [bind];
    try discriminate.
  intros H. inversion H; subst; clear H. cbn [online_submaps_ set_online_submaps].
  apply at_Done in Hat. destruct Hat as [_ Hnth].
  rewrite (nth_error_split_at _ _ _ Hnth) at 3.
  rewrite !map_app. reflexivity.
Qed.

Lemma store_measurements_anchors (g g' : GlobalMap) (submap_id : Z)
    (cam : CameraMeasurementMsg) (lid : LidarMeasurementMsg) (T : Matrix4d) (stamp : RosTime) :
  store_measurements g submap_id cam lid T stamp = Done g' ->
  map T_WORLD_SUBMAP_INIT (online_submaps_ g') = map T_WORLD_SUBMAP_INIT (online_submaps_ g).
Proof.
  unfold store_measurements. intros H.
  assert (H1 : exists g1,
             map T_WORLD_SUBMAP_INIT (online_submaps_ g1)
               = map T_WORLD_SUBMAP_INIT (online_submaps_ g) /\
             (g2 <- (match lidar_points lid with
                     | [] => Done g1
                     | _ :: _ =>
                         add_to_submap g1 submap_id (LidarMeasurement (lidar_points lid) T stamp)
                     end) ;;
              if size (lidar_edges_strong lid) + size (lidar_edges_strong lid)
                 + size (lidar_surfaces_strong lid) + size (lidar_surfaces_weak lid) >? 0
              then add_to_submap g2 submap_id
                     (LoamMeasurement
                        (mkLoamPointCloud (lidar_edges_strong lid) (lidar_edges_weak lid)
                           (lidar_surfaces_strong lid) (lidar_surfaces_weak lid)) T stamp)
              else Done g2) = Done g').
  { destruct (landmarks cam).
    - exists g. split; [reflexivity | exact H].
    - destruct (add_to_submap g submap_id _) as [g1| | |] eqn:E; cbn [bind] in H;
        try discriminate.
      exists g1. split; [exact (add_to_submap_anchors _ _ _ _ E) | exact H]. }
  destruct H1 as (g1 & Hg1 & H1).
  assert (H2 : exists g2,
             map T_WORLD_SUBMAP_INIT (online_submaps_ g2)
               = map T_WORLD_SUBMAP_INIT (online_submaps_ g) /\
             (if size (lidar_edges_strong lid) + size (lidar_edges_strong lid)
                 + size (lidar_surfaces_strong lid) + size (lidar_surfaces_weak lid) >? 0
              then add_to_submap g2 submap_id
                     (LoamMeasurement
                        (mkLoamPointCloud (lidar_edges_strong lid) (lidar_edges_weak lid)
                           (lidar_surfaces_strong lid) (lidar_surfaces_weak lid)) T stamp)
              else Done g2) = Done g').
  { destruct (lidar_points lid).
    - exists g1. split; [exact Hg1 | exact H1].
    - destruct (add_to_submap g1 submap_id _) as [g2| | |] eqn:E; cbn [bind] in H1;
        try discriminate.
      exists g2. split; [|exact H1].
      rewrite (add_to_submap_anchors _ _ _ _ E). exact Hg1. }
  destruct H2 as (g2 & Hg2 & H2).
  destruct (_ >? 0).
  - rewrite (add_to_submap_anchors _ _ _ _ H2). exact Hg2.
  - inversion H2; subst. exact Hg2.
Qed.

Lemma at_same_anchors (l l' : list Submap) (i : Z) (sm : Submap) :
  map T_WORLD_SUBMAP_INIT l' = map T_WORLD_SUBMAP_INIT l ->
  at_ l i = Done sm ->
  exists sm', at_ l' i = Done sm' /\ T_WORLD_SUBMAP_INIT sm' = T_WORLD_SUBMAP_INIT sm.
Proof.
  intros Hmap Hat. apply at_Done in Hat. destruct Hat as [H0 Hnth].
  assert (Hn : nth_error (map T_WORLD_SUBMAP_INIT l') (Z.to_nat i)
               = Some (T_WORLD_SUBMAP_INIT sm)).
  { rewrite Hmap. rewrite nth_error_map, Hnth. reflexivity. }
  rewrite nth_error_map in Hn.
  destruct (nth_error l' (Z.to_nat i)) as [sm'|] eqn:E; [|discriminate].
  exists sm'. split; [apply at_Done; split; assumption | now inversion Hn].
Qed.

(** C4, for a positive [submap_size].  [GetSubmapId] answers an id [id].  The
    submap of that id, in the table as [AddMeasurement] leaves it (with a new
    submap at the pose when [id] is the number of submaps), has its initial
    anchor within [submap_size] of the pose.  When the previous and the
    current anchor are both within [submap_size], [id] is the previous
    submap; when neither is, [id] is the number of submaps. *)
Theorem measurement_goes_to_near_submap
    {search : RelocCandidateSearch} {refinement : RelocRefinement}
    (g : GlobalMap) (T : Matrix4d) (stamp : RosTime) :
  (0 < submap_size (params_ g))%Q ->
  exists id,
    GetSubmapId g T = Done id /\
    (exists sm,
       at_ (if id =? size (online_submaps_ g)
            then online_submaps_ g ++ [Submap_new stamp T]
            else online_submaps_ g) id = Done sm /\
       within (submap_size (params_ g)) (translation T)
         (translation (T_WORLD_SUBMAP_INIT sm)) = true) /\
    (forall cam lid tr g',
       AddMeasurement g cam lid T stamp = Done (tr, g') ->
       exists sm',
         at_ (online_submaps_ g') id = Done sm' /\
         within (submap_size (params_ g)) (translation T)
           (translation (T_WORLD_SUBMAP_INIT sm')) = true) /\
    (forall prev cur,
       at_ (online_submaps_ g) (size (online_submaps_ g) - 2) = Done prev ->
       at_ (online_submaps_ g) (size (online_submaps_ g) - 1) = Done cur ->
       within (submap_size (params_ g)) (translation T)
         (translation (T_WORLD_SUBMAP_INIT prev)) = true ->
       within (submap_size (params_ g)) (translation T)
         (translation (T_WORLD_SUBMAP_INIT cur)) = true ->
       id = size (online_submaps_ g) - 2) /\
    ((forall cur,
        at_ (online_submaps_ g) (size (online_submaps_ g) - 1) = Done cur ->
        within (submap_size (params_ g)) (translation T)
          (translation (T_WORLD_SUBMAP_INIT cur)) = false) ->
     (forall prev,
        at_ (online_submaps_ g) (size (online_submaps_ g) - 2) = Done prev ->
        within (submap_size (params_ g)) (translation T)
          (translation (T_WORLD_SUBMAP_INIT prev)) = false) ->
     id = size (online_submaps_ g)).
Proof.
  intros Hpos.
  destruct (GetSubmapId_returns g T) as (id & Hid & Hrange).
  pose proof (GetSubmapId_cases g T id Hid) as Hcases.
  exists id. split; [exact Hid|].
  assert (Hnear : exists sm,
             at_ (if id =? size (online_submaps_ g)
                  then online_submaps_ g ++ [Submap_new stamp T]
                  else online_submaps_ g) id = Done sm /\
             within (submap_size (params_ g)) (translation T)
               (translation (T_WORLD_SUBMAP_INIT sm)) = true).
  { assert (Hnew : id = size (online_submaps_ g) ->
                   exists sm,
                     at_ (if id =? size (online_submaps_ g)
                          then online_submaps_ g ++ [Submap_new stamp T]
                          else online_submaps_ g) id = Done sm /\
                     within (submap_size (params_ g)) (translation T)
                       (translation (T_WORLD_SUBMAP_INIT sm)) = true).
    { intros ->. rewrite Z.eqb_refl. exists (Submap_new stamp T).
      split; [apply at_snoc | apply within_self; exact Hpos]. }
    assert (Hold : forall sm,
               id < size (online_submaps_ g) ->
               at_ (online_submaps_ g) id = Done sm ->
               within (submap_size (params_ g)) (translation T)
                 (translation (T_WORLD_SUBMAP_INIT sm)) = true ->
               exists sm0,
                 at_ (if id =? size (online_submaps_ g)
                      then online_submaps_ g ++ [Submap_new stamp T]
                      else online_submaps_ g) id = Done sm0 /\
                 within (submap_size (params_ g)) (translation T)
                   (translation (T_WORLD_SUBMAP_INIT sm0)) = true).
    { intros sm Hlt Hat Hw.
      assert (Hne : (id =? size (online_submaps_ g)) = false) by lia.
      rewrite Hne. exists sm. split; assumption. }
    destruct Hcases as [[Hempty ->] | [(cur & Hcur & Hone & Hif) | (prev & cur & Hprev & Hcur & Hif)]].
    - apply Hnew. rewrite Hempty. reflexivity.
    - destruct (within _ _ _) eqn:Hw.
      + subst id. apply (Hold cur); [lia | | exact Hw].
        rewrite Hone in Hcur. exact Hcur.
      + apply Hnew. lia.
    - destruct (within _ _ (translation (T_WORLD_SUBMAP_INIT prev))) eqn:Hwp.
      + subst id. apply (Hold prev); [lia | exact Hprev | exact Hwp].
      + destruct (within _ _ (translation (T_WORLD_SUBMAP_INIT cur))) eqn:Hwc.
        * subst id. apply (Hold cur); [lia | exact Hcur | exact Hwc].
        * apply Hnew. exact Hif. }
  split; [exact Hnear|]. split; [|split].
  - intros cam lid tr g' Hadd.
    unfold AddMeasurement in Hadd. rewrite Hid in Hadd. cbn [bind] in Hadd.
    destruct (open_submap g id T stamp) as [[tr1 g1]| | |] eqn:Hopen; cbn [bind] in Hadd;
      try discriminate.
    destruct (store_measurements g1 id cam lid T stamp) as [g2| | |] eqn:Hstore;
      cbn [bind] in Hadd; try discriminate.
    inversion Hadd; subst; clear Hadd.
    apply open_submap_online in Hopen. apply store_measurements_anchors in Hstore.
    destruct Hnear as (sm & Hat & Hw). rewrite <- Hopen in Hat.
    destruct (at_same_anchors _ _ _ _ Hstore Hat) as (sm' & Hat' & Heq).
    exists sm'. split; [exact Hat'|]. rewrite Heq. exact Hw.
  - intros prev cur Hprev Hcur Hwp Hwc.
    destruct Hcases as [[Hempty _] | [(cur' & Hcur' & Hone & _) | (prev' & cur' & Hprev' & Hcur' & Hif)]].
    + rewrite Hempty in Hcur. discriminate.
    + apply at_range in Hprev. lia.
    + rewrite Hprev in Hprev'. inversion Hprev'; subst prev'.
      rewrite Hwp in Hif. exact Hif.
  - intros Hcur Hprev.
    destruct Hcases as [[Hempty ->] | [(cur' & Hcur' & Hone & Hif) | (prev' & cur' & Hprev' & Hcur' & Hif)]].
    + rewrite Hempty. reflexivity.
    + rewrite (Hcur _ Hcur') in Hif. lia.
    + rewrite (Hprev _ Hprev'), (Hcur _ Hcur') in Hif. exact Hif.
Qed.

Lemma measurement_goes_to_near_submap_witness :
  exists id,
    GetSubmapId (map_of (submaps_along_x 2 8)) (pose_at 5 0 0) = Done id /\
    id = 0 /\
    exists sm,
      at_ (map_of (submaps_along_x 2 8)).(online_submaps_) id = Done sm /\
      within 10 (mkVector3d 5 0 0) (translation (T_WORLD_SUBMAP_INIT sm)) = true.
Proof.
  destruct (measurement_goes_to_near_submap
              (search := search_answering []) (refinement := accepting_refinement)
              (map_of (submaps_along_x 2 8)) (pose_at 5 0 0) 2)
    as (id & Hid & Hnear & _ & Hboth & _).
  - reflexivity.
  - assert (Hzero : id = 0).
    { apply (Hboth (Submap_new 0 (pose_at 0 0 0)) (Submap_new 1 (pose_at 8 0 0)));
        reflexivity. }
    exists id. split; [exact Hid|]. split; [exact Hzero|].
    subst id. exact Hnear.
Defined.

(** *** C5: loop closure *)

Lemma refined_entries_far (query_index : Z) (matched_indices : list Z)
    (Ts_MATCH_QUERY : list Matrix4d) :
  Forall (fun e => fst e <> query_index /\ fst e <> query_index - 1 /\
                   fst e <> query_index + 1)
         (refined_entries query_index (matched_indices_filtered query_index matched_indices)
            Ts_MATCH_QUERY).
Proof.
  apply Forall_forall. intros [m T] Hin.
  unfold refined_entries in Hin. apply filter_In in Hin. destruct Hin as [Hin Hsecond].
  apply in_combine_l in Hin.
  unfold matched_indices_filtered in Hin. apply filter_In in Hin. destruct Hin as [_ Hfirst].
  cbn [fst] in *. lia.
Qed.

Lemma fold_addInvolvedStamp_constraints (stamps : list RosTime) (tr : Transaction) :
  added_constraints (fold_left addInvolvedStamp stamps tr) = added_constraints tr.
Proof.
  revert tr. induction stamps as [|x rest IH]; intros tr; simpl; [reflexivity|].
  now rewrite IH.
Qed.

Lemma fold_addConstraint_constraints (cs : list Constraint) (tr : Transaction) :
  added_constraints (fold_left (fun x c => addConstraint x c false) cs tr)
  = added_constraints tr ++ cs.
Proof.
  revert tr. induction cs as [|c rest IH]; intros tr; simpl.
  - now rewrite app_nil_r.
  - rewrite IH. cbn [added_constraints addConstraint]. now rewrite <- app_assoc.
Qed.

Lemma fold_addVariable_constraints (vs : list StampedVariable) (tr : Transaction) :
  added_constraints (fold_left (fun x y => addVariable x y false) vs tr) = added_constraints tr.
Proof.
  revert tr. induction vs as [|x rest IH]; intros tr; simpl; [reflexivity|].
  now rewrite IH.
Qed.

Lemma merge_constraints (tr other : Transaction) :
  added_constraints (merge tr other) = added_constraints tr ++ added_constraints other.
Proof.
  unfold merge.
  rewrite fold_addVariable_constraints, fold_addConstraint_constraints,
    fold_addInvolvedStamp_constraints.
  reflexivity.
Qed.

Lemma GenerateTransaction_constraints {refinement : RelocRefinement} (covariance : Matrix6d)
    (matched_submap query_submap : Submap) (T_est : Matrix4d) (nt : Transaction) :
  GenerateTransaction covariance matched_submap query_submap T_est = Some nt ->
  exists T,
    added_constraints nt
    = [RelativePose3DStampedConstraint "RELOC" (Stamp matched_submap) (Stamp query_submap) T
         covariance].
Proof.
  unfold GenerateTransaction.
  destruct (RefineSubmaps matched_submap query_submap T_est) as [T|]; [|discriminate].
  intros H. inversion H; subst; clear H. exists T. reflexivity.
Qed.

Lemma refine_entries_from_far {refinement : RelocRefinement} (g : GlobalMap) (q : Z)
    (entries : list (Z * Matrix4d)) (tr0 tr : Transaction) :
  Forall (fun e => fst e <> q /\ fst e <> q - 1 /\ fst e <> q + 1) entries ->
  (forall c, In c (added_constraints tr0) -> from_far_match g q c) ->
  refine_entries g q entries tr0 = Done tr ->
  forall c, In c (added_constraints tr) -> from_far_match g q c.
Proof.
  revert tr0. induction entries as [|[m T] more IH]; intros tr0 Hfar H0 Hrun.
  - simpl in Hrun. inversion Hrun; subst. exact H0.
  - inversion Hfar as [|e l Hm Hmore]; subst. cbn [fst] in Hm.
    simpl in Hrun.
    destruct (at_ (online_submaps_ g) m) as [sm| | |] eqn:Hsm; cbn [bind] in Hrun;
      try discriminate.
    destruct (at_ (online_submaps_ g) q) as [sq| | |] eqn:Hsq; cbn [bind] in Hrun;
      try discriminate.
    eapply IH; [exact Hmore | | exact Hrun].
    destruct (GenerateTransaction _ sm sq T) as [nt|] eqn:Hgen; [|exact H0].
    intros c Hc. rewrite merge_constraints in Hc. apply in_app_or in Hc.
    destruct Hc as [Hc | Hc]; [exact (H0 c Hc)|].
    destruct (GenerateTransaction_constraints _ _ _ _ _ Hgen) as (T' & Hnt).
    rewrite Hnt in Hc. destruct Hc as [<- | []].
    exists m, sm, sq, T'. repeat split; try tauto; assumption.
Qed.

(** C5: the entries the refinement is run on are never the query, the one
    before it or the one after it; and every constraint of the transaction a
    loop closure returns is the relative-pose constraint of such a match with
    the query. *)
Theorem loop_closure_skips_neighbours
    {search : RelocCandidateSearch} {refinement : RelocRefinement}
    (g g' : GlobalMap) (query_index : Z) (tr : Transaction) :
  RunLoopClosure g query_index = Done (Some tr, g') ->
  (forall candidates : list (Z * Matrix4d),
     Forall (fun e => fst e <> query_index /\ fst e <> query_index - 1 /\
                      fst e <> query_index + 1)
            (refined_entries query_index
               (matched_indices_filtered query_index (map fst candidates))
               (map snd candidates))) /\
  (forall c, In c (added_constraints tr) -> from_far_match g query_index c).
Proof.
  intros Hrun. split; [intros candidates; apply refined_entries_far|].
  unfold RunLoopClosure in Hrun.
  destruct (size (online_submaps_ g) =? 1); [discriminate|].
  destruct (at_ (online_submaps_ g) query_index) as [query| | |]; cbn [bind] in Hrun;
    try discriminate.
  destruct (size _ =? 0); [discriminate|].
  destruct (refine_entries _ _ _ _) as [transaction| | |] eqn:Hloop; cbn [bind] in Hrun;
    try discriminate.
  assert (Htr : tr = transaction).
  { destruct (GetNumberOfConstraints transaction >? 0); now inversion Hrun. }
  subst tr.
  eapply refine_entries_from_far; [apply refined_entries_far | | exact Hloop].
  intros c [].
Qed.

Lemma loop_closure_skips_neighbours_witness :
  exists tr g',
    RunLoopClosure
      (search := search_answering
                   [(3, Identity4); (4, Identity4); (2, Identity4); (1, Identity4); (0, Identity4)])
      (refinement := accepting_refinement)
      (map_of (submaps_along_x 5 10)) 3 = Done (Some tr, g') /\
    GetNumberOfConstraints tr = 2 /\
    forall c, In c (added_constraints tr) -> from_far_match (map_of (submaps_along_x 5 10)) 3 c.
Proof.
  destruct (RunLoopClosure
              (search := search_answering
                           [(3, Identity4); (4, Identity4); (2, Identity4); (1, Identity4);
                            (0, Identity4)])
              (refinement := accepting_refinement)
              (map_of (submaps_along_x 5 10)) 3)
    as [[[tr|] g']| | |] eqn:Hrun; try (vm_compute in Hrun; discriminate).
  exists tr, g'. split; [reflexivity|]. split.
  - vm_compute in Hrun. inversion Hrun. reflexivity.
  - exact (proj2 (loop_closure_skips_neighbours _ _ _ _ Hrun)).
Defined.

(** *** C6: relocalization *)

(** The offline pass answers "no update" when its first candidate is the
    active offline submap. *)
Lemma offline_active_match_is_no_update {refinement : RelocRefinement} (g : GlobalMap)
    (T_WORLDLM_QUERY : Matrix4d) (cloud : list Vector3d) (loam : LoamPointCloud)
    (submap_index : Z) (T_init : Matrix4d) (more : list (Z * Matrix4d)) :
  active_submap_id_ g = submap_index ->
  active_submap_type_ g = OFFLINE ->
  search_offline g T_WORLDLM_QUERY cloud loam ((submap_index, T_init) :: more)
  = Done (Returned None g).
Proof.
  intros Hid Hty. simpl. rewrite Hid, Hty, Z.eqb_refl. reflexivity.
Qed.

(** The online pass files the submap it sends as an offline one. *)
Lemma online_match_is_filed_offline {refinement : RelocRefinement} (g g' : GlobalMap)
    (cloud : list Vector3d) (loam : LoamPointCloud) (candidates : list (Z * Matrix4d))
    (submap_msg : SubmapMsg) :
  search_online g cloud loam candidates = Done (Returned (Some submap_msg) g') ->
  active_submap_type_ g' = OFFLINE.
Proof.
  induction candidates as [|[k T] more IH]; simpl; [discriminate|].
  destruct ((active_submap_id_ g =? k) && SubmapType_eqb (active_submap_type_ g) ONLINE);
    [discriminate|].
  destruct (at_ (online_submaps_ g) k) as [sm| | |]; cbn [bind]; try discriminate.
  destruct (GetRefinedPose T sm cloud loam) as [Tr|]; [|exact IH].
  intros H. inversion H. reflexivity.
Qed.

(** C6 does not hold of the code on the online side: with one online submap,
    no offline submap, a search that answers submap 0 and a refinement that
    succeeds, the first request sends submap 0 and files it as the active
    submap of type [OFFLINE]; the same request made again finds submap 0 in
    the online table, is not stopped by the test for an active [ONLINE]
    submap, and sends it again. *)
Theorem online_match_is_sent_again :
  exists submap_msg g1,
    ProcessRelocRequest (search := search_answering [(0, Identity4)])
      (refinement := accepting_refinement)
      (map_of (submaps_along_x 1 10)) (request_at 1 0 0) = Done (Some submap_msg, g1) /\
    active_submap_id_ g1 = 0 /\
    active_submap_type_ g1 = OFFLINE /\
    ProcessRelocRequest (search := search_answering [(0, Identity4)])
      (refinement := accepting_refinement)
      g1 (request_at 1 0 0) = Done (Some submap_msg, g1).
Proof.
  eexists. eexists. split; [vm_compute; reflexivity|].
  split; [reflexivity|]. split; [reflexivity|].
  vm_compute. reflexivity.
Qed.

End GlobalMapFacts.

(* ------------------------------------------------------------------ *)
(** ** ImuPreintegration: what the operations keep and how they compose *)

Module ImuSessionFacts.

Import Eigen Ros Imu ImuSession.

Lemma pop_before_split (t_start : RosTime) (buffer remaining : list IMUData) :
  pop_before t_start buffer = Done remaining ->
  exists dropped d rest,
    buffer = dropped ++ remaining /\
    Forall (fun x => t x < t_start) dropped /\
    remaining = d :: rest /\ t_start <= t d.
Proof.
  induction buffer as [|x more IH]; simpl; intros H; [discriminate|].
  destruct (t_start >? t x) eqn:G.
  - destruct (IH H) as (dropped & d & rest & Hb & Hold & Hr & Hd).
    exists (x :: dropped), d, rest. repeat split; try assumption.
    + simpl. now rewrite Hb.
    + constructor; [lia | assumption].
  - inversion H; subst. exists [], x, more. repeat split; [constructor | lia].
Qed.

(** X1: a [SetStart] that returns drops from the front of each queue only
    samples older than [t_start] and leaves a sample stamped [t_start] or
    later at the front (a sample stamped [t_start] itself is kept); the anchor
    is stamped [t_start], takes the values given (identity and zero for those
    not given) and the stored biases, and state k is the anchor. *)
Theorem SetStart_keeps_samples_from_start
    (s s' : ImuPreintegration) (t_start : RosTime)
    (R_WORLD_IMU : option Matrix3d) (t_WORLD_IMU velocity : option Vector3d) :
  SetStart s t_start R_WORLD_IMU t_WORLD_IMU velocity = Done s' ->
  (exists dropped d rest,
     current_imu_data_buffer_ s = dropped ++ current_imu_data_buffer_ s' /\
     Forall (fun x => t x < t_start) dropped /\
     current_imu_data_buffer_ s' = d :: rest /\ t_start <= t d) /\
  (exists dropped d rest,
     total_imu_data_buffer_ s = dropped ++ total_imu_data_buffer_ s' /\
     Forall (fun x => t x < t_start) dropped /\
     total_imu_data_buffer_ s' = d :: rest /\ t_start <= t d) /\
  imu_state_i_ s' =
    mkImuState t_start
      (match R_WORLD_IMU with Some q => q | None => Identity3 end)
      (match t_WORLD_IMU with Some p => p | None => Zero3 end)
      (match velocity with Some vel => vel | None => Zero3 end)
      (bg_ s) (ba_ s) /\
  imu_state_k_ s' = imu_state_i_ s' /\
  first_window_ s' = first_window_ s /\
  pre_integrator_ij s' = pre_integrator_ij s.
Proof.
  unfold SetStart. intros H.
  destruct (pop_before t_start (current_imu_data_buffer_ s)) as [cur| | |] eqn:Hc;
    cbn [bind] in H; try discriminate.
  destruct (pop_before t_start (total_imu_data_buffer_ s)) as [tot| | |] eqn:Ht;
    cbn [bind] in H; try discriminate.
  inversion H; subst; clear H.
  split; [exact (pop_before_split _ _ _ Hc)|].
  split; [exact (pop_before_split _ _ _ Ht)|].
  destruct R_WORLD_IMU, t_WORLD_IMU, velocity; repeat split; reflexivity.
Qed.

Lemma SetStart_keeps_samples_from_start_witness :
  exists s',
    SetStart (with_samples [10; 20; 30]) 20 None None None = Done s' /\
    imu_state_k_ s' = imu_state_i_ s' /\
    Stamp (imu_state_i_ s') = 20.
Proof.
  assert (H : exists s', SetStart (with_samples [10; 20; 30]) 20 None None None = Done s')
    by (eexists; vm_compute; reflexivity).
  destruct H as (s' & H).
  destruct (SetStart_keeps_samples_from_start _ _ _ _ _ _ H) as (_ & _ & Hi & Hk & _).
  exists s'. split; [exact H|]. split; [exact Hk|]. rewrite Hi. reflexivity.
Defined.

(** X2: a [GetPose] that succeeds loses no sample: the samples it takes off
    the current queue go, in order, behind those the integrator of the
    interval i-j already holds.  It writes the pose of the new state k, and
    leaves alone the anchor, the total queue, the increment of that
    integrator and the pending first window. *)
Theorem GetPose_moves_samples_to_integrator {impl : PreIntegratorImpl}
    (s s' : ImuPreintegration) (t_now : RosTime) (T_WORLD_IMU : Matrix4d) :
  GetPose s t_now = Done (Some T_WORLD_IMU, s') ->
  data (pre_integrator_ij s') ++ current_imu_data_buffer_ s'
    = data (pre_integrator_ij s) ++ current_imu_data_buffer_ s /\
  (exists moved,
     data (pre_integrator_ij s') = data (pre_integrator_ij s) ++ moved /\
     Forall (fun x => t x < t_now) moved) /\
  T_WORLD_IMU = pose_of (imu_state_k_ s') /\
  imu_state_i_ s' = imu_state_i_ s /\
  total_imu_data_buffer_ s' = total_imu_data_buffer_ s /\
  delta (pre_integrator_ij s') = delta (pre_integrator_ij s) /\
  first_window_ s' = first_window_ s.
Proof.
  unfold GetPose. intros H.
  destruct (current_imu_data_buffer_ s) as [|d rest] eqn:Hbuf; [discriminate|].
  cbn [front bind] in H.
  destruct (t_now <? t d); [discriminate|].
  destruct (drain t_now (d :: rest)) as [[moved remaining]| | |] eqn:Hdrain;
    cbn [bind] in H; try discriminate.
  inversion H; subst; clear H.
  destruct (ImuFacts.drain_split _ _ _ _ Hdrain) as (Hsplit & Hold & _).
  cbn [pre_integrator_ij set_imu_state_k set_current_buffer set_pre_integrator_ij
       current_imu_data_buffer_ data set_data imu_state_i_ total_imu_data_buffer_ delta
       first_window_ imu_state_k_].
  split; [rewrite Hsplit; now rewrite app_assoc|].
  split; [exists moved; split; [reflexivity | exact Hold]|].
  repeat split; reflexivity.
Qed.

Lemma GetPose_moves_samples_to_integrator_witness :
  exists T s',
    GetPose (with_samples [10; 20; 30]) 25 = Done (Some T, s') /\
    data (pre_integrator_ij s') ++ current_imu_data_buffer_ s'
      = [sample_at 10; sample_at 20; sample_at 30].
Proof.
  assert (H : exists T s', GetPose (with_samples [10; 20; 30]) 25 = Done (Some T, s'))
    by (eexists; eexists; vm_compute; reflexivity).
  destruct H as (T & s' & H).
  exists T, s'. split; [exact H|].
  exact (proj1 (GetPose_moves_samples_to_integrator _ _ _ _ H)).
Defined.

(** What a registration leaves behind. *)
Lemma Register_outcome {impl : PreIntegratorImpl}
    (s s' : ImuPreintegration) (t_now : RosTime)
    (R_WORLD_IMU : option Matrix3d) (t_WORLD_IMU : option Vector3d)
    (tr : option ImuState3DStampedTransaction) :
  RegisterNewImuPreintegratedFactor s t_now R_WORLD_IMU t_WORLD_IMU = Done (tr, s') ->
  (tr = None /\ s' = s) \/
  (exists x,
     tr = Some x /\
     transaction_stamp x = t_now /\
     first_window_ s' = false /\
     data (pre_integrator_ij s') = [] /\
     delta (pre_integrator_ij s') = Delta_rest /\
     imu_state_k_ s' = imu_state_i_ s' /\
     exists j pre,
       items x =
         (if first_window_ s
          then [PriorImuStateConstraint (imu_state_i_ s) (cov_prior_noise (params_ s))
                  "FIRST_IMU_STATE_PRIOR";
                ImuStateVariables (imu_state_i_ s)]
          else [])
         ++ [RelativeImuStateConstraint (imu_state_i_ s) j pre; ImuStateVariables j]).
Proof.
  unfold RegisterNewImuPreintegratedFactor.
  destruct (current_imu_data_buffer_ s) as [|d rest] eqn:Hbuf; [discriminate|].
  cbn [front bind].
  destruct (t_now <? t d); [intros H; inversion H; left; split; reflexivity|].
  destruct (first_window_ s) eqn:FW;
    cbn [current_imu_data_buffer_ set_first_window];
    (destruct (populate t_now (current_imu_data_buffer_ s)) as [[moved remaining]| | |];
       cbn [bind]; try discriminate);
    (match goal with
     | |- context [pop_before ?x ?y] => destruct (pop_before x y); cbn [bind]; try discriminate
     end);
    intros Heq; inversion Heq; subst; clear Heq; right;
    eexists; (split; [reflexivity|]);
    (split; [reflexivity|]); (split; [first [reflexivity | exact FW]|]);
    (split; [reflexivity|]); (split; [reflexivity|]); (split; [reflexivity|]);
    eexists; eexists; reflexivity.
Qed.

(** X3: a registration that returns a transaction stamps it [t_now], closes
    the first window, empties the integrator of the interval i-j and puts its
    increment back to rest, and makes state k the new anchor.  The transaction
    holds the relative constraint from the old anchor and the variables of
    state j, in that order; before them, and only when the first window was
    pending, the prior on the old anchor with [cov_prior_noise] and the
    variables of the old anchor. *)
Theorem Register_closes_the_interval {impl : PreIntegratorImpl}
    (s s' : ImuPreintegration) (t_now : RosTime)
    (R_WORLD_IMU : option Matrix3d) (t_WORLD_IMU : option Vector3d)
    (tr : ImuState3DStampedTransaction) :
  RegisterNewImuPreintegratedFactor s t_now R_WORLD_IMU t_WORLD_IMU = Done (Some tr, s') ->
  transaction_stamp tr = t_now /\
  first_window_ s' = false /\
  data (pre_integrator_ij s') = [] /\
  delta (pre_integrator_ij s') = Delta_rest /\
  imu_state_k_ s' = imu_state_i_ s' /\
  exists j pre,
    items tr =
      (if first_window_ s
       then [PriorImuStateConstraint (imu_state_i_ s) (cov_prior_noise (params_ s))
               "FIRST_IMU_STATE_PRIOR";
             ImuStateVariables (imu_state_i_ s)]
       else [])
      ++ [RelativeImuStateConstraint (imu_state_i_ s) j pre; ImuStateVariables j].
Proof.
  intros H. destruct (Register_outcome _ _ _ _ _ _ H) as [[Hnone _] | (x & Hx & Hrest)].
  - discriminate.
  - inversion Hx; subst x. exact Hrest.
Qed.

Lemma Register_closes_the_interval_witness :
  exists tr s',
    RegisterNewImuPreintegratedFactor (with_samples [10; 20; 30]) 25 None None
      = Done (Some tr, s') /\
    first_window_ s' = false /\
    List.length (items tr) = 4%nat.
Proof.
  assert (H : exists tr s',
             RegisterNewImuPreintegratedFactor (with_samples [10; 20; 30]) 25 None None
             = Done (Some tr, s'))
    by (eexists; eexists; vm_compute; reflexivity).
  destruct H as (tr & s' & H).
  destruct (Register_closes_the_interval _ _ _ _ _ _ H)
    as (_ & Hfw & _ & _ & _ & j & pre & Hitems).
  exists tr, s'. split; [exact H|]. split; [exact Hfw|].
  rewrite Hitems. reflexivity.
Defined.

(** *** Sequences of requests *)

Lemma UpdateGraph_first_window (s : ImuPreintegration) (g : Graph) :
  first_window_ (UpdateGraph s g) = first_window_ s.
Proof.
  unfold UpdateGraph.
  destruct (position g _); [|reflexivity].
  cbn [imu_state_i_ set_imu_state_i].
  destruct (orientation g _); [|reflexivity].
  destruct (velocity g _); [|reflexivity].
  destruct (gyrobias g _); [|reflexivity].
  destruct (accelbias g _); reflexivity.
Qed.

(** One request emits the prior only by closing the first window. *)
Lemma serve_prior {impl : PreIntegratorImpl} (s s1 : ImuPreintegration) (r : Request)
    (tr : option ImuState3DStampedTransaction) :
  serve s r = Done (tr, s1) ->
  (first_window_ s1 = first_window_ s /\
   priors (match tr with Some x => [x] | None => [] end) = []) \/
  (first_window_ s = true /\ first_window_ s1 = false /\
   List.length (priors (match tr with Some x => [x] | None => [] end)) = 1%nat).
Proof.
  destruct r; cbn [serve].
  - intros H. inversion H. left. split; reflexivity.
  - intros H. inversion H. left. split; reflexivity.
  - destruct (SetStart s t_start R_WORLD_IMU t_WORLD_IMU velocity0) as [s0| | |] eqn:E;
      cbn [bind]; try discriminate.
    intros H. inversion H; subst. left. split; [|reflexivity].
    unfold SetStart in E.
    destruct (pop_before _ (current_imu_data_buffer_ s)); cbn [bind] in E; try discriminate.
    destruct (pop_before _ (total_imu_data_buffer_ s)); cbn [bind] in E; try discriminate.
    inversion E. reflexivity.
  - destruct (GetPose s t_now) as [[T s0]| | |] eqn:E; cbn [bind]; try discriminate.
    intros H. inversion H; subst. left. split; [|reflexivity].
    unfold GetPose in E.
    destruct (current_imu_data_buffer_ s) as [|d rest]; [discriminate|].
    cbn [front bind] in E.
    destruct (t_now <? t d); [inversion E; reflexivity|].
    destruct (drain t_now (d :: rest)) as [[moved remaining]| | |]; cbn [bind] in E;
      try discriminate.
    inversion E. reflexivity.
  - intros H.
    destruct (Register_outcome _ _ _ _ _ _ H)
      as [[-> ->] | (x & -> & _ & Hfw & _ & _ & _ & j & pre & Hitems)].
    + left. split; reflexivity.
    + unfold priors. cbn [flat_map]. rewrite app_nil_r, Hitems.
      destruct (first_window_ s) eqn:FW.
      * right. split; [reflexivity|]. split; [exact Hfw|]. reflexivity.
      * left. split; [exact Hfw|]. reflexivity.
  - intros H. inversion H. left. split; [apply UpdateGraph_first_window | reflexivity].
Qed.

Lemma priors_app (xs ys : list ImuState3DStampedTransaction) :
  priors (xs ++ ys) = priors xs ++ priors ys.
Proof. unfold priors. now rewrite flat_map_app, filter_app. Qed.

(** X4: over any sequence of requests that all return (pushes, starts, pose
    requests, registrations, graph updates, buffer clearings, in any order),
    the transactions returned hold at most one prior constraint between them,
    and none once the first window has been closed, which no request opens
    again. *)
Theorem prior_is_emitted_at_most_once {impl : PreIntegratorImpl}
    (requests : list Request) (s s' : ImuPreintegration)
    (trs : list ImuState3DStampedTransaction) :
  run s requests = Done (trs, s') ->
  (List.length (priors trs) <= 1)%nat /\
  (first_window_ s = false -> priors trs = [] /\ first_window_ s' = false) /\
  (first_window_ s' = true -> priors trs = []).
Proof.
  revert s trs. induction requests as [|r more IH]; intros s trs H; simpl in H.
  - inversion H; subst. repeat split; auto.
  - destruct (serve s r) as [[tr s1]| | |] eqn:Hserve; cbn [bind] in H; try discriminate.
    destruct (run s1 more) as [[trs1 s2]| | |] eqn:Hrun; cbn [bind] in H; try discriminate.
    inversion H; subst; clear H.
    destruct (IH _ _ Hrun) as (Hle & Hclosed & Hopen).
    assert (Hsplit : priors (match tr with Some x => x :: trs1 | None => trs1 end)
                     = priors (match tr with Some x => [x] | None => [] end) ++ priors trs1).
    { destruct tr; [apply (priors_app [i] trs1) | reflexivity]. }
    rewrite Hsplit.
    destruct (serve_prior _ _ _ _ Hserve) as [[Hsame Hnone] | (Hwas & Hnow & Hone)].
    + rewrite Hnone. cbn [app]. split; [exact Hle|]. split.
      * intros Hs. apply Hclosed. congruence.
      * exact Hopen.
    + destruct (Hclosed Hnow) as [Hno Hend]. rewrite Hno, app_nil_r.
      split; [lia|]. split; [congruence|]. congruence.
Qed.

Lemma prior_is_emitted_at_most_once_witness :
  exists trs s',
    run example_start
        [ReqAddToBuffer (sample_at 10); ReqAddToBuffer (sample_at 20); ReqClearBuffer;
         ReqUpdateGraph
           (mkGraph (fun _ => Some Zero3) (fun _ => Some Identity3) (fun _ => Some Zero3)
              (fun _ => Some Zero3) (fun _ => Some Zero3));
         ReqRegister 15 None None; ReqAddToBuffer (sample_at 30); ReqGetPose 20;
         ReqRegister 25 None None]
      = Done (trs, s') /\
    (List.length (priors trs) <= 1)%nat.
Proof.
  assert (H : exists trs s',
             run example_start
               [ReqAddToBuffer (sample_at 10); ReqAddToBuffer (sample_at 20); ReqClearBuffer;
                ReqUpdateGraph
                  (mkGraph (fun _ => Some Zero3) (fun _ => Some Identity3)
                     (fun _ => Some Zero3) (fun _ => Some Zero3) (fun _ => Some Zero3));
                ReqRegister 15 None None; ReqAddToBuffer (sample_at 30); ReqGetPose 20;
                ReqRegister 25 None None] = Done (trs, s'))
    by (eexists; eexists; vm_compute; reflexivity).
  destruct H as (trs & s' & H).
  exists trs, s'. split; [exact H|].
  exact (proj1 (prior_is_emitted_at_most_once _ _ _ _ H)).
Defined.

(** *** A pose request before a registration *)

Lemma drain_twice (t1 t2 : RosTime) (buffer moved remaining : list IMUData) :
  drain t1 buffer = Done (moved, remaining) ->
  t1 <= t2 ->
  drain t2 buffer
  = ('(moved2, remaining2) <- drain t2 remaining ;; Done (moved ++ moved2, remaining2)).
Proof.
  revert moved. induction buffer as [|d rest IH]; intros moved H Hle; simpl in H;
    [discriminate|].
  destruct (t1 >? t d) eqn:G.
  - destruct (drain t1 rest) as [[m r]| | |] eqn:E; cbn [bind] in H; try discriminate.
    inversion H; subst; clear H.
    simpl. assert (G2 : (t2 >? t d) = true) by lia. rewrite G2.
    rewrite (IH m eq_refl Hle).
    destruct (drain t2 remaining) as [[m2 r2]| | |]; reflexivity.
  - inversion H; subst; clear H. cbn [app].
    destruct (drain t2 (d :: rest)) as [[m2 r2]| | |]; reflexivity.
Qed.

(** X5: a pose request does not change what the next registration does.  When
    [GetPose(t1)] has succeeded and the sample it left at the front of the
    current queue is not later than [t2], with [t1 <= t2], the registration at
    [t2] returns the same transaction and leaves the same preintegrator as it
    would have without the pose request. *)
Theorem GetPose_then_Register {impl : PreIntegratorImpl}
    (s s1 : ImuPreintegration) (t1 t2 : RosTime) (T_WORLD_IMU : Matrix4d)
    (d1 : IMUData) (rest1 : list IMUData)
    (R_WORLD_IMU : option Matrix3d) (t_WORLD_IMU : option Vector3d) :
  GetPose s t1 = Done (Some T_WORLD_IMU, s1) ->
  t1 <= t2 ->
  current_imu_data_buffer_ s1 = d1 :: rest1 ->
  t d1 <= t2 ->
  RegisterNewImuPreintegratedFactor s1 t2 R_WORLD_IMU t_WORLD_IMU
  = RegisterNewImuPreintegratedFactor s t2 R_WORLD_IMU t_WORLD_IMU.
Proof.
  intros Hget Hle Hbuf1 Hfront.
  unfold GetPose in Hget.
  destruct (current_imu_data_buffer_ s) as [|d rest] eqn:Hbuf; [discriminate|].
  cbn [front bind] in Hget.
  destruct (t1 <? t d) eqn:G1; [discriminate|].
  destruct (drain t1 (d :: rest)) as [[moved remaining]| | |] eqn:Hdrain;
    cbn [bind] in Hget; try discriminate.
  inversion Hget; subst s1; clear Hget.
  cbn [current_imu_data_buffer_ set_imu_state_k set_current_buffer] in Hbuf1. subst remaining.
  unfold RegisterNewImuPreintegratedFactor.
  cbn [current_imu_data_buffer_ set_imu_state_k set_current_buffer set_pre_integrator_ij
       first_window_].
  rewrite Hbuf. cbn [front bind].
  assert (Ga : (t2 <? t d1) = false) by lia.
  assert (Gb : (t2 <? t d) = false) by lia.
  rewrite Ga, Gb.
  destruct (first_window_ s);
    cbn [current_imu_data_buffer_ set_first_window set_imu_state_k set_current_buffer
         set_pre_integrator_ij];
    rewrite Hbuf, !ImuFacts.populate_eq_drain, (drain_twice _ _ _ _ _ Hdrain Hle);
    (destruct (drain t2 (d1 :: rest1)) as [[moved2 remaining2]| | |]; cbn [bind];
       try reflexivity);
    cbn [pre_integrator_ij set_imu_state_k set_current_buffer set_pre_integrator_ij
         set_first_window set_data data imu_state_i_ total_imu_data_buffer_ set_imu_state_i
         delta cov_w cov_a cov_bg cov_ba];
    rewrite <- app_assoc; reflexivity.
Qed.

Lemma GetPose_then_Register_witness :
  exists T s1,
    GetPose (with_samples [10; 20; 30]) 15 = Done (Some T, s1) /\
    RegisterNewImuPreintegratedFactor s1 25 None None
    = RegisterNewImuPreintegratedFactor (with_samples [10; 20; 30]) 25 None None.
Proof.
  assert (H : exists T s1,
             GetPose (with_samples [10; 20; 30]) 15 = Done (Some T, s1) /\
             current_imu_data_buffer_ s1 = sample_at 20 :: [sample_at 30])
    by (eexists; eexists; split; vm_compute; reflexivity).
  destruct H as (T & s1 & H & Hbuf).
  exists T, s1. split; [exact H|].
  apply (GetPose_then_Register _ _ 15 25 T (sample_at 20) [sample_at 30] None None H).
  - lia.
  - exact Hbuf.
  - simpl. lia.
Defined.

(** *** Updates from the graph *)

(** X6: [UpdateGraph] never touches the stamp of the anchor, the total
    queue, the integrator or the pending first window.  When the graph holds
    the five variables of the anchor's stamp, the anchor takes their values,
    the current queue becomes a copy of the total queue, and state k becomes
    the anchor.  When it misses one, the current queue and state k stay as
    they are; the anchor has nevertheless taken the values read before the
    missing one, in the order position, orientation, velocity, gyroscope bias,
    accelerometer bias, and keeps its own values from the missing one on. *)
Theorem UpdateGraph_is_all_or_nothing_but_for_the_anchor
    (s : ImuPreintegration) (graph_msg : Graph) :
  Stamp (imu_state_i_ (UpdateGraph s graph_msg)) = Stamp (imu_state_i_ s) /\
  total_imu_data_buffer_ (UpdateGraph s graph_msg) = total_imu_data_buffer_ s /\
  pre_integrator_ij (UpdateGraph s graph_msg) = pre_integrator_ij s /\
  first_window_ (UpdateGraph s graph_msg) = first_window_ s /\
  (holds_state graph_msg (Stamp (imu_state_i_ s)) = true ->
   Some (PositionVec (imu_state_i_ (UpdateGraph s graph_msg)))
     = position graph_msg (Stamp (imu_state_i_ s)) /\
   Some (OrientationMat (imu_state_i_ (UpdateGraph s graph_msg)))
     = orientation graph_msg (Stamp (imu_state_i_ s)) /\
   Some (VelocityVec (imu_state_i_ (UpdateGraph s graph_msg)))
     = velocity graph_msg (Stamp (imu_state_i_ s)) /\
   Some (GyroBiasVec (imu_state_i_ (UpdateGraph s graph_msg)))
     = gyrobias graph_msg (Stamp (imu_state_i_ s)) /\
   Some (AccelBiasVec (imu_state_i_ (UpdateGraph s graph_msg)))
     = accelbias graph_msg (Stamp (imu_state_i_ s)) /\
   current_imu_data_buffer_ (UpdateGraph s graph_msg) = total_imu_data_buffer_ s /\
   imu_state_k_ (UpdateGraph s graph_msg) = imu_state_i_ (UpdateGraph s graph_msg)) /\
  (holds_state graph_msg (Stamp (imu_state_i_ s)) = false ->
   current_imu_data_buffer_ (UpdateGraph s graph_msg) = current_imu_data_buffer_ s /\
   imu_state_k_ (UpdateGraph s graph_msg) = imu_state_k_ s) /\
  (position graph_msg (Stamp (imu_state_i_ s)) = None -> UpdateGraph s graph_msg = s) /\
  (forall p,
     position graph_msg (Stamp (imu_state_i_ s)) = Some p ->
     PositionVec (imu_state_i_ (UpdateGraph s graph_msg)) = p) /\
  imu_state_i_ (UpdateGraph s graph_msg)
  = match position graph_msg (Stamp (imu_state_i_ s)) with
    | None => imu_state_i_ s
    | Some p =>
        match orientation graph_msg (Stamp (imu_state_i_ s)) with
        | None =>
            mkImuState (Stamp (imu_state_i_ s)) (OrientationMat (imu_state_i_ s)) p
              (VelocityVec (imu_state_i_ s)) (GyroBiasVec (imu_state_i_ s))
              (AccelBiasVec (imu_state_i_ s))
        | Some q =>
            match velocity graph_msg (Stamp (imu_state_i_ s)) with
            | None =>
                mkImuState (Stamp (imu_state_i_ s)) q p (VelocityVec (imu_state_i_ s))
                  (GyroBiasVec (imu_state_i_ s)) (AccelBiasVec (imu_state_i_ s))
            | Some vel =>
                match gyrobias graph_msg (Stamp (imu_state_i_ s)) with
                | None =>
                    mkImuState (Stamp (imu_state_i_ s)) q p vel
                      (GyroBiasVec (imu_state_i_ s)) (AccelBiasVec (imu_state_i_ s))
                | Some bg =>
                    match accelbias graph_msg (Stamp (imu_state_i_ s)) with
                    | None =>
                        mkImuState (Stamp (imu_state_i_ s)) q p vel bg
                          (AccelBiasVec (imu_state_i_ s))
                    | Some ba => mkImuState (Stamp (imu_state_i_ s)) q p vel bg ba
                    end
                end
            end
        end
    end.
Proof.
  unfold UpdateGraph, holds_state.
  destruct (position graph_msg (Stamp (imu_state_i_ s))) as [p|];
    [|repeat split; try reflexivity; try discriminate].
  cbn [imu_state_i_ set_imu_state_i].
  destruct (orientation graph_msg (Stamp (imu_state_i_ s))) as [q|];
    [|repeat split; try reflexivity; try discriminate; simpl; congruence].
  destruct (velocity graph_msg (Stamp (imu_state_i_ s))) as [vel|];
    [|repeat split; try reflexivity; try discriminate; simpl; congruence].
  destruct (gyrobias graph_msg (Stamp (imu_state_i_ s))) as [bg|];
    [|repeat split; try reflexivity; try discriminate; simpl; congruence].
  destruct (accelbias graph_msg (Stamp (imu_state_i_ s))) as [ba|];
    repeat split; try reflexivity; try discriminate; simpl; congruence.
Qed.

(** *** Predictions *)

Lemma toSec_plus (x y : Z) : (toSec (x + y) == toSec x + toSec y)%Q.
Proof. unfold toSec. rewrite inject_Z_plus. field. Qed.

(** X7: predicting over one increment and then, from the state reached, over
    a second one gives the orientation, position, velocity and biases of a
    single prediction over the two increments composed; so does the stamp,
    which is the time asked for when that is not [ros::Time(0)]. *)
Theorem PredictState_composes (pre1 pre2 : PreIntegrator) (x : ImuState) (t1 t2 : RosTime) :
  state_eq (PredictState pre2 (PredictState pre1 x t1) t2)
           (PredictState (with_delta pre1 (compose (delta pre1) (delta pre2))) x t2) /\
  (t2 <> 0 ->
   Stamp (PredictState pre2 (PredictState pre1 x t1) t2)
   = Stamp (PredictState (with_delta pre1 (compose (delta pre1) (delta pre2))) x t2)).
Proof.
  split.
  - unfold state_eq, PredictState, with_delta, compose.
    cbn [delta delta_t delta_q delta_v delta_p OrientationMat PositionVec VelocityVec
         GyroBiasVec AccelBiasVec].
    pose proof (toSec_plus (delta_t (delta pre1)) (delta_t (delta pre2))) as Hsum.
    revert Hsum.
    generalize (toSec (delta_t (delta pre1) + delta_t (delta pre2))).
    generalize (toSec (delta_t (delta pre1))) (toSec (delta_t (delta pre2))).
    generalize GRAVITY_WORLD.
    destruct (delta pre1) as [dt1 [[a1 b1 c1] [d1 e1 f1] [g1 h1 i1]] [v1x v1y v1z] [p1x p1y p1z]].
    destruct (delta pre2) as [dt2 [[a2 b2 c2] [d2 e2 f2] [g2 h2 i2]] [v2x v2y v2z] [p2x p2y p2z]].
    destruct x as [st [[qa qb qc] [qd qe qf] [qg qh qi]] [px py pz] [ux uy uz] bg ba].
    intros [gx gy gz] k1 k2 k12 Hsum.
    cbn [delta_t delta_q delta_v delta_p OrientationMat PositionVec VelocityVec
         GyroBiasVec AccelBiasVec].
    unfold meq, veq, mmul, row_times, mvec, dot, vadd, vscale, col0, col1, col2.
    cbn [vx vy vz r0 r1 r2].
    repeat split; try (rewrite Hsum; ring); try ring.
  - intros Hnz. unfold PredictState; simpl.
    assert (G : (t2 =? 0) = false) by lia. now rewrite G.
Qed.

End ImuSessionFacts.

(* ------------------------------------------------------------------ *)
(** ** Transactions: what a sequence of calls builds *)

Module FuseBuiltFacts.

Import Eigen Ros Fuse FuseBuilt.

Lemma addInvolvedStamp_stamps (tr : Transaction) (s : RosTime) :
  NoDup (involved_stamps tr) ->
  NoDup (involved_stamps (addInvolvedStamp tr s)) /\
  (forall u, In u (involved_stamps (addInvolvedStamp tr s)) <-> In u (involved_stamps tr) \/ u = s).
Proof.
  intros H. unfold addInvolvedStamp; cbn [involved_stamps].
  destruct (existsb (Z.eqb s) (involved_stamps tr)) eqn:E.
  - split; [exact H|]. intros u. split; [tauto|].
    intros [Hu | ->]; [exact Hu|].
    apply existsb_exists in E. destruct E as (y & Hy & Heq).
    assert (s = y) by lia. now subst.
  - split.
    + apply NoDup_app; [exact H | constructor; [intros [] | constructor] |].
      intros u Hu [Hx | []]. subst u.
      assert (Hex : existsb (Z.eqb s) (involved_stamps tr) = true).
      { apply existsb_exists. exists s. split; [exact Hu | lia]. }
      congruence.
    + intros u. rewrite in_app_iff. simpl. intuition congruence.
Qed.

(** What one call does to the four parts of the transaction. *)
Lemma call_effect (b : PoseTransaction) (c : Call) :
  stamp (transaction_ (call b c)) = stamp (transaction_ b) /\
  added_constraints (transaction_ (call b c))
    = added_constraints (transaction_ b) ++ constraints_of c /\
  (NoDup (involved_stamps (transaction_ b)) ->
   NoDup (involved_stamps (transaction_ (call b c))) /\
   forall u, In u (involved_stamps (transaction_ (call b c)))
             <-> In u (involved_stamps (transaction_ b)) \/ In u (stamps_of c)) /\
  (added_variables (transaction_ (call b c)) = [] <->
   added_variables (transaction_ b) = [] /\ stamps_of c = []).
Proof.
  destruct c; cbn [call constraints_of stamps_of].
  1-4: unfold AddPosePrior_noise, AddPosePrior, AddPoseConstraint, AddConstraint,
         with_transaction, addConstraint;
       cbn [transaction_ stamp added_constraints involved_stamps added_variables];
       (split; [reflexivity|]); (split; [reflexivity|]);
       (split; [intros H; split; [exact H | intros u; simpl; tauto] | tauto]).
  unfold AddPoseVariables, with_transaction. cbn [transaction_].
  split; [reflexivity|]. split; [cbn; now rewrite app_nil_r|]. split.
  - intros H. destruct (addInvolvedStamp_stamps (transaction_ b) stamp0 H) as [Hn Hin].
    split; [exact Hn|]. intros u. rewrite (Hin u). simpl. intuition congruence.
  - split.
    + intros H. exfalso. revert H. apply FuseFacts.addVariable_adds.
    + intros [_ H]. discriminate.
Qed.

(** X8: whatever calls are made on a builder, the transaction keeps the stamp
    the builder was constructed with; its constraints are those of the calls,
    one for each [AddPoseConstraint], [AddPosePrior], [AddConstraint] or
    [AddPrior], in the order of the calls; its involved stamps are, without
    repeats, the stamps given to [AddPoseVariables]; and it holds a variable
    exactly when [AddPoseVariables] was called. *)
Theorem built_transaction_contents
    (transaction_stamp : RosTime) (override_constraints override_variables : bool)
    (calls : list Call) :
  stamp (transaction_ (built transaction_stamp override_constraints override_variables calls))
    = transaction_stamp /\
  added_constraints
    (transaction_ (built transaction_stamp override_constraints override_variables calls))
    = flat_map constraints_of calls /\
  NoDup (involved_stamps
           (transaction_ (built transaction_stamp override_constraints override_variables
                            calls))) /\
  (forall u,
     In u (involved_stamps
             (transaction_ (built transaction_stamp override_constraints override_variables
                              calls)))
     <-> In u (flat_map stamps_of calls)) /\
  (added_variables
     (transaction_ (built transaction_stamp override_constraints override_variables calls))
   = [] <-> flat_map stamps_of calls = []).
Proof.
  induction calls as [|c calls IH] using rev_ind.
  - repeat split; try constructor; simpl; tauto.
  - destruct IH as (Hstamp & Hcons & Hnd & Hin & Hvars).
    rewrite FuseFacts.built_snoc.
    destruct (call_effect
                (built transaction_stamp override_constraints override_variables calls) c)
      as (Es & Ec & Ei & Ev).
    destruct (Ei Hnd) as [Hnd' Hin'].
    split; [congruence|]. split; [rewrite Ec, Hcons, flat_map_app; simpl; now rewrite app_nil_r|].
    split; [exact Hnd'|]. split.
    + intros u. rewrite (Hin' u), (Hin u), flat_map_app, in_app_iff. simpl.
      rewrite app_nil_r. reflexivity.
    + rewrite Ev, Hvars, flat_map_app. simpl. rewrite app_nil_r.
      split.
      * intros [H1 H2]. now rewrite H1, H2.
      * intros H. apply app_eq_nil in H. exact H.
Qed.

End FuseBuiltFacts.

(* ------------------------------------------------------------------ *)
(** ** The global map: storing measurements *)

Module GlobalMapSessionFacts.

Import Eigen Ros Fuse GlobalMap GlobalMapSession.

(** *** Replacing an entry of a table *)

Lemma replace_at_same {A : Type} (l : list A) (n : nat) (x : A) :
  nth_error l n = Some x -> replace_at l n x = l.
Proof.
  intros H. unfold replace_at. symmetry. now apply GlobalMapFacts.nth_error_split_at.
Qed.

Lemma replace_at_nth {A : Type} (l : list A) (n : nat) (x : A) :
  (n < List.length l)%nat -> nth_error (replace_at l n x) n = Some x.
Proof.
  intros H. unfold replace_at.
  rewrite nth_error_app2; rewrite length_firstn, Nat.min_l by lia; [|lia].
  now rewrite Nat.sub_diag.
Qed.

Lemma replace_at_twice {A : Type} (l : list A) (n : nat) (x y : A) :
  (n < List.length l)%nat -> replace_at (replace_at l n x) n y = replace_at l n y.
Proof.
  intros H. unfold replace_at.
  assert (Hlen : List.length (firstn n l) = n) by (rewrite length_firstn; lia).
  f_equal.
  - rewrite firstn_app, Hlen, Nat.sub_diag, firstn_O, app_nil_r.
    rewrite firstn_firstn. f_equal. lia.
  - f_equal. rewrite skipn_app, Hlen.
    replace (S n - n)%nat with 1%nat by lia.
    rewrite (skipn_all2 (firstn n l)) by lia. reflexivity.
Qed.

Lemma replace_at_length {A : Type} (l : list A) (n : nat) (x : A) :
  (n < List.length l)%nat -> List.length (replace_at l n x) = List.length l.
Proof.
  intros H. unfold replace_at. rewrite !length_app, length_firstn, length_skipn. simpl. lia.
Qed.

(** *** Submaps and their measurements *)

Lemma with_measurements_nil (sm : Submap) : with_measurements sm [] = sm.
Proof. destruct sm. unfold with_measurements. simpl. now rewrite app_nil_r. Qed.

Lemma with_measurements_app (sm : Submap) (a b : list Measurement) :
  with_measurements (with_measurements sm a) b = with_measurements sm (a ++ b).
Proof. unfold with_measurements. simpl. now rewrite app_assoc. Qed.

Lemma set_online_submaps_same (g : GlobalMap) : set_online_submaps g (online_submaps_ g) = g.
Proof. now destruct g. Qed.

Lemma set_online_submaps_twice (g : GlobalMap) (a b : list Submap) :
  set_online_submaps (set_online_submaps g a) b = set_online_submaps g b.
Proof. reflexivity. Qed.

(** One more measurement for a submap that already took [acc]. *)
Lemma add_to_submap_more (g : GlobalMap) (submap_id : Z) (sm : Submap)
    (acc : list Measurement) (m : Measurement) :
  at_ (online_submaps_ g) submap_id = Done sm ->
  add_to_submap
    (set_online_submaps g
       (replace_at (online_submaps_ g) (Z.to_nat submap_id) (with_measurements sm acc)))
    submap_id m
  = Done (set_online_submaps g
            (replace_at (online_submaps_ g) (Z.to_nat submap_id)
               (with_measurements sm (acc ++ [m])))).
Proof.
  intros Hat. pose proof (GlobalMapFacts.at_range _ _ _ Hat) as Hrange.
  assert (Hn : (Z.to_nat submap_id < List.length (online_submaps_ g))%nat)
    by (unfold size in Hrange; lia).
  unfold add_to_submap. cbn [online_submaps_ set_online_submaps].
  assert (Hat' : at_ (replace_at (online_submaps_ g) (Z.to_nat submap_id)
                        (with_measurements sm acc)) submap_id
                 = Done (with_measurements sm acc)).
  { apply GlobalMapFacts.at_Done. split; [lia | now apply replace_at_nth]. }
  rewrite Hat'. cbn [bind]. rewrite set_online_submaps_twice. f_equal. f_equal.
  change (replace_at (replace_at (online_submaps_ g) (Z.to_nat submap_id)
                        (with_measurements sm acc)) (Z.to_nat submap_id)
            (add_measurement (with_measurements sm acc) m)
          = replace_at (online_submaps_ g) (Z.to_nat submap_id)
              (with_measurements sm (acc ++ [m]))).
  rewrite replace_at_twice by exact Hn.
  f_equal. unfold add_measurement, with_measurements. simpl. now rewrite app_assoc.
Qed.

(** The count the code adds up is positive exactly when the strong edges,
    the strong surfaces or the weak surfaces hold a point: the weak edges are
    not counted, the strong ones twice. *)
Lemma loam_count_positive (lid : LidarMeasurementMsg) :
  (size (lidar_edges_strong lid) + size (lidar_edges_strong lid)
   + size (lidar_surfaces_strong lid) + size (lidar_surfaces_weak lid) >? 0)
  = match lidar_edges_strong lid, lidar_surfaces_strong lid, lidar_surfaces_weak lid with
    | [], [], [] => false
    | _, _, _ => true
    end.
Proof.
  unfold size.
  destruct (lidar_edges_strong lid), (lidar_surfaces_strong lid), (lidar_surfaces_weak lid);
    simpl List.length; try reflexivity; apply Z.gtb_lt; lia.
Qed.

Lemma store_measurements_more (g : GlobalMap) (submap_id : Z) (sm : Submap)
    (acc : list Measurement) (cam : CameraMeasurementMsg) (lid : LidarMeasurementMsg)
    (T : Matrix4d) (stamp : RosTime) :
  at_ (online_submaps_ g) submap_id = Done sm ->
  store_measurements
    (set_online_submaps g
       (replace_at (online_submaps_ g) (Z.to_nat submap_id) (with_measurements sm acc)))
    submap_id cam lid T stamp
  = Done (set_online_submaps g
            (replace_at (online_submaps_ g) (Z.to_nat submap_id)
               (with_measurements sm (acc ++ handed cam lid T stamp)))).
Proof.
  intros Hat. unfold store_measurements, handed.
  rewrite loam_count_positive.
  destruct (landmarks cam) as [|l0 ls].
  - cbn [bind app]. destruct (lidar_points lid) as [|p0 ps].
    + cbn [bind app].
      destruct (lidar_edges_strong lid), (lidar_surfaces_strong lid), (lidar_surfaces_weak lid);
        first [now rewrite app_nil_r | now apply add_to_submap_more].
    + rewrite (add_to_submap_more g submap_id sm acc _ Hat). cbn [bind app].
      destruct (lidar_edges_strong lid), (lidar_surfaces_strong lid), (lidar_surfaces_weak lid);
        first [reflexivity
              | rewrite (add_to_submap_more g submap_id sm _ _ Hat), <- app_assoc;
                reflexivity].
  - rewrite (add_to_submap_more g submap_id sm acc _ Hat). cbn [bind app].
    destruct (lidar_points lid) as [|p0 ps].
    + cbn [bind app].
      destruct (lidar_edges_strong lid), (lidar_surfaces_strong lid), (lidar_surfaces_weak lid);
        first [reflexivity
              | rewrite (add_to_submap_more g submap_id sm _ _ Hat), <- app_assoc;
                reflexivity].
    + rewrite (add_to_submap_more g submap_id sm _ _ Hat). cbn [bind app].
      destruct (lidar_edges_strong lid), (lidar_surfaces_strong lid), (lidar_surfaces_weak lid);
        first [rewrite <- app_assoc; reflexivity
              | rewrite (add_to_submap_more g submap_id sm _ _ Hat), <- !app_assoc;
                reflexivity].
Qed.

Lemma store_measurements_exact (g : GlobalMap) (submap_id : Z) (sm : Submap)
    (cam : CameraMeasurementMsg) (lid : LidarMeasurementMsg) (T : Matrix4d) (stamp : RosTime) :
  at_ (online_submaps_ g) submap_id = Done sm ->
  store_measurements g submap_id cam lid T stamp
  = Done (set_online_submaps g
            (replace_at (online_submaps_ g) (Z.to_nat submap_id)
               (with_measurements sm (handed cam lid T stamp)))).
Proof.
  intros Hat.
  pose proof (store_measurements_more g submap_id sm [] cam lid T stamp Hat) as H.
  rewrite with_measurements_nil in H.
  rewrite replace_at_same in H by (apply GlobalMapFacts.at_Done in Hat; tauto).
  rewrite set_online_submaps_same in H. exact H.
Qed.

(** *** A new submap *)

Lemma at_last {A : Type} (older : list A) (cur : A) :
  at_ (older ++ [cur]) (size (older ++ [cur]) - 1) = Done cur.
Proof.
  replace (size (older ++ [cur]) - 1) with (size older)
    by (unfold size; rewrite length_app; simpl; lia).
  apply GlobalMapFacts.at_snoc.
Qed.

Lemma at_before_last {A : Type} (older : list A) (prev cur : A) :
  at_ ((older ++ [prev]) ++ [cur]) (size ((older ++ [prev]) ++ [cur]) - 2) = Done prev.
Proof.
  replace (size ((older ++ [prev]) ++ [cur]) - 2) with (size older)
    by (unfold size; rewrite !length_app; simpl; lia).
  apply GlobalMapFacts.at_Done. unfold size. split; [lia|].
  rewrite Nat2Z.id, nth_error_app1 by (rewrite length_app; simpl; lia).
  rewrite nth_error_app2 by lia. now rewrite Nat.sub_diag.
Qed.

(** The constraint that ties a new submap: a prior for the first submap, the
    pose relative to the previous submap for the others. *)
Lemma InitiateNewSubmapPose_last (g : GlobalMap) (older : list Submap) (cur : Submap) :
  online_submaps_ g = older ++ [cur] ->
  InitiateNewSubmapPose g
  = Done (Some (mkTransaction (Stamp cur) [Stamp cur]
                  [match rev older with
                   | [] =>
                       AbsolutePose3DStampedConstraint "GlobalMap" (Stamp cur)
                         (mkMatrix4d (Orientation cur) (Position cur))
                         (diagonal6 (pose_prior_noise_ g))
                   | prev :: _ =>
                       RelativePose3DStampedConstraint "GlobalMap" (Stamp prev) (Stamp cur)
                         (Tmul (InvertTransform (T_WORLD_SUBMAP prev)) (T_WORLD_SUBMAP cur))
                         (local_mapper_covariance (params_ g))
                   end]
                  [Position3DStamped (Stamp cur) (Position cur);
                   Orientation3DStamped (Stamp cur) (Orientation cur)])).
Proof.
  intros Htable. unfold InitiateNewSubmapPose. rewrite Htable, at_last. cbn [bind].
  destruct (rev older) as [|prev before] eqn:Hrev.
  - assert (Hnil : older = []).
    { rewrite <- (rev_involutive older), Hrev. reflexivity. }
    subst older. reflexivity.
  - assert (Holder : older = rev before ++ [prev]).
    { rewrite <- (rev_involutive older), Hrev. reflexivity. }
    subst older.
    assert (Hsize : (size ((rev before ++ [prev]) ++ [cur]) =? 1) = false).
    { apply Z.eqb_neq. unfold size. rewrite !length_app. cbn [List.length]. lia. }
    rewrite Hsize, at_before_last. reflexivity.
Qed.

Lemma InitiateNewSubmapPose_not_null (g : GlobalMap) (new_transaction : option Transaction) :
  InitiateNewSubmapPose g = Done new_transaction -> new_transaction <> None.
Proof.
  destruct (rev (online_submaps_ g)) as [|cur before] eqn:Hrev.
  - assert (Hnil : online_submaps_ g = []).
    { rewrite <- (rev_involutive (online_submaps_ g)), Hrev. reflexivity. }
    unfold InitiateNewSubmapPose. rewrite Hnil. discriminate.
  - assert (Htable : online_submaps_ g = rev before ++ [cur]).
    { rewrite <- (rev_involutive (online_submaps_ g)), Hrev. reflexivity. }
    rewrite (InitiateNewSubmapPose_last g _ _ Htable). intros H. inversion H. discriminate.
Qed.

(** *** Rigid transforms *)

Lemma veq_refl (a : Vector3d) : veq a a.
Proof. unfold veq. repeat split; reflexivity. Qed.

Lemma meq_mmul_l (a a' c : Matrix3d) : meq a a' -> meq (mmul a c) (mmul a' c).
Proof.
  destruct a as [[a11 a12 a13] [a21 a22 a23] [a31 a32 a33]].
  destruct a' as [[b11 b12 b13] [b21 b22 b23] [b31 b32 b33]].
  destruct c as [[c11 c12 c13] [c21 c22 c23] [c31 c32 c33]].
  unfold meq, veq, mmul, row_times, dot, col0, col1, col2; simpl.
  intros ((H11 & H12 & H13) & (H21 & H22 & H23) & (H31 & H32 & H33)).
  rewrite H11, H12, H13, H21, H22, H23, H31, H32, H33.
  repeat split; reflexivity.
Qed.

Lemma veq_mvec_l (a a' : Matrix3d) (x : Vector3d) : meq a a' -> veq (mvec a x) (mvec a' x).
Proof.
  destruct a as [[a11 a12 a13] [a21 a22 a23] [a31 a32 a33]].
  destruct a' as [[b11 b12 b13] [b21 b22 b23] [b31 b32 b33]].
  destruct x as [x1 x2 x3].
  unfold meq, veq, mvec, dot; simpl.
  intros ((H11 & H12 & H13) & (H21 & H22 & H23) & (H31 & H32 & H33)).
  rewrite H11, H12, H13, H21, H22, H23, H31, H32, H33.
  repeat split; reflexivity.
Qed.

Lemma meq_trans (a b c : Matrix3d) : meq a b -> meq b c -> meq a c.
Proof.
  unfold meq, veq.
  intros ((H11 & H12 & H13) & (H21 & H22 & H23) & (H31 & H32 & H33))
         ((K11 & K12 & K13) & (K21 & K22 & K23) & (K31 & K32 & K33)).
  repeat split; etransitivity; eassumption.
Qed.

Lemma veq_trans (a b c : Vector3d) : veq a b -> veq b c -> veq a c.
Proof.
  unfold veq. intros (H1 & H2 & H3) (K1 & K2 & K3).
  repeat split; etransitivity; eassumption.
Qed.

Lemma mmul_assoc (a b c : Matrix3d) : meq (mmul a (mmul b c)) (mmul (mmul a b) c).
Proof.
  destruct a as [[a11 a12 a13] [a21 a22 a23] [a31 a32 a33]].
  destruct b as [[b11 b12 b13] [b21 b22 b23] [b31 b32 b33]].
  destruct c as [[c11 c12 c13] [c21 c22 c23] [c31 c32 c33]].
  unfold meq, veq, mmul, row_times, dot, col0, col1, col2; simpl.
  repeat split; ring.
Qed.

Lemma mmul_Identity3_l (m : Matrix3d) : meq (mmul Identity3 m) m.
Proof.
  destruct m as [[a b c] [d e f] [g h i]].
  unfold meq, veq, mmul, row_times, dot, col0, col1, col2; simpl.
  repeat split; ring.
Qed.

(** Going to the frame of a rigid transform and back. *)
Lemma Tmul_InvertTransform (a b : Matrix4d) :
  rigid a -> Teq (Tmul a (Tmul (InvertTransform a) b)) b.
Proof.
  intros Hrigid. unfold rigid in Hrigid. split.
  - cbn [Tmul InvertTransform rotation].
    eapply meq_trans; [apply mmul_assoc|].
    eapply meq_trans; [apply meq_mmul_l; exact Hrigid|].
    apply mmul_Identity3_l.
  - cbn [Tmul InvertTransform rotation translation].
    apply veq_trans
      with (vadd (mvec (mmul (rotation a) (transpose (rotation a)))
                    (vsub (translation b) (translation a)))
                 (translation a)).
    + destruct a as [[[a11 a12 a13] [a21 a22 a23] [a31 a32 a33]] [t1 t2 t3]].
      destruct b as [rb [u1 u2 u3]].
      unfold veq, vadd, vsub, mvec, mmul, transpose, row_times, dot, col0, col1, col2, Zero3;
        simpl.
      repeat split; ring.
    + apply veq_trans
        with (vadd (mvec Identity3 (vsub (translation b) (translation a))) (translation a)).
      * pose proof (veq_mvec_l _ _ (vsub (translation b) (translation a)) Hrigid)
          as (H1 & H2 & H3).
        unfold veq, vadd; simpl. rewrite H1, H2, H3. repeat split; reflexivity.
      * destruct a as [ra [t1 t2 t3]]. destruct b as [rb [u1 u2 u3]].
        unfold veq, vadd, vsub, mvec, dot, Identity3; simpl.
        repeat split; ring.
Qed.

(** X9: on a table with no submap [InitiateNewSubmapPose] throws
    [std::out_of_range]; otherwise it returns a transaction, never null,
    stamped as the newest submap, with that stamp involved, the position and
    the orientation of the newest submap as variables, and one constraint.
    For the first submap the constraint is a prior at its anchor with
    [pose_prior_noise_] on the diagonal; for a later one it is the pose of the
    newest submap relative to the one before it, with the covariance of the
    local mapper, and that relative pose carries the anchor of the one before
    onto the anchor of the newest when the former is rigid. *)
Theorem InitiateNewSubmapPose_ties_newest_submap (g : GlobalMap) :
  match rev (online_submaps_ g) with
  | [] => InitiateNewSubmapPose g = OutOfRange
  | cur :: before =>
      exists tr c,
        InitiateNewSubmapPose g = Done (Some tr) /\
        stamp tr = Stamp cur /\
        involved_stamps tr = [Stamp cur] /\
        added_variables tr
          = [Position3DStamped (Stamp cur) (translation (T_WORLD_SUBMAP cur));
             Orientation3DStamped (Stamp cur) (rotation (T_WORLD_SUBMAP cur))] /\
        added_constraints tr = [c] /\
        match before with
        | [] =>
            c = AbsolutePose3DStampedConstraint "GlobalMap" (Stamp cur) (T_WORLD_SUBMAP cur)
                  (diagonal6 (pose_prior_noise_ g))
        | prev :: _ =>
            exists T_PREVIOUS_CURRENT,
              c = RelativePose3DStampedConstraint "GlobalMap" (Stamp prev) (Stamp cur)
                    T_PREVIOUS_CURRENT (local_mapper_covariance (params_ g)) /\
              (rigid (T_WORLD_SUBMAP prev) ->
               Teq (Tmul (T_WORLD_SUBMAP prev) T_PREVIOUS_CURRENT) (T_WORLD_SUBMAP cur))
        end
  end.
Proof.
  destruct (rev (online_submaps_ g)) as [|cur before] eqn:Hrev.
  - assert (Hnil : online_submaps_ g = []).
    { rewrite <- (rev_involutive (online_submaps_ g)), Hrev. reflexivity. }
    unfold InitiateNewSubmapPose. rewrite Hnil. reflexivity.
  - assert (Htable : online_submaps_ g = rev before ++ [cur]).
    { rewrite <- (rev_involutive (online_submaps_ g)), Hrev. reflexivity. }
    rewrite (InitiateNewSubmapPose_last g _ _ Htable), rev_involutive.
    eexists. eexists. split; [reflexivity|].
    split; [reflexivity|]. split; [reflexivity|]. split; [reflexivity|].
    split; [reflexivity|].
    destruct before as [|prev before'].
    + unfold Orientation, Position. now destruct (T_WORLD_SUBMAP cur).
    + eexists. split; [reflexivity|]. intros Hrigid. now apply Tmul_InvertTransform.
Qed.

(** *** Loop closure and the state of the map *)

Lemma RunLoopClosure_effect {search : RelocCandidateSearch} {refinement : RelocRefinement}
    (g g' : GlobalMap) (query_index : Z) (tr : option Transaction) :
  RunLoopClosure g query_index = Done (tr, g') ->
  g' = match tr with
       | Some t =>
           if GetNumberOfConstraints t >? 0 then set_active_submap_type g NONE else g
       | None => g
       end.
Proof.
  unfold RunLoopClosure.
  destruct (size (online_submaps_ g) =? 1); [intros H; now inversion H|].
  destruct (at_ (online_submaps_ g) query_index) as [query| | |]; cbn [bind]; try discriminate.
  destruct (size _ =? 0); [intros H; now inversion H|].
  destruct (refine_entries _ _ _ _) as [transaction| | |]; cbn [bind]; try discriminate.
  intros H. inversion H; subst. reflexivity.
Qed.

Lemma refine_entries_returns {refinement : RelocRefinement} (g : GlobalMap) (q : Z)
    (entries : list (Z * Matrix4d)) (tr0 : Transaction) :
  0 <= q < size (online_submaps_ g) ->
  Forall (fun e => 0 <= fst e < size (online_submaps_ g)) entries ->
  exists tr, refine_entries g q entries tr0 = Done tr.
Proof.
  intros Hq. revert tr0. induction entries as [|[m T] more IH]; intros tr0 Hin.
  - exists tr0. reflexivity.
  - inversion Hin as [|e l Hm Hmore]; subst. cbn [fst] in Hm. simpl.
    destruct (GlobalMapFacts.at_in_range (online_submaps_ g) m Hm) as [sm Hsm].
    destruct (GlobalMapFacts.at_in_range (online_submaps_ g) q Hq) as [sq Hsq].
    rewrite Hsm, Hsq. cbn [bind]. apply IH. exact Hmore.
Qed.

Lemma refined_entries_in_table (submaps : list Submap) (q : Z)
    (candidates : list (Z * Matrix4d)) :
  Forall (fun c => 0 <= fst c < size submaps) candidates ->
  Forall (fun e => 0 <= fst e < size submaps)
    (refined_entries q (matched_indices_filtered q (map fst candidates))
       (map snd candidates)).
Proof.
  intros Hin. apply Forall_forall. intros [m T] He.
  unfold refined_entries in He. apply filter_In in He. destruct He as [He _].
  apply in_combine_l in He. unfold matched_indices_filtered in He.
  apply filter_In in He. destruct He as [He _].
  apply in_map_iff in He. destruct He as (c & Hc & Hcin).
  rewrite Forall_forall in Hin. specialize (Hin c Hcin). cbn [fst]. now rewrite <- Hc.
Qed.

Lemma RunLoopClosure_returns {search : RelocCandidateSearch} {refinement : RelocRefinement}
    (g : GlobalMap) (query_index : Z) :
  answers_in_table search ->
  size (online_submaps_ g) = 1 \/ 0 <= query_index < size (online_submaps_ g) ->
  exists r, RunLoopClosure g query_index = Done r.
Proof.
  intros Hsearch Hq. unfold RunLoopClosure.
  destruct (size (online_submaps_ g) =? 1) eqn:H1; [eexists; reflexivity|].
  assert (Hrange : 0 <= query_index < size (online_submaps_ g)) by lia.
  destruct (GlobalMapFacts.at_in_range (online_submaps_ g) query_index Hrange) as [query Hquery].
  rewrite Hquery. cbn [bind].
  destruct (size _ =? 0); [eexists; reflexivity|].
  destruct (refine_entries_returns g query_index
              (refined_entries query_index
                 (matched_indices_filtered query_index
                    (map fst (FindRelocCandidates (online_submaps_ g) (T_WORLD_SUBMAP query)
                                None)))
                 (map snd (FindRelocCandidates (online_submaps_ g) (T_WORLD_SUBMAP query)
                             None)))
              Transaction_new Hrange) as [tr Htr].
  { apply refined_entries_in_table. apply Hsearch. }
  rewrite Htr. cbn [bind]. eexists; reflexivity.
Qed.

(** What opening a submap changes, and when it answers a transaction. *)
Lemma open_submap_effect {search : RelocCandidateSearch} {refinement : RelocRefinement}
    (g g' : GlobalMap) (submap_id : Z) (T : Matrix4d) (stamp : RosTime)
    (tr : option Transaction) :
  open_submap g submap_id T stamp = Done (tr, g') ->
  online_submaps_ g' = table_for g submap_id T stamp /\
  offline_submaps_ g' = offline_submaps_ g /\
  (tr <> None <-> submap_id = size (online_submaps_ g)).
Proof.
  intros H. split; [exact (GlobalMapFacts.open_submap_online _ _ _ _ _ _ H)|].
  revert H. unfold open_submap.
  destruct (submap_id =? size (online_submaps_ g)) eqn:Hid.
  - destruct (InitiateNewSubmapPose _) as [new_transaction| | |] eqn:Hnew; cbn [bind];
      try discriminate.
    apply InitiateNewSubmapPose_not_null in Hnew.
    destruct (RunLoopClosure _ _) as [[reloc g1]| | |] eqn:Hloop; cbn [bind]; try discriminate.
    apply RunLoopClosure_effect in Hloop.
    assert (Hoff : offline_submaps_ g1 = offline_submaps_ g).
    { rewrite Hloop. destruct reloc as [t|]; [destruct (_ >? 0)|]; reflexivity. }
    destruct reloc as [rt|]; [destruct new_transaction as [nt|]|]; try discriminate;
      intros H; inversion H; subst; (split; [exact Hoff|]); split; intros _;
      try lia; try discriminate; exact Hnew.
  - intros H. inversion H; subst. split; [reflexivity|].
    split; [intros Hn; now elim Hn | lia].
Qed.

Lemma open_submap_returns {search : RelocCandidateSearch} {refinement : RelocRefinement}
    (g : GlobalMap) (submap_id : Z) (T : Matrix4d) (stamp : RosTime) :
  answers_in_table search ->
  exists r, open_submap g submap_id T stamp = Done r.
Proof.
  intros Hsearch. unfold open_submap.
  destruct (submap_id =? size (online_submaps_ g)); [|eexists; reflexivity].
  set (g1 := set_online_submaps g (online_submaps_ g ++ [Submap_new stamp T])).
  assert (Htable : online_submaps_ g1 = online_submaps_ g ++ [Submap_new stamp T])
    by reflexivity.
  rewrite (InitiateNewSubmapPose_last g1 _ _ Htable). cbn [bind].
  destruct (RunLoopClosure_returns g1 (size (online_submaps_ g1) - 2) Hsearch)
    as [[reloc g2] Hloop].
  { rewrite Htable. unfold size. rewrite length_app. cbn [List.length]. lia. }
  rewrite Hloop. cbn [bind]. destruct reloc; eexists; reflexivity.
Qed.

(** X10: an [AddMeasurement] that returns has stored what the message holds
    in one submap, the one [GetSubmapId] names, which is the newest, the one
    before it, or a new one.  The camera measurement is stored when it has
    landmarks, the lidar cloud when it has points, the LOAM cloud when it has
    strong edges, strong surfaces or weak surfaces (weak edges alone are
    dropped); they go behind what the submap held, and no other submap
    changes.  A transaction is returned exactly when a new submap was
    opened, and the offline submaps are left alone. *)
Theorem AddMeasurement_stores_in_one_submap
    {search : RelocCandidateSearch} {refinement : RelocRefinement}
    (g g' : GlobalMap) (cam_measurement : CameraMeasurementMsg)
    (lid_measurement : LidarMeasurementMsg) (T_WORLD_BASELINK : Matrix4d) (stamp : RosTime)
    (tr : option Transaction) :
  AddMeasurement g cam_measurement lid_measurement T_WORLD_BASELINK stamp = Done (tr, g') ->
  exists submap_id sm,
    GetSubmapId g T_WORLD_BASELINK = Done submap_id /\
    0 <= submap_id /\
    size (online_submaps_ g) - 2 <= submap_id <= size (online_submaps_ g) /\
    at_ (table_for g submap_id T_WORLD_BASELINK stamp) submap_id = Done sm /\
    online_submaps_ g'
    = replace_at (table_for g submap_id T_WORLD_BASELINK stamp) (Z.to_nat submap_id)
        (with_measurements sm
           (handed cam_measurement lid_measurement T_WORLD_BASELINK stamp)) /\
    (tr <> None <-> submap_id = size (online_submaps_ g)) /\
    offline_submaps_ g' = offline_submaps_ g.
Proof.
  unfold AddMeasurement. intros H.
  destruct (GetSubmapId g T_WORLD_BASELINK) as [submap_id| | |] eqn:Hid; cbn [bind] in H;
    try discriminate.
  destruct (open_submap g submap_id T_WORLD_BASELINK stamp) as [[nt g1]| | |] eqn:Hopen;
    cbn [bind] in H; try discriminate.
  destruct (open_submap_effect _ _ _ _ _ _ Hopen) as (Htable & Hoff & Hnull).
  assert (Hrange : 0 <= submap_id /\
                   size (online_submaps_ g) - 2 <= submap_id <= size (online_submaps_ g)).
  { destruct (GlobalMapFacts.GetSubmapId_cases _ _ _ Hid)
      as [[Hnil ->] | [(cur & _ & Hone & Hcase) | (prev & cur & Hprev & _ & Hcase)]].
    - rewrite Hnil. unfold size. simpl. lia.
    - destruct (within _ _ _); lia.
    - apply GlobalMapFacts.at_range in Hprev.
      destruct (within _ _ (translation (T_WORLD_SUBMAP_INIT prev)));
        [|destruct (within _ _ _)]; lia. }
  assert (Hin : 0 <= submap_id < size (online_submaps_ g1)).
  { rewrite Htable. unfold table_for.
    destruct (submap_id =? size (online_submaps_ g)) eqn:E.
    - unfold size in *. rewrite length_app. cbn [List.length]. lia.
    - lia. }
  destruct (GlobalMapFacts.at_in_range _ _ Hin) as [sm Hsm].
  rewrite (store_measurements_exact g1 submap_id sm _ _ _ _ Hsm) in H. cbn [bind] in H.
  inversion H; subst; clear H.
  exists submap_id, sm. rewrite <- Htable.
  repeat (split; [first [reflexivity | tauto | lia | assumption]|]). exact Hoff.
Qed.

Lemma AddMeasurement_stores_in_one_submap_witness :
  exists tr g' submap_id sm,
    AddMeasurement (search := search_answering []) (refinement := accepting_refinement)
      (map_of (submaps_along_x 2 10)) (mkCameraMeasurementMsg [4; 9])
      (mkLidarMeasurementMsg "lidar" [] [] [mkVector3d 1 0 0] [] []) (pose_at 12 0 0) 7
    = Done (tr, g') /\
    at_ (submaps_along_x 2 10) submap_id = Done sm /\
    online_submaps_ g'
    = replace_at (submaps_along_x 2 10) (Z.to_nat submap_id)
        (with_measurements sm
           [CameraMeasurement (mkCameraMeasurementMsg [4; 9]) (pose_at 12 0 0)]).
Proof.
  assert (H : exists tr g',
             AddMeasurement (search := search_answering [])
               (refinement := accepting_refinement)
               (map_of (submaps_along_x 2 10)) (mkCameraMeasurementMsg [4; 9])
               (mkLidarMeasurementMsg "lidar" [] [] [mkVector3d 1 0 0] [] [])
               (pose_at 12 0 0) 7
             = Done (tr, g'))
    by (eexists; eexists; vm_compute; reflexivity).
  destruct H as (tr & g' & H).
  destruct (AddMeasurement_stores_in_one_submap
              (search := search_answering []) (refinement := accepting_refinement)
              _ _ _ _ _ _ _ H)
    as (submap_id & sm & Hid & _ & _ & Hat & Htable & _).
  assert (Hone : submap_id = 1) by (vm_compute in Hid; congruence).
  subst submap_id.
  exists tr, g', 1, sm. split; [exact H|]. split; [exact Hat | exact Htable].
Defined.

(** X11: with a candidate search that proposes only submaps of the table it
    is given, [AddMeasurement] returns: neither [at] throws nor a null
    transaction is merged into. *)
Theorem AddMeasurement_returns
    {search : RelocCandidateSearch} {refinement : RelocRefinement}
    (g : GlobalMap) (cam_measurement : CameraMeasurementMsg)
    (lid_measurement : LidarMeasurementMsg) (T_WORLD_BASELINK : Matrix4d) (stamp : RosTime) :
  answers_in_table search ->
  exists tr g',
    AddMeasurement g cam_measurement lid_measurement T_WORLD_BASELINK stamp = Done (tr, g').
Proof.
  intros Hsearch. unfold AddMeasurement.
  destruct (GlobalMapFacts.GetSubmapId_returns g T_WORLD_BASELINK) as (submap_id & Hid & Hrange).
  rewrite Hid. cbn [bind].
  destruct (open_submap_returns g submap_id T_WORLD_BASELINK stamp Hsearch) as [[nt g1] Hopen].
  rewrite Hopen. cbn [bind].
  destruct (open_submap_effect _ _ _ _ _ _ Hopen) as (Htable & _ & _).
  assert (Hin : 0 <= submap_id < size (online_submaps_ g1)).
  { rewrite Htable. unfold table_for.
    destruct (submap_id =? size (online_submaps_ g)) eqn:E.
    - unfold size in *. rewrite length_app. cbn [List.length]. lia.
    - lia. }
  destruct (GlobalMapFacts.at_in_range _ _ Hin) as [sm Hsm].
  rewrite (store_measurements_exact g1 submap_id sm _ _ _ _ Hsm). cbn [bind].
  eexists. eexists. reflexivity.
Qed.

Lemma search_every_submap_answers_in_table : answers_in_table search_every_submap.
Proof.
  intros submaps T o. apply Forall_forall. intros c Hc.
  cbn [FindRelocCandidates search_every_submap] in Hc.
  apply in_map_iff in Hc. destruct Hc as (k & <- & Hk).
  apply in_seq in Hk. cbn [fst]. unfold size. lia.
Defined.

Lemma AddMeasurement_returns_witness :
  exists tr g',
    AddMeasurement (search := search_every_submap) (refinement := accepting_refinement)
      (map_of (submaps_along_x 3 10)) (mkCameraMeasurementMsg [4; 9]) empty_lidar
      (pose_at 100 0 0) 7
    = Done (tr, g').
Proof.
  exact (AddMeasurement_returns
           (search := search_every_submap) (refinement := accepting_refinement)
           (map_of (submaps_along_x 3 10)) (mkCameraMeasurementMsg [4; 9]) empty_lidar
           (pose_at 100 0 0) 7 search_every_submap_answers_in_table).
Defined.

(** X12: a loop closure that returns changes nothing in the map but the type
    of the active submap, which it resets to [NONE] exactly when the
    transaction it returns holds a constraint.  It returns null exactly when
    the map has a single submap or every candidate is the query or the submap
    before it; a transaction that is not null may hold no constraint. *)
Theorem RunLoopClosure_resets_active_submap
    {search : RelocCandidateSearch} {refinement : RelocRefinement}
    (g g' : GlobalMap) (query_index : Z) (tr : option Transaction) :
  RunLoopClosure g query_index = Done (tr, g') ->
  g' = match tr with
       | None => g
       | Some t =>
           match added_constraints t with
           | [] => g
           | _ :: _ => set_active_submap_type g NONE
           end
       end /\
  (tr = None <->
   size (online_submaps_ g) = 1 \/
   exists query,
     at_ (online_submaps_ g) query_index = Done query /\
     Forall (fun c => fst c = query_index \/ fst c = query_index - 1)
       (FindRelocCandidates (online_submaps_ g) (T_WORLD_SUBMAP query) None)).
Proof.
  intros H. split.
  - rewrite (RunLoopClosure_effect _ _ _ _ H). destruct tr as [t|]; [|reflexivity].
    unfold GetNumberOfConstraints. destruct (added_constraints t); reflexivity.
  - revert H. unfold RunLoopClosure.
    destruct (size (online_submaps_ g) =? 1) eqn:H1.
    { apply Z.eqb_eq in H1. intros H. inversion H; subst.
      split; [intros _; left; exact H1 | reflexivity]. }
    destruct (at_ (online_submaps_ g) query_index) as [query| | |] eqn:Hq; cbn [bind];
      try discriminate.
    set (candidates := FindRelocCandidates (online_submaps_ g) (T_WORLD_SUBMAP query) None).
    assert (Hall : size (matched_indices_filtered query_index (map fst candidates)) = 0
                   <-> Forall (fun c => fst c = query_index \/ fst c = query_index - 1)
                         candidates).
    { induction candidates as [|[m T] more IH]; simpl.
      - split; [constructor | reflexivity].
      - destruct ((m =? query_index) || (m =? query_index - 1)) eqn:E; simpl.
        + rewrite IH. split.
          * intros Hmore. constructor; [cbn [fst]; lia | exact Hmore].
          * intros Hmore. now inversion Hmore.
        + split.
          * unfold size. simpl. lia.
          * intros Hmore. inversion Hmore as [|c l Hm _]. cbn [fst] in Hm. lia. }
    apply Z.eqb_neq in H1.
    destruct (size _ =? 0) eqn:Hsize.
    + apply Z.eqb_eq in Hsize. intros H. inversion H; subst. split; [|reflexivity].
      intros _. right. exists query. split; [reflexivity|]. apply Hall. exact Hsize.
    + apply Z.eqb_neq in Hsize.
      destruct (refine_entries _ _ _ _) as [transaction| | |]; cbn [bind]; try discriminate.
      intros H. inversion H; subst. split; [discriminate|].
      intros [Hone | (query' & Hq' & Hmore)]; [contradiction|].
      inversion Hq'; subst query'. apply Hall in Hmore. contradiction.
Qed.

Lemma RunLoopClosure_resets_active_submap_witness :
  exists tr g',
    RunLoopClosure (search := search_answering [(0, Identity4)])
      (refinement := accepting_refinement)
      (set_active_submap_type (map_of (submaps_along_x 4 20)) OFFLINE) 3
    = Done (tr, g') /\
    g' = match tr with
         | None => set_active_submap_type (map_of (submaps_along_x 4 20)) OFFLINE
         | Some t =>
             match added_constraints t with
             | [] => set_active_submap_type (map_of (submaps_along_x 4 20)) OFFLINE
             | _ :: _ =>
                 set_active_submap_type
                   (set_active_submap_type (map_of (submaps_along_x 4 20)) OFFLINE) NONE
             end
         end.
Proof.
  assert (H : exists tr g',
             RunLoopClosure (search := search_answering [(0, Identity4)])
               (refinement := accepting_refinement)
               (set_active_submap_type (map_of (submaps_along_x 4 20)) OFFLINE) 3
             = Done (tr, g'))
    by (eexists; eexists; vm_compute; reflexivity).
  destruct H as (tr & g' & H).
  exists tr, g'. split; [exact H|].
  exact (proj1 (RunLoopClosure_resets_active_submap
                  (search := search_answering [(0, Identity4)])
                  (refinement := accepting_refinement) _ _ _ _ H)).
Defined.

(** *** Relocalization requests *)

Lemma search_offline_effect {refinement : RelocRefinement} (g g' : GlobalMap)
    (T_WORLDLM_QUERY : Matrix4d) (cloud : list Vector3d) (loam : LoamPointCloud)
    (candidates : list (Z * Matrix4d)) (r : option SubmapMsg) :
  search_offline g T_WORLDLM_QUERY cloud loam candidates = Done (Returned r g') ->
  match r with
  | None => g' = g
  | Some m =>
      params_ g' = params_ g /\
      online_submaps_ g' = online_submaps_ g /\
      offline_submaps_ g' = offline_submaps_ g /\
      active_submap_type_ g' = OFFLINE /\
      at_ (offline_submaps_ g) (active_submap_id_ g') = Done (msg_submap m) /\
      msg_use_current_anchor m = false /\
      msg_T_WORLDLM_WORLDOFF m = T_WORLDLM_WORLDOFF_ g' /\
      T_WORLDLM_WORLDOFF_found_ g' = true /\
      (T_WORLDLM_WORLDOFF_found_ g = true -> T_WORLDLM_WORLDOFF_ g' = T_WORLDLM_WORLDOFF_ g)
  end.
Proof.
  induction candidates as [|[k T] more IH]; simpl; [discriminate|].
  destruct ((active_submap_id_ g =? k) && SubmapType_eqb (active_submap_type_ g) OFFLINE).
  { intros H. inversion H. reflexivity. }
  destruct (at_ (offline_submaps_ g) k) as [sm| | |] eqn:Hat; cbn [bind]; try discriminate.
  destruct (GetRefinedPose T sm cloud loam) as [Tr|]; [|exact IH].
  intros H. inversion H; subst; clear H.
  destruct (T_WORLDLM_WORLDOFF_found_ g) eqn:Hfound; cbn;
    repeat (split; [first [reflexivity | assumption]|]);
    first [intros _; reflexivity | discriminate].
Qed.

Lemma search_online_effect {refinement : RelocRefinement} (g g' : GlobalMap)
    (cloud : list Vector3d) (loam : LoamPointCloud)
    (candidates : list (Z * Matrix4d)) (r : option SubmapMsg) :
  search_online g cloud loam candidates = Done (Returned r g') ->
  match r with
  | None => g' = g
  | Some m =>
      params_ g' = params_ g /\
      online_submaps_ g' = online_submaps_ g /\
      offline_submaps_ g' = offline_submaps_ g /\
      active_submap_type_ g' = OFFLINE /\
      at_ (online_submaps_ g) (active_submap_id_ g') = Done (msg_submap m) /\
      msg_use_current_anchor m = true /\
      msg_T_WORLDLM_WORLDOFF m = Identity4 /\
      T_WORLDLM_WORLDOFF_found_ g' = T_WORLDLM_WORLDOFF_found_ g /\
      T_WORLDLM_WORLDOFF_ g' = T_WORLDLM_WORLDOFF_ g
  end.
Proof.
  induction candidates as [|[k T] more IH]; simpl; [discriminate|].
  destruct ((active_submap_id_ g =? k) && SubmapType_eqb (active_submap_type_ g) ONLINE).
  { intros H. inversion H. reflexivity. }
  destruct (at_ (online_submaps_ g) k) as [sm| | |] eqn:Hat; cbn [bind]; try discriminate.
  destruct (GetRefinedPose T sm cloud loam) as [Tr|]; [|exact IH].
  intros H. inversion H; subst; clear H. cbn.
  repeat (split; [first [reflexivity | assumption]|]). reflexivity.
Qed.

Lemma ProcessRelocRequest_cases
    {search : RelocCandidateSearch} {refinement : RelocRefinement}
    (g g' : GlobalMap) (reloc_request_msg : RelocRequestMsg) (r : option SubmapMsg) :
  ProcessRelocRequest g reloc_request_msg = Done (r, g') ->
  online_submaps_ g' = online_submaps_ g /\
  offline_submaps_ g' = offline_submaps_ g /\
  (T_WORLDLM_WORLDOFF_found_ g = true ->
   T_WORLDLM_WORLDOFF_found_ g' = true /\ T_WORLDLM_WORLDOFF_ g' = T_WORLDLM_WORLDOFF_ g) /\
  match r with
  | None => g' = g
  | Some m =>
      active_submap_type_ g' = OFFLINE /\
      ((msg_use_current_anchor m = false /\
        at_ (offline_submaps_ g) (active_submap_id_ g') = Done (msg_submap m) /\
        T_WORLDLM_WORLDOFF_found_ g' = true /\
        msg_T_WORLDLM_WORLDOFF m = T_WORLDLM_WORLDOFF_ g') \/
       (msg_use_current_anchor m = true /\
        at_ (online_submaps_ g) (active_submap_id_ g') = Done (msg_submap m) /\
        msg_T_WORLDLM_WORLDOFF m = Identity4 /\
        T_WORLDLM_WORLDOFF_found_ g' = T_WORLDLM_WORLDOFF_found_ g /\
        T_WORLDLM_WORLDOFF_ g' = T_WORLDLM_WORLDOFF_ g))
  end.
Proof.
  unfold ProcessRelocRequest.
  set (T_query := T_WORLD_BASELINK reloc_request_msg).
  set (cloud := lidar_points (lidar_measurement reloc_request_msg)).
  set (loam := mkLoamPointCloud _ _ _ _).
  set (offline_pass := match offline_submaps_ g with [] => Done RanOut | _ :: _ => _ end).
  destruct offline_pass as [offline_end| | |] eqn:Hoff; cbn [bind]; try discriminate.
  destruct offline_end as [r1 g1|].
  - intros H. inversion H; subst; clear H.
    assert (Hrun : exists candidates,
               search_offline g T_query cloud loam candidates = Done (Returned r g')).
    { unfold offline_pass in Hoff. destruct (offline_submaps_ g); [discriminate|].
      eexists. exact Hoff. }
    destruct Hrun as (candidates & Hrun). apply search_offline_effect in Hrun.
    destruct r as [m|].
    + destruct Hrun as (_ & Hon & Hof & Hty & Hat & Huse & HT & Hfound & Hkeep).
      split; [exact Hon|]. split; [exact Hof|]. split; [tauto|].
      split; [exact Hty|]. left. tauto.
    + subst g'. tauto.
  - set (online_pass := match online_submaps_ g with [] => Done RanOut | _ :: _ => _ end).
    destruct online_pass as [online_end| | |] eqn:Hon; cbn [bind]; try discriminate.
    destruct online_end as [r1 g1|].
    + intros H. inversion H; subst; clear H.
      assert (Hrun : exists candidates,
                 search_online g cloud loam candidates = Done (Returned r g')).
      { unfold online_pass in Hon. destruct (online_submaps_ g); [discriminate|].
        eexists. exact Hon. }
      destruct Hrun as (candidates & Hrun). apply search_online_effect in Hrun.
      destruct r as [m|].
      * destruct Hrun as (_ & Honl & Hof & Hty & Hat & Huse & HT & Hfound & Hkeep).
        split; [exact Honl|]. split; [exact Hof|].
        split; [intros Hf; rewrite Hfound, Hkeep; tauto|].
        split; [exact Hty|]. right. tauto.
      * subst g'. tauto.
    + intros H. inversion H; subst. tauto.
Qed.



Lemma add_to_submap_only_online (g g' : GlobalMap) (submap_id : Z) (m : Measurement) :
  add_to_submap g submap_id m = Done g' -> exists l, g' = set_online_submaps g l.
Proof.
  unfold add_to_submap.
  destruct (at_ (online_submaps_ g) submap_id) as [sm| | |]; cbn [bind]; try discriminate.
  intros H. inversion H. eexists. reflexivity.
Qed.

Lemma store_measurements_only_online (g g' : GlobalMap) (submap_id : Z)
    (cam : CameraMeasurementMsg) (lid : LidarMeasurementMsg) (T : Matrix4d) (stamp : RosTime) :
  store_measurements g submap_id cam lid T stamp = Done g' ->
  exists l, g' = set_online_submaps g l.
Proof.
  unfold store_measurements.
  assert (H1 : forall (c : Outcome GlobalMap) (k : GlobalMap -> Outcome GlobalMap),
             (forall x, c = Done x -> exists l, x = set_online_submaps g l) ->
             (forall l x, k (set_online_submaps g l) = Done x ->
                          exists l', x = set_online_submaps g l') ->
             forall x, bind c k = Done x -> exists l, x = set_online_submaps g l).
  { intros c k Hc Hk x. destruct c as [y| | |]; cbn [bind]; try discriminate.
    destruct (Hc y eq_refl) as [l ->]. apply Hk. }
  assert (Hadd : forall l m x, add_to_submap (set_online_submaps g l) submap_id m = Done x ->
                               exists l', x = set_online_submaps g l').
  { intros l m x H. apply add_to_submap_only_online in H. destruct H as [l' ->].
    eexists. reflexivity. }
  apply H1.
  - intros x. destruct (landmarks cam).
    + intros H. injection H as <-. exists (online_submaps_ g).
      symmetry. apply set_online_submaps_same.
    + apply add_to_submap_only_online.
  - intros l. apply H1.
    + intros x. destruct (lidar_points lid).
      * intros H. injection H as <-. eexists. reflexivity.
      * apply Hadd.
    + intros l' x. destruct (_ >? 0).
      * apply Hadd.
      * intros H. injection H as <-. eexists. reflexivity.
Qed.

(** What one request leaves as the type of the active submap. *)
Lemma serve_active_type {search : RelocCandidateSearch} {refinement : RelocRefinement}
    (g g' : GlobalMap) (r : Request) :
  serve g r = Done g' ->
  active_submap_type_ g' = active_submap_type_ g \/
  active_submap_type_ g' = NONE \/ active_submap_type_ g' = OFFLINE.
Proof.
  destruct r as [cam lid T stamp| |msg]; cbn [serve].
  - unfold AddMeasurement.
    destruct (GetSubmapId g T) as [submap_id| | |]; cbn [bind]; try discriminate.
    destruct (open_submap g submap_id T stamp) as [[nt g1]| | |] eqn:Hopen; cbn [bind];
      try discriminate.
    assert (Hty : active_submap_type_ g1 = active_submap_type_ g \/
                  active_submap_type_ g1 = NONE).
    { revert Hopen. unfold open_submap.
      destruct (submap_id =? size (online_submaps_ g)).
      - destruct (InitiateNewSubmapPose _) as [new_transaction| | |]; cbn [bind];
          try discriminate.
        destruct (RunLoopClosure _ _) as [[reloc g2]| | |] eqn:Hloop; cbn [bind];
          try discriminate.
        apply RunLoopClosure_effect in Hloop.
        assert (Hg2 : active_submap_type_ g2 = active_submap_type_ g \/
                      active_submap_type_ g2 = NONE).
        { rewrite Hloop. destruct reloc as [t|]; [destruct (_ >? 0)|]; cbn; tauto. }
        destruct reloc as [rt|]; [destruct new_transaction as [nt'|]|]; try discriminate;
          intros H; inversion H; subst; exact Hg2.
      - intros H. inversion H; subst. left. reflexivity. }
    destruct (store_measurements g1 submap_id cam lid T stamp) as [g2| | |] eqn:Hstore;
      cbn [bind]; try discriminate.
    intros H. inversion H; subst; clear H.
    assert (Hsame : active_submap_type_ g' = active_submap_type_ g1).
    { destruct (store_measurements_only_online _ _ _ _ _ _ _ Hstore) as [l ->]. reflexivity. }
    rewrite Hsame. tauto.
  - unfold TriggerLoopClosure.
    destruct (size (online_submaps_ g) <? 2).
    + cbn [bind]. intros H. inversion H. left. reflexivity.
    + destruct (RunLoopClosure _ _) as [[reloc g2]| | |] eqn:Hloop; cbn [bind];
        try discriminate.
      apply RunLoopClosure_effect in Hloop. intros H. inversion H; subst.
      destruct reloc as [t|]; [destruct (_ >? 0)|]; cbn; tauto.
  - destruct (ProcessRelocRequest g msg) as [[r g1]| | |] eqn:Hreq; cbn [bind];
      try discriminate.
    intros H. inversion H; subst; clear H.
    destruct (ProcessRelocRequest_cases _ _ _ _ Hreq) as (_ & _ & _ & Hr).
    destruct r as [m|]; [right; right; tauto | left; now rewrite Hr].
Qed.

Lemma run_active_type {search : RelocCandidateSearch} {refinement : RelocRefinement}
    (requests : list Request) (g g' : GlobalMap) :
  run g requests = Done g' ->
  SubmapType_eqb (active_submap_type_ g) ONLINE = false ->
  SubmapType_eqb (active_submap_type_ g') ONLINE = false.
Proof.
  revert g. induction requests as [|r more IH]; intros g; simpl.
  - intros H. now inversion H.
  - destruct (serve g r) as [g1| | |] eqn:Hserve; cbn [bind]; try discriminate.
    intros Hrun Hty. apply (IH g1 Hrun).
    destruct (serve_active_type _ _ _ Hserve) as [E | [E | E]]; rewrite E;
      [exact Hty | reflexivity | reflexivity].
Qed.

Lemma search_online_never_refuses {refinement : RelocRefinement} (g g' : GlobalMap)
    (cloud : list Vector3d) (loam : LoamPointCloud) (candidates : list (Z * Matrix4d))
    (r : option SubmapMsg) :
  SubmapType_eqb (active_submap_type_ g) ONLINE = false ->
  search_online g cloud loam candidates = Done (Returned r g') -> r <> None.
Proof.
  intros Hty. induction candidates as [|[k T] more IH]; simpl; [discriminate|].
  rewrite Hty, andb_false_r.
  destruct (at_ (online_submaps_ g) k) as [sm| | |]; cbn [bind]; try discriminate.
  destruct (GetRefinedPose T sm cloud loam) as [Tr|]; [|exact IH].
  intros H. inversion H. discriminate.
Qed.

(** X14: the active submap is never filed as [ONLINE].  Over any sequence of
    measurements, triggered loop closures and relocalization requests that
    all return, a map whose active submap is not of type [ONLINE] stays so;
    hence the pass of a relocalization request over the online candidates
    never ends on the answer "no update": an online submap that is the active
    one is refined and sent again. *)
Theorem active_submap_is_never_online
    {search : RelocCandidateSearch} {refinement : RelocRefinement}
    (requests : list Request) (g g' : GlobalMap) :
  run g requests = Done g' ->
  SubmapType_eqb (active_submap_type_ g) ONLINE = false ->
  SubmapType_eqb (active_submap_type_ g') ONLINE = false /\
  forall (cloud : list Vector3d) (loam : LoamPointCloud) (candidates : list (Z * Matrix4d))
         (r : option SubmapMsg) (g'' : GlobalMap),
    search_online g' cloud loam candidates = Done (Returned r g'') -> r <> None.
Proof.
  intros Hrun Hty.
  pose proof (run_active_type requests g g' Hrun Hty) as Hty'.
  split; [exact Hty'|].
  intros cloud loam candidates r g''. now apply search_online_never_refuses.
Qed.

Lemma active_submap_is_never_online_witness :
  exists g',
    run (search := search_every_submap) (refinement := accepting_refinement)
      (map_of [])
      [ReqAddMeasurement (mkCameraMeasurementMsg [4; 9]) empty_lidar (pose_at 0 0 0) 1;
       ReqProcessRelocRequest (request_at 1 0 0);
       ReqAddMeasurement (mkCameraMeasurementMsg [4]) empty_lidar (pose_at 30 0 0) 2;
       ReqTriggerLoopClosure;
       ReqProcessRelocRequest (request_at 31 0 0)]
    = Done g' /\
    SubmapType_eqb (active_submap_type_ g') ONLINE = false.
Proof.
  assert (H : exists g',
             run (search := search_every_submap) (refinement := accepting_refinement)
               (map_of [])
               [ReqAddMeasurement (mkCameraMeasurementMsg [4; 9]) empty_lidar (pose_at 0 0 0) 1;
                ReqProcessRelocRequest (request_at 1 0 0);
                ReqAddMeasurement (mkCameraMeasurementMsg [4]) empty_lidar (pose_at 30 0 0) 2;
                ReqTriggerLoopClosure;
                ReqProcessRelocRequest (request_at 31 0 0)]
             = Done g')
    by (eexists; vm_compute; reflexivity).
  destruct H as (g' & H).
  exists g'. split; [exact H|].
  exact (proj1 (active_submap_is_never_online
                  (search := search_every_submap) (refinement := accepting_refinement)
                  _ _ _ H eq_refl)).
Defined.

(** *** The transaction of a new submap *)

Lemma RunLoopClosure_constraints {search : RelocCandidateSearch}
    {refinement : RelocRefinement} (g g' : GlobalMap) (query_index : Z) (tr : Transaction) :
  RunLoopClosure g query_index = Done (Some tr, g') ->
  forall c, In c (added_constraints tr) -> from_far_match g query_index c.
Proof.
  unfold RunLoopClosure.
  destruct (size (online_submaps_ g) =? 1); [discriminate|].
  destruct (at_ (online_submaps_ g) query_index) as [query| | |]; cbn [bind]; try discriminate.
  destruct (size _ =? 0); [discriminate|].
  destruct (refine_entries _ _ _ _) as [transaction| | |] eqn:Hloop; cbn [bind];
    try discriminate.
  intros H. inversion H; subst; clear H.
  eapply GlobalMapFacts.refine_entries_from_far;
    [apply GlobalMapFacts.refined_entries_far | | exact Hloop].
  intros c [].
Qed.

(** X15: the transaction [AddMeasurement] returns with a new submap holds
    first the constraint that ties the new submap, a prior at the pose of the
    measurement when the map was empty and else the pose relative to the
    submap that was the newest, and behind it the constraints of the loop
    closure run for that submap, the one just completed: each of them links
    it to a submap that is neither itself nor next to it. *)
Theorem AddMeasurement_transaction
    {search : RelocCandidateSearch} {refinement : RelocRefinement}
    (g g' : GlobalMap) (cam_measurement : CameraMeasurementMsg)
    (lid_measurement : LidarMeasurementMsg) (T_WORLD_BASELINK : Matrix4d) (stamp : RosTime)
    (tr : Transaction) :
  AddMeasurement g cam_measurement lid_measurement T_WORLD_BASELINK stamp
  = Done (Some tr, g') ->
  exists loop_constraints,
    added_constraints tr
    = match rev (online_submaps_ g) with
      | [] =>
          AbsolutePose3DStampedConstraint "GlobalMap" stamp T_WORLD_BASELINK
            (diagonal6 (pose_prior_noise_ g))
      | prev :: _ =>
          RelativePose3DStampedConstraint "GlobalMap" (Stamp prev) stamp
            (Tmul (InvertTransform (T_WORLD_SUBMAP prev)) T_WORLD_BASELINK)
            (local_mapper_covariance (params_ g))
      end :: loop_constraints /\
    forall c,
      In c loop_constraints ->
      from_far_match
        (set_online_submaps g (online_submaps_ g ++ [Submap_new stamp T_WORLD_BASELINK]))
        (size (online_submaps_ g) - 1) c.
Proof.
  unfold AddMeasurement. intros H.
  destruct (GetSubmapId g T_WORLD_BASELINK) as [submap_id| | |] eqn:Hid; cbn [bind] in H;
    try discriminate.
  destruct (open_submap g submap_id T_WORLD_BASELINK stamp) as [[nt g1]| | |] eqn:Hopen;
    cbn [bind] in H; try discriminate.
  destruct (store_measurements g1 submap_id _ _ _ _) as [g2| | |]; cbn [bind] in H;
    try discriminate.
  inversion H; subst nt g2; clear H.
  revert Hopen. unfold open_submap.
  destruct (submap_id =? size (online_submaps_ g)); [|discriminate].
  set (g0 := set_online_submaps g (online_submaps_ g ++ [Submap_new stamp T_WORLD_BASELINK])).
  assert (Htable : online_submaps_ g0
                   = online_submaps_ g ++ [Submap_new stamp T_WORLD_BASELINK])
    by reflexivity.
  rewrite (InitiateNewSubmapPose_last g0 _ _ Htable). cbn [bind].
  replace (size (online_submaps_ g0) - 2) with (size (online_submaps_ g) - 1)
    by (rewrite Htable; unfold size; rewrite length_app; cbn [List.length]; lia).
  destruct (RunLoopClosure g0 (size (online_submaps_ g) - 1)) as [[reloc g2]| | |] eqn:Hloop;
    cbn [bind]; try discriminate.
  assert (Htie : forall older : list Submap,
             match rev older with
             | [] =>
                 AbsolutePose3DStampedConstraint "GlobalMap"
                   (Stamp (Submap_new stamp T_WORLD_BASELINK))
                   (mkMatrix4d (Orientation (Submap_new stamp T_WORLD_BASELINK))
                      (Position (Submap_new stamp T_WORLD_BASELINK)))
                   (diagonal6 (pose_prior_noise_ g0))
             | prev :: _ =>
                 RelativePose3DStampedConstraint "GlobalMap" (Stamp prev)
                   (Stamp (Submap_new stamp T_WORLD_BASELINK))
                   (Tmul (InvertTransform (T_WORLD_SUBMAP prev))
                      (T_WORLD_SUBMAP (Submap_new stamp T_WORLD_BASELINK)))
                   (local_mapper_covariance (params_ g0))
             end
             = match rev older with
               | [] =>
                   AbsolutePose3DStampedConstraint "GlobalMap" stamp T_WORLD_BASELINK
                     (diagonal6 (pose_prior_noise_ g))
               | prev :: _ =>
                   RelativePose3DStampedConstraint "GlobalMap" (Stamp prev) stamp
                     (Tmul (InvertTransform (T_WORLD_SUBMAP prev)) T_WORLD_BASELINK)
                     (local_mapper_covariance (params_ g))
               end).
  { intros older. destruct (rev older); [|reflexivity].
    unfold Orientation, Position. cbn. now destruct T_WORLD_BASELINK. }
  destruct reloc as [rt|]; intros H; inversion H; subst; clear H.
  - exists (added_constraints rt). split.
    + rewrite GlobalMapFacts.merge_constraints. cbn [added_constraints app].
      now rewrite Htie.
    + exact (RunLoopClosure_constraints _ _ _ _ Hloop).
  - exists []. split; [cbn [added_constraints]; now rewrite Htie | intros c []].
Qed.

Lemma AddMeasurement_transaction_witness :
  exists tr g' loop_constraints,
    AddMeasurement (search := search_every_submap) (refinement := accepting_refinement)
      (map_of (submaps_along_x 3 20)) (mkCameraMeasurementMsg [4; 9]) empty_lidar
      (pose_at 100 0 0) 7
    = Done (Some tr, g') /\
    added_constraints tr
    = RelativePose3DStampedConstraint "GlobalMap" 2 7
        (Tmul (InvertTransform (pose_at (inject_Z 2 * 20) 0 0)) (pose_at 100 0 0))
        (local_mapper_covariance example_params)
      :: loop_constraints.
Proof.
  assert (H : exists tr g',
             AddMeasurement (search := search_every_submap)
               (refinement := accepting_refinement)
               (map_of (submaps_along_x 3 20)) (mkCameraMeasurementMsg [4; 9]) empty_lidar
               (pose_at 100 0 0) 7
             = Done (Some tr, g'))
    by (eexists; eexists; vm_compute; reflexivity).
  destruct H as (tr & g' & H).
  destruct (AddMeasurement_transaction
              (search := search_every_submap) (refinement := accepting_refinement)
              _ _ _ _ _ _ _ H)
    as (loop_constraints & Hcons & _).
  exists tr, g', loop_constraints. split; [exact H | exact Hcons].
Defined.

End GlobalMapSessionFacts.

(* ------------------------------------------------------------------ *)
(** ** The global map: the loop over the submaps *)

Module GlobalMapUpdateFacts.

Import Eigen Ros GlobalMap GlobalMapSession GlobalMapUpdate.

Lemma update_from_small (UpdatePose : Submap -> Submap) (todo : list Submap) :
  forall (done : list Submap) (fuel : nat),
    size (done ++ todo) <= 65535 ->
    (List.length todo < fuel)%nat ->
    update_from UpdatePose fuel (done ++ todo) (size done)
    = Some (Done (done ++ map UpdatePose todo)).
Proof.
  induction todo as [|sm todo IH]; intros done fuel Hsmall Hfuel.
  - destruct fuel as [|fuel]; [simpl in Hfuel; lia|]. simpl.
    rewrite app_nil_r. rewrite Z.ltb_irrefl. reflexivity.
  - destruct fuel as [|fuel]; [simpl in Hfuel; lia|].
    cbn [update_from].
    assert (Hlt : (size done <? size (done ++ sm :: todo)) = true).
    { apply Z.ltb_lt. unfold size. rewrite length_app. cbn [List.length]. lia. }
    rewrite Hlt.
    assert (Hat : at_ (done ++ sm :: todo) (size done) = Done sm).
    { apply GlobalMapFacts.at_Done. unfold size. split; [lia|].
      rewrite Nat2Z.id, nth_error_app2 by lia. now rewrite Nat.sub_diag. }
    rewrite Hat.
    assert (Hrep : replace_at (done ++ sm :: todo) (Z.to_nat (size done)) (UpdatePose sm)
                   = (done ++ [UpdatePose sm]) ++ todo).
    { unfold replace_at, size. rewrite Nat2Z.id.
      rewrite firstn_app, Nat.sub_diag, firstn_O, app_nil_r, firstn_all.
      rewrite skipn_app, (skipn_all2 done) by lia.
      replace (S (List.length done) - List.length done)%nat with 1%nat by lia.
      cbn [skipn app]. now rewrite <- app_assoc. }
    rewrite Hrep.
    assert (Hnext : uint16_succ (size done) = size (done ++ [UpdatePose sm])).
    { unfold uint16_succ, size in *. rewrite length_app in *. cbn [List.length] in *.
      rewrite Z.mod_small by lia. lia. }
    rewrite Hnext. rewrite IH.
    + now rewrite <- app_assoc.
    + unfold size in *. rewrite !length_app in *. cbn [List.length] in *. lia.
    + simpl in Hfuel. lia.
Qed.

Lemma update_from_wraps (UpdatePose : Submap -> Submap) (fuel : nat) :
  forall (submaps : list Submap) (i : Z),
    65536 <= size submaps -> 0 <= i < 65536 ->
    update_from UpdatePose fuel submaps i = None.
Proof.
  induction fuel as [|fuel IH]; intros submaps i Hbig Hi; [reflexivity|].
  cbn [update_from].
  assert (Hlt : (i <? size submaps) = true) by (apply Z.ltb_lt; lia).
  rewrite Hlt.
  destruct (GlobalMapFacts.at_in_range submaps i) as [sm Hsm]; [lia|].
  rewrite Hsm. apply IH.
  - unfold size in *. rewrite GlobalMapSessionFacts.replace_at_length; lia.
  - unfold uint16_succ. apply Z.mod_pos_bound. lia.
Qed.

(** X16: [UpdateSubmapPoses] counts the submaps with a [uint16_t].  With at
    most 65535 online submaps it updates the pose of every submap once, in
    order, records the update time and counts the update, as soon as the loop
    is given one test more than there are submaps.  With 65536 submaps or
    more the counter wraps to 0 before it reaches the size, and the loop never
    ends, whatever the number of tests it is given. *)
Theorem UpdateSubmapPoses_counts_with_uint16 (UpdatePose : Submap -> Submap) (s : Updates)
    (update_time : RosTime) (fuel : nat) :
  (size (online_submaps_ s) <= 65535 ->
   (List.length (online_submaps_ s) < fuel)%nat ->
   UpdateSubmapPoses UpdatePose fuel s update_time
   = Some (Done (mkUpdates (map UpdatePose (online_submaps_ s)) update_time
                   (global_map_updates_ s + 1)))) /\
  (65536 <= size (online_submaps_ s) ->
   UpdateSubmapPoses UpdatePose fuel s update_time = None).
Proof.
  unfold UpdateSubmapPoses. split.
  - intros Hsmall Hfuel.
    pose proof (update_from_small UpdatePose (online_submaps_ s) [] fuel Hsmall Hfuel) as H.
    cbn [app] in H. change (size []) with 0 in H. now rewrite H.
  - intros Hbig. rewrite (update_from_wraps UpdatePose fuel _ 0 Hbig); [reflexivity | lia].
Qed.

End GlobalMapUpdateFacts.

(* ------------------------------------------------------------------ *)
(** ** The maps stored for publishing *)

Module RosMapsFacts.

Import Eigen Ros GlobalMap RosMaps.

Lemma pop_above_lastn (max : N) (q : list RosMap) : pop_above max q = lastn (N.to_nat max) q.
Proof.
  unfold lastn. induction q as [|x rest IH]; [reflexivity|].
  cbn [pop_above]. destruct (max <? N.of_nat (List.length (x :: rest)))%N eqn:E.
  - apply N.ltb_lt in E. cbn [List.length] in *. rewrite IH.
    replace (S (List.length rest) - N.to_nat max)%nat
      with (S (List.length rest - N.to_nat max)) by lia.
    reflexivity.
  - apply N.ltb_ge in E. cbn [List.length] in *.
    replace (S (List.length rest) - N.to_nat max)%nat with 0%nat by lia.
    reflexivity.
Qed.

Lemma lastn_length {A : Type} (n : nat) (l : list A) :
  List.length (lastn n l) = Nat.min n (List.length l).
Proof. unfold lastn. rewrite length_skipn. lia. Qed.

Lemma lastn_app_lastn {A : Type} (n : nat) (l more : list A) :
  lastn n (lastn n l ++ more) = lastn n (l ++ more).
Proof.
  unfold lastn. rewrite !length_app, length_skipn.
  destruct (Nat.le_gt_cases (List.length l) n) as [Hle | Hgt].
  - replace (List.length l - n)%nat with 0%nat by lia. cbn [skipn].
    now rewrite Nat.sub_0_r.
  - rewrite !skipn_app, length_skipn.
    replace (List.length l - (List.length l - n) + List.length more - n)%nat
      with (List.length more) by lia.
    rewrite skipn_skipn. f_equal.
    + f_equal. lia.
    + f_equal. lia.
Qed.

Lemma move_all_app (q maps_vector : list RosMap) : move_all q maps_vector = maps_vector ++ q.
Proof.
  revert maps_vector. induction q as [|x rest IH]; intros maps_vector; simpl.
  - now rewrite app_nil_r.
  - rewrite IH. now rewrite <- app_assoc.
Qed.

(** X17: a scan stored by [AddNewRosScan] is put in the world frame and
    numbered with the counter, which goes up by one; of the scans then in the
    queue the newest [max_num_new_scans_] are kept, oldest first, so the queue
    never holds more than that.  When the extrinsics are missing nothing is
    stored, the counter stays, and storing of new scans is switched off. *)
Theorem AddNewRosScan_keeps_newest (T_BASELINK_LIDAR : option Matrix4d)
    (world_frame_id : string) (s : Stored) (cloud : list Vector3d)
    (T_WORLD_BASELINK : Matrix4d) (stamp : RosTime) :
  match T_BASELINK_LIDAR with
  | Some T =>
      ros_new_scans_ (AddNewRosScan (Some T) world_frame_id s cloud T_WORLD_BASELINK stamp)
      = lastn (N.to_nat (max_num_new_scans_ s))
          (ros_new_scans_ s
           ++ [scan_msg T world_frame_id (new_scans_counter_ s) 0
                 (cloud, T_WORLD_BASELINK, stamp)]) /\
      (N.of_nat (List.length
                   (ros_new_scans_
                      (AddNewRosScan (Some T) world_frame_id s cloud T_WORLD_BASELINK stamp)))
       <= max_num_new_scans_ s)%N /\
      new_scans_counter_ (AddNewRosScan (Some T) world_frame_id s cloud T_WORLD_BASELINK stamp)
      = new_scans_counter_ s + 1 /\
      store_new_scans_ (AddNewRosScan (Some T) world_frame_id s cloud T_WORLD_BASELINK stamp)
      = store_new_scans_ s
  | None =>
      ros_new_scans_ (AddNewRosScan None world_frame_id s cloud T_WORLD_BASELINK stamp)
      = ros_new_scans_ s /\
      new_scans_counter_ (AddNewRosScan None world_frame_id s cloud T_WORLD_BASELINK stamp)
      = new_scans_counter_ s /\
      store_new_scans_ (AddNewRosScan None world_frame_id s cloud T_WORLD_BASELINK stamp)
      = false
  end.
Proof.
  destruct T_BASELINK_LIDAR as [T|]; [|repeat split].
  cbn [AddNewRosScan ros_new_scans_ new_scans_counter_ store_new_scans_ scan_msg].
  rewrite pop_above_lastn, Z.add_0_r.
  split; [reflexivity|]. split; [|split; reflexivity].
  rewrite lastn_length. lia.
Qed.

Lemma lastn_all {A : Type} (n : nat) (l : list A) :
  (List.length l <= n)%nat -> lastn n l = l.
Proof.
  intros H. unfold lastn. replace (List.length l - n)%nat with 0%nat by lia. reflexivity.
Qed.

Lemma store_scans_queue (T : Matrix4d) (world_frame_id : string)
    (scans : list (list Vector3d * Matrix4d * RosTime)) :
  forall s : Stored,
    store_new_scans_ s = true ->
    (N.of_nat (List.length (ros_new_scans_ s)) <= max_num_new_scans_ s)%N ->
    ros_new_scans_ (fold_left (store_scan (Some T) world_frame_id) scans s)
    = lastn (N.to_nat (max_num_new_scans_ s))
        (ros_new_scans_ s ++ scan_msgs T world_frame_id (new_scans_counter_ s) scans) /\
    ros_submaps_ (fold_left (store_scan (Some T) world_frame_id) scans s) = ros_submaps_ s /\
    ros_global_lidar_map_ (fold_left (store_scan (Some T) world_frame_id) scans s)
    = ros_global_lidar_map_ s /\
    ros_global_keypoints_map_ (fold_left (store_scan (Some T) world_frame_id) scans s)
    = ros_global_keypoints_map_ s /\
    new_scans_counter_ (fold_left (store_scan (Some T) world_frame_id) scans s)
    = new_scans_counter_ s + Z.of_nat (List.length scans).
Proof.
  induction scans as [|[[cloud Tw] stamp] more IH]; intros s Hstore Hbound.
  - cbn [fold_left scan_msgs List.length]. rewrite app_nil_r, lastn_all by lia.
    repeat split. lia.
  - cbn [fold_left scan_msgs store_scan]. rewrite Hstore.
    set (s1 := AddNewRosScan (Some T) world_frame_id s cloud Tw stamp).
    assert (Hqueue : ros_new_scans_ s1
                     = lastn (N.to_nat (max_num_new_scans_ s))
                         (ros_new_scans_ s
                          ++ [scan_msg T world_frame_id (new_scans_counter_ s) 0
                                (cloud, Tw, stamp)])).
    { unfold s1. cbn [AddNewRosScan ros_new_scans_ scan_msg].
      now rewrite pop_above_lastn, Z.add_0_r. }
    destruct (IH s1) as (Hq & Hsub & Hlid & Hkey & Hcount).
    + exact Hstore.
    + rewrite Hqueue, lastn_length. unfold s1. cbn [AddNewRosScan max_num_new_scans_]. lia.
    + rewrite Hq, Hsub, Hlid, Hkey, Hcount, Hqueue.
      unfold s1. cbn [AddNewRosScan max_num_new_scans_ new_scans_counter_ ros_submaps_
                        ros_global_lidar_map_ ros_global_keypoints_map_ List.length].
      rewrite lastn_app_lastn, <- app_assoc. cbn [app].
      repeat split. lia.
Qed.

(** X18: the scans stored since the last call are handed over once.  With
    storing switched on, the extrinsics known and a queue within its bound,
    [GetRosMaps] called after any number of stored scans returns the newest
    [max_num_new_scans_] of the queued and the new scans, oldest first and
    the new ones numbered from the counter on; then the stored submaps; then
    the global lidar map and the global keypoint map when there is one.  A
    second call returns nothing. *)
Theorem stored_maps_are_handed_over_once (T_BASELINK_LIDAR : Matrix4d)
    (world_frame_id : string) (s : Stored)
    (scans : list (list Vector3d * Matrix4d * RosTime)) :
  store_new_scans_ s = true ->
  (N.of_nat (List.length (ros_new_scans_ s)) <= max_num_new_scans_ s)%N ->
  fst (GetRosMaps (fold_left (store_scan (Some T_BASELINK_LIDAR) world_frame_id) scans s))
  = lastn (N.to_nat (max_num_new_scans_ s))
      (ros_new_scans_ s
       ++ scan_msgs T_BASELINK_LIDAR world_frame_id (new_scans_counter_ s) scans)
    ++ ros_submaps_ s ++ held (ros_global_lidar_map_ s)
    ++ held (ros_global_keypoints_map_ s) /\
  fst (GetRosMaps
         (snd (GetRosMaps
                 (fold_left (store_scan (Some T_BASELINK_LIDAR) world_frame_id) scans s))))
  = [].
Proof.
  intros Hstore Hbound.
  destruct (store_scans_queue T_BASELINK_LIDAR world_frame_id scans s Hstore Hbound)
    as (Hq & Hsub & Hlid & Hkey & _).
  split; [|reflexivity].
  unfold GetRosMaps. cbn [fst]. rewrite !move_all_app, Hq, Hsub, Hlid, Hkey. cbn [app].
  destruct (ros_global_lidar_map_ s), (ros_global_keypoints_map_ s); cbn [held app];
    rewrite <- ?app_assoc; cbn [app]; rewrite ?app_nil_r; reflexivity.
Qed.

Lemma stored_maps_are_handed_over_once_witness :
  fst (GetRosMaps
         (fold_left (store_scan (Some Identity4) "world")
            [([mkVector3d 1 0 0], pose_at 5 0 0, 10); ([mkVector3d 2 0 0], pose_at 6 0 0, 20);
             ([mkVector3d 3 0 0], pose_at 7 0 0, 30)]
            (mkStored [] [(LIDARSUBMAP, mkPointCloud2 [] 1 "world" 1)] None None true 0 2)))
  = lastn 2
      (scan_msgs Identity4 "world" 0
         [([mkVector3d 1 0 0], pose_at 5 0 0, 10); ([mkVector3d 2 0 0], pose_at 6 0 0, 20);
          ([mkVector3d 3 0 0], pose_at 7 0 0, 30)])
    ++ [(LIDARSUBMAP, mkPointCloud2 [] 1 "world" 1)].
Proof.
  apply (stored_maps_are_handed_over_once Identity4 "world"
           (mkStored [] [(LIDARSUBMAP, mkPointCloud2 [] 1 "world" 1)] None None true 0 2)).
  - reflexivity.
  - vm_compute. discriminate.
Defined.

End RosMapsFacts.

(* ------------------------------------------------------------------ *)
(** ** Visual-inertial odometry: buffers and keyframe count *)

Module VioSessionFacts.

Import Ros Imu Vio VioSession.

Lemma forward_cases (img_time : RosTime) (imu_buffer : list IMUData) :
  forall sent : list IMUData,
    (Forall (fun x => t x <= img_time) imu_buffer /\
     forward img_time imu_buffer sent = FrontOfEmptyQueue) \/
    (exists moved x rest,
       imu_buffer = moved ++ x :: rest /\
       Forall (fun y => t y <= img_time) moved /\
       img_time < t x /\
       forward img_time imu_buffer sent = Done (x :: rest, sent ++ moved)).
Proof.
  induction imu_buffer as [|x rest IH]; intros sent.
  - left. split; [constructor | reflexivity].
  - cbn [forward]. destruct (t x <=? img_time) eqn:E.
    + apply Z.leb_le in E.
      destruct (IH (sent ++ [x])) as [[Hall Hrun] | (moved & y & rest' & Heq & Hall & Hy & Hrun)].
      * left. split; [constructor; assumption | exact Hrun].
      * right. exists (x :: moved), y, rest'. subst rest.
        split; [reflexivity|]. split; [constructor; assumption|]. split; [exact Hy|].
        rewrite Hrun, <- app_assoc. reflexivity.
    + apply Z.leb_gt in E. right. exists [], x, rest.
      split; [reflexivity|]. split; [constructor|]. split; [exact E|].
      now rewrite app_nil_r.
Qed.

(** X19: [processIMU] returns exactly when an image is waiting and the IMU
    buffer, with the new message, holds a message newer than the oldest image;
    otherwise it reads [front()] of an empty queue, the image queue or the IMU
    queue it has just emptied.  When it returns, the messages up to the first
    one newer than that image have left the buffer, in order, for the
    initializer (before initialization) or the preintegrator (after), behind
    those handed over earlier; the rest stays, that newer message at the
    front; no message is lost and the images are untouched. *)
Theorem processIMU_forwards_up_to_image (s : Buffers) (msg : IMUData) :
  ((exists s', processIMU s msg = Done s') <->
   exists img_time later,
     image_buffer_ s = img_time :: later /\
     Exists (fun x => img_time < t x) (imu_buffer_ s ++ [msg])) /\
  (processIMU s msg = FrontOfEmptyQueue \/ exists s', processIMU s msg = Done s') /\
  forall s',
    processIMU s msg = Done s' ->
    exists img_time later sent x rest,
      image_buffer_ s = img_time :: later /\
      imu_buffer_ s ++ [msg] = sent ++ imu_buffer_ s' /\
      Forall (fun y => t y <= img_time) sent /\
      imu_buffer_ s' = x :: rest /\ img_time < t x /\
      image_buffer_ s' = image_buffer_ s /\
      Initialized s' = Initialized s /\
      to_initializer s'
      = (if Initialized s then to_initializer s else to_initializer s ++ sent) /\
      to_preintegrator s'
      = (if Initialized s then to_preintegrator s ++ sent else to_preintegrator s).
Proof.
  unfold processIMU.
  destruct (image_buffer_ s) as [|img_time later] eqn:Himg; cbn [front bind].
  - split; [|split].
    + split; [intros [s' H]; discriminate | intros (i & l & H & _); discriminate].
    + left. reflexivity.
    + intros s' H. discriminate.
  - destruct (forward_cases img_time (imu_buffer_ s ++ [msg]) [])
      as [[Hall Hrun] | (sent & x & rest & Heq & Hall & Hx & Hrun)];
      rewrite Hrun; cbn [bind app].
    + split; [|split].
      * split; [intros [s' H]; discriminate|].
        intros (i & l & H & Hex). inversion H; subst i l.
        apply Exists_exists in Hex. destruct Hex as (y & Hy & Hlt).
        rewrite Forall_forall in Hall. specialize (Hall y Hy). lia.
      * left. reflexivity.
      * intros s' H. discriminate.
    + split; [|split].
      * split; [|intros _; eexists; reflexivity].
        intros _. exists img_time, later. split; [reflexivity|].
        rewrite Heq. apply Exists_app. right. now constructor.
      * right. eexists. reflexivity.
      * intros s' H. inversion H; subst s'; clear H.
        exists img_time, later, sent, x, rest.
        destruct (Initialized s); cbn; repeat split; assumption.
Qed.

Lemma to_uint32_range (x : Z) : 0 <= to_uint32 x < 4294967296.
Proof. unfold to_uint32. apply Z.mod_pos_bound. lia. Qed.

Lemma IsKeyframe_past_window {tracker : Tracker} (s : VisualInertialOdom)
    (frame : RosTime * list Z * list Z) :
  to_uint32 (window_size (camera_params_ s) - 1) < added_since_kf_ s ->
  moved (camera_params_ s) (cur_kf_time_ s) frame = false ->
  IsKeyframe s (fst (fst frame)) (snd (fst frame)) (snd frame) = false.
Proof.
  destruct frame as [[img_time tri] untri]. cbn [fst snd moved]. intros Hpast Hmoved.
  unfold IsKeyframe. rewrite Hmoved.
  assert (Hcount : (added_since_kf_ s =? to_uint32 (window_size (camera_params_ s) - 1))
                   = false)
    by (apply Z.eqb_neq; lia).
  rewrite Hcount. now destruct (Qle_bool _ _).
Qed.

Lemma note_frames_past_window {tracker : Tracker}
    (frames : list (RosTime * list Z * list Z)) :
  forall (s : VisualInertialOdom) (keyframes_ : list RosTime),
    to_uint32 (window_size (camera_params_ s) - 1) < added_since_kf_ s ->
    added_since_kf_ s + Z.of_nat (List.length frames) < 4294967296 ->
    Forall (fun frame => moved (camera_params_ s) (cur_kf_time_ s) frame = false) frames ->
    note_frames s keyframes_ frames
    = (mkVisualInertialOdom (camera_params_ s) (cur_kf_time_ s)
         (added_since_kf_ s + Z.of_nat (List.length frames)),
       keyframes_).
Proof.
  induction frames as [|[[img_time tri] untri] more IH];
    intros s keyframes_ Hpast Hroom Hstill.
  - cbn [note_frames List.length]. rewrite Z.add_0_r. now destruct s.
  - inversion Hstill as [|f l Hf Hmore]; subst.
    pose proof (to_uint32_range (window_size (camera_params_ s) - 1)) as Hrange.
    assert (Hsucc : uint32_succ (added_since_kf_ s) = added_since_kf_ s + 1).
    { unfold uint32_succ, to_uint32. apply Z.mod_small.
      cbn [List.length] in Hroom. lia. }
    cbn [note_frames]. unfold note_frame.
    pose proof (IsKeyframe_past_window s (img_time, tri, untri) Hpast Hf) as Hno.
    cbn [fst snd] in Hno. rewrite Hno, Hsucc.
    rewrite IH.
    + cbn [camera_params_ cur_kf_time_ added_since_kf_ List.length]. do 2 f_equal. lia.
    + cbn [camera_params_ added_since_kf_]. lia.
    + cbn [camera_params_ added_since_kf_ List.length] in *. lia.
    + exact Hmore.
Qed.

(** X20: the count of frames since the last keyframe makes a keyframe at one
    value only.  A frame that comes when the count is [window_size - 1] (as
    the comparison reads it, an unsigned 32-bit value) but sooner than
    [keyframe_min_time_in_seconds] after the keyframe is no keyframe and takes
    the 32-bit count one further; and once the count is past that value,
    frames without parallax above the threshold and without a drop of the
    tracks are never keyframes, however late they come, for as many frames as
    the count can take before it wraps at 2^32: each one only adds one to the
    count. *)
Theorem window_rule_fires_at_one_count_only {tracker : Tracker} (s : VisualInertialOdom)
    (keyframes_ : list RosTime) :
  (forall (img_time : RosTime) (triangulated_ids untriangulated_ids : list Z),
     added_since_kf_ s = to_uint32 (window_size (camera_params_ s) - 1) ->
     Qle_bool (keyframe_min_time_in_seconds (camera_params_ s))
              (toSec (img_time - cur_kf_time_ s)) = false ->
     note_frame s keyframes_ img_time triangulated_ids untriangulated_ids
     = (mkVisualInertialOdom (camera_params_ s) (cur_kf_time_ s)
          (uint32_succ (added_since_kf_ s)),
        keyframes_)) /\
  (forall frames : list (RosTime * list Z * list Z),
     to_uint32 (window_size (camera_params_ s) - 1) < added_since_kf_ s ->
     added_since_kf_ s + Z.of_nat (List.length frames) < 4294967296 ->
     Forall (fun frame => moved (camera_params_ s) (cur_kf_time_ s) frame = false) frames ->
     note_frames s keyframes_ frames
     = (mkVisualInertialOdom (camera_params_ s) (cur_kf_time_ s)
          (added_since_kf_ s + Z.of_nat (List.length frames)),
        keyframes_)).
Proof.
  split.
  - intros img_time tri untri Hcount Hgate.
    unfold note_frame, IsKeyframe. now rewrite Hgate.
  - intros frames. apply note_frames_past_window.
Qed.

End VioSessionFacts.
